(** * Opteryx: binder, predicate rewriter, asynchronous scan, single-key hash join

  A shallow embedding of

    - [opteryx/components/binder/binder.py]
    - [opteryx/planner/cost_based_optimizer/strategies/predicate_rewriter.py]
    - [opteryx/operators/async_read_node.py]
    - [opteryx/operators/inner_join_node_single.py]

  Python objects that the code mutates and shares (schema columns, relation
  schemas) live in an explicit store and are named by locations; expression
  nodes form a tree that is updated functionally; Python exceptions are the
  [Raise] results of an error monad. *)

From Stdlib Require Import ZArith String Ascii List Lia Bool HexadecimalString.
From stdpp Require Import base option list gmap strings.

Set Warnings "-register-all".

Local Open Scope string_scope.
Local Open Scope list_scope.

(** ** Python runtime: exceptions and results *)

Module Py.

(** The exceptions that the embedded code raises itself, and the built-in
    ones that its dynamically typed operations can raise. *)
Inductive PyExn : Type :=
| AttributeError
| TypeError
| IndexError
| KeyError (key : string)
| ValueError
| RecursionError
| AmbiguousIdentifierError (identifier : option string)
| ColumnNotFoundError (column : option string) (suggestion : option string)
| FunctionNotFoundError (function : option string) (suggestion : option string)
| InvalidInternalStateError (message : string)
| UnexpectedDatasetReferenceError (dataset : option string)
| InvalidReference.

Inductive result (A : Type) : Type :=
| Ok (a : A)
| Raise (e : PyExn).
Arguments Ok {A} a.
Arguments Raise {A} e.

Definition bind {A B} (m : result A) (k : A -> result B) : result B :=
  match m with
  | Ok a => k a
  | Raise e => Raise e
  end.

Definition is_ok {A} (m : result A) : bool :=
  match m with Ok _ => true | Raise _ => false end.

(** *** [str] operations used by the code *)

(** [s.startswith(p)]. *)
Fixpoint startswith (p s : string) : bool :=
  match p, s with
  | EmptyString, _ => true
  | String a p', String b s' => Ascii.eqb a b && startswith p' s'
  | String _ _, EmptyString => false
  end.

(** [needle in hay] on two [str]. *)
Fixpoint str_contains (needle hay : string) : bool :=
  startswith needle hay
  || match hay with
     | EmptyString => false
     | String _ rest => str_contains needle rest
     end.

(** [s.count(c)] for a one-character [c]. *)
Fixpoint str_count (c : ascii) (s : string) : nat :=
  match s with
  | EmptyString => 0
  | String a rest => (if Ascii.eqb a c then 1 else 0) + str_count c rest
  end.

(** [s[0]] and [s[-1]]; [None] stands for the [IndexError] on [""]. *)
Definition str_first (s : string) : option ascii :=
  match s with
  | EmptyString => None
  | String a _ => Some a
  end.

Fixpoint str_last (s : string) : option ascii :=
  match s with
  | EmptyString => None
  | String a EmptyString => Some a
  | String _ rest => str_last rest
  end.

(** [s[:-1]], [s[1:]] and [s[1:-1]]: slices never raise. *)
Fixpoint str_drop_last (s : string) : string :=
  match s with
  | EmptyString => EmptyString
  | String _ EmptyString => EmptyString
  | String a rest => String a (str_drop_last rest)
  end.

Definition str_drop_first (s : string) : string :=
  match s with
  | EmptyString => EmptyString
  | String _ rest => rest
  end.

Definition str_inner (s : string) : string := str_drop_last (str_drop_first s).

(** [re.sub(r"%+", "%", s)]: every maximal run of ["%"] becomes one ["%"]. *)
Fixpoint collapse_percent (s : string) : string :=
  match s with
  | EmptyString => EmptyString
  | String a rest =>
      if Ascii.eqb a "%"
      then match rest with
           | String b _ =>
               if Ascii.eqb b "%" then collapse_percent rest
               else String a (collapse_percent rest)
           | EmptyString => String a EmptyString
           end
      else String a (collapse_percent rest)
  end.

(** Truth value of an optional [str]: [None] and [""] are false. *)
Definition truthy_str (s : option string) : bool :=
  match s with
  | Some (String _ _) => true
  | _ => false
  end.

(** Truth value of a reference that is an object or [None]. *)
Definition truthy_object {A} (o : option A) : bool :=
  match o with
  | Some _ => true
  | None => false
  end.

(** [a or b] where [a] is an optional [str] and [b] a [str]. *)
Definition str_or (a : option string) (b : string) : string :=
  match a with
  | Some (String c r) => String c r
  | _ => b
  end.

End Py.

Export Py.

Declare Scope py_scope.
Delimit Scope py_scope with py.
Notation "x <- m ;; k" := (Py.bind m (fun x => k))
(at level 20, m at level 99, k at level 200, only parsing) : py_scope.
Notation "' pat <- m ;; k" := (Py.bind m (fun x => match x with pat => k end))
(at level 20, pat pattern, m at level 99, k at level 200, only parsing) : py_scope.


(** ** Expression trees ([opteryx.models.Node], [opteryx.managers.expression]) *)

Module Expression.

Inductive NodeType : Type :=
| UNKNOWN
| AND | OR | XOR | NOT
| WILDCARD
| COMPARISON_OPERATOR
| BINARY_OPERATOR
| UNARY_OPERATOR
| FUNCTION
| IDENTIFIER
| SUBQUERY
| NESTED
| AGGREGATOR
| LITERAL
| EXPRESSION_LIST
| EVALUATED.

#[global] Instance NodeType_eq_dec : EqDecision NodeType.
Proof. solve_decision. Defined.

(** [t in (a, b, ...)] on node types. *)
Definition node_type_in (t : NodeType) (ts : list NodeType) : bool :=
  bool_decide (t ∈ ts).

Inductive OrsoTypes : Type :=
| BOOLEAN | TIMESTAMP | INTERVAL | VARCHAR | INTEGER | DOUBLE | DATE | BLOB.

#[global] Instance OrsoTypes_eq_dec : EqDecision OrsoTypes.
Proof. solve_decision. Defined.

(** The [type] and [sub_type] attributes hold [None], an [OrsoTypes] member,
    or (for derived columns the binder creates with [type=0]) the integer 0. *)
Inductive TypeTag : Type :=
| NoType
| Zero
| Orso (t : OrsoTypes).

#[global] Instance TypeTag_eq_dec : EqDecision TypeTag.
Proof. solve_decision. Defined.

(** [a or b] on type tags: [None] and [0] are false. *)
Definition type_or (a : TypeTag) (b : OrsoTypes) : TypeTag :=
  match a with
  | Orso t => Orso t
  | _ => Orso b
  end.

(** The scalars that occur inside a literal collection. *)
Inductive Atom : Type :=
| AStr (s : string)
| AInt (z : Z)
| ABool (b : bool).

#[global] Instance Atom_eq_dec : EqDecision Atom.
Proof. solve_decision. Defined.

(** The dynamically typed [value] attribute of a node: an operator or function
    name, an identifier, a literal scalar, a literal collection, one node, or
    (for EXPRESSION_LIST) the member nodes. *)
Inductive Payload (N : Type) : Type :=
| PNone
| PStr (s : string)
| PInt (z : Z)
| PBool (b : bool)
| PList (items : list Atom)
| PNode (n : N)
| PNodes (members : list N).
Arguments PNone {N}.
Arguments PStr {N} s.
Arguments PInt {N} z.
Arguments PBool {N} b.
Arguments PList {N} items.
Arguments PNode {N} n.
Arguments PNodes {N} members.

(** A node. [C] is the type of handles to schema column objects.  An absent
    attribute reads as [None]; [parameters] is [[]] when absent (the code only
    tests its truth value and iterates over it). *)
Inductive Node (C : Type) : Type := mkNode {
  node_type : NodeType;
  left : option (Node C);
  right : option (Node C);
  centre : option (Node C);
  parameters : list (Node C);
  value : Payload (Node C);
  type : TypeTag;
  sub_type : TypeTag;
  alias : option string;
  source : option string;
  source_column : option string;
  current_name : option string;
  query_column : option string;
  schema_column : option C;
  identity : option string;
  do_not_create_column : bool;
  source_connector : option (gset string);
  function : option nat;
  derived_from : option (list string)
}.
Arguments mkNode {C}.
Arguments node_type {C}.
Arguments left {C}.
Arguments right {C}.
Arguments centre {C}.
Arguments parameters {C}.
Arguments value {C}.
Arguments type {C}.
Arguments sub_type {C}.
Arguments alias {C}.
Arguments source {C}.
Arguments source_column {C}.
Arguments current_name {C}.
Arguments query_column {C}.
Arguments schema_column {C}.
Arguments identity {C}.
Arguments do_not_create_column {C}.
Arguments source_connector {C}.
Arguments function {C}.
Arguments derived_from {C}.

Section Updates.
Context {C : Type}.

(** [Node(node_type=t)]: every other attribute absent. *)
Definition new_node (t : NodeType) : Node C :=
  mkNode t None None None [] PNone NoType NoType None None None None None None
         None false None None None.

(** Attribute assignments [n.f = x]. *)
Definition set_node_type (x : NodeType) (n : Node C) : Node C :=
  mkNode x (left n) (right n) (centre n) (parameters n) (value n) (type n)
         (sub_type n) (alias n) (source n) (source_column n) (current_name n)
         (query_column n) (schema_column n) (identity n)
         (do_not_create_column n) (source_connector n) (function n)
         (derived_from n).

Definition set_left (x : option (Node C)) (n : Node C) : Node C :=
  mkNode (node_type n) x (right n) (centre n) (parameters n) (value n) (type n)
         (sub_type n) (alias n) (source n) (source_column n) (current_name n)
         (query_column n) (schema_column n) (identity n)
         (do_not_create_column n) (source_connector n) (function n)
         (derived_from n).

Definition set_right (x : option (Node C)) (n : Node C) : Node C :=
  mkNode (node_type n) (left n) x (centre n) (parameters n) (value n) (type n)
         (sub_type n) (alias n) (source n) (source_column n) (current_name n)
         (query_column n) (schema_column n) (identity n)
         (do_not_create_column n) (source_connector n) (function n)
         (derived_from n).

Definition set_centre (x : option (Node C)) (n : Node C) : Node C :=
  mkNode (node_type n) (left n) (right n) x (parameters n) (value n) (type n)
         (sub_type n) (alias n) (source n) (source_column n) (current_name n)
         (query_column n) (schema_column n) (identity n)
         (do_not_create_column n) (source_connector n) (function n)
         (derived_from n).

Definition set_parameters (x : list (Node C)) (n : Node C) : Node C :=
  mkNode (node_type n) (left n) (right n) (centre n) x (value n) (type n)
         (sub_type n) (alias n) (source n) (source_column n) (current_name n)
         (query_column n) (schema_column n) (identity n)
         (do_not_create_column n) (source_connector n) (function n)
         (derived_from n).

Definition set_value (x : Payload (Node C)) (n : Node C) : Node C :=
  mkNode (node_type n) (left n) (right n) (centre n) (parameters n) x (type n)
         (sub_type n) (alias n) (source n) (source_column n) (current_name n)
         (query_column n) (schema_column n) (identity n)
         (do_not_create_column n) (source_connector n) (function n)
         (derived_from n).

Definition set_type (x : TypeTag) (n : Node C) : Node C :=
  mkNode (node_type n) (left n) (right n) (centre n) (parameters n) (value n) x
         (sub_type n) (alias n) (source n) (source_column n) (current_name n)
         (query_column n) (schema_column n) (identity n)
         (do_not_create_column n) (source_connector n) (function n)
         (derived_from n).

Definition set_sub_type (x : TypeTag) (n : Node C) : Node C :=
  mkNode (node_type n) (left n) (right n) (centre n) (parameters n) (value n)
         (type n) x (alias n) (source n) (source_column n) (current_name n)
         (query_column n) (schema_column n) (identity n)
         (do_not_create_column n) (source_connector n) (function n)
         (derived_from n).

Definition set_source (x : option string) (n : Node C) : Node C :=
  mkNode (node_type n) (left n) (right n) (centre n) (parameters n) (value n)
         (type n) (sub_type n) (alias n) x (source_column n) (current_name n)
         (query_column n) (schema_column n) (identity n)
         (do_not_create_column n) (source_connector n) (function n)
         (derived_from n).

Definition set_query_column (x : option string) (n : Node C) : Node C :=
  mkNode (node_type n) (left n) (right n) (centre n) (parameters n) (value n)
         (type n) (sub_type n) (alias n) (source n) (source_column n)
         (current_name n) x (schema_column n) (identity n)
         (do_not_create_column n) (source_connector n) (function n)
         (derived_from n).

Definition set_schema_column (x : option C) (n : Node C) : Node C :=
  mkNode (node_type n) (left n) (right n) (centre n) (parameters n) (value n)
         (type n) (sub_type n) (alias n) (source n) (source_column n)
         (current_name n) (query_column n) x (identity n)
         (do_not_create_column n) (source_connector n) (function n)
         (derived_from n).

Definition set_function (x : option nat) (n : Node C) : Node C :=
  mkNode (node_type n) (left n) (right n) (centre n) (parameters n) (value n)
         (type n) (sub_type n) (alias n) (source n) (source_column n)
         (current_name n) (query_column n) (schema_column n) (identity n)
         (do_not_create_column n) (source_connector n) x (derived_from n).

Definition set_derived_from (x : option (list string)) (n : Node C) : Node C :=
  mkNode (node_type n) (left n) (right n) (centre n) (parameters n) (value n)
         (type n) (sub_type n) (alias n) (source n) (source_column n)
         (current_name n) (query_column n) (schema_column n) (identity n)
         (do_not_create_column n) (source_connector n) (function n) x.

End Updates.

End Expression.

Export Expression.


(** ** Dynamically typed operations on node payloads *)

Module Dyn.
Section Dyn.
Context {N : Type}.
Local Open Scope py_scope.

(** Reading an attribute of an object that may be [None]. *)
Definition attr {A} (o : option A) : result A :=
  match o with
  | Some a => Ok a
  | None => Raise AttributeError
  end.

(** [v == name]: equality with a [str] never raises. *)
Definition value_is (v : Payload N) (name : string) : bool :=
  match v with
  | PStr s => String.eqb s name
  | _ => false
  end.

(** [v in {names}] and [v in d] for a set or dict keyed by [str]: the value is
    hashed first, and a list is unhashable. *)
Definition value_in (v : Payload N) (names : list string) : result bool :=
  match v with
  | PStr s => Ok (bool_decide (s ∈ names))
  | PList _ | PNodes _ => Raise TypeError
  | _ => Ok false
  end.

(** [needle in v]. *)
Definition contains (needle : string) (v : Payload N) : result bool :=
  match v with
  | PStr s => Ok (str_contains needle s)
  | PList items => Ok (bool_decide (AStr needle ∈ items))
  | PNodes _ => Ok false
  | _ => Raise TypeError
  end.

Definition is_percent (a : ascii) : bool := Ascii.eqb a "%".

Definition atom_is_percent (a : Atom) : bool := bool_decide (a = AStr "%").

(** [v[-1] == "%"] and [v[0] == "%"]. *)
Definition last_is_percent (v : Payload N) : result bool :=
  match v with
  | PStr s =>
      match str_last s with
      | Some a => Ok (is_percent a)
      | None => Raise IndexError
      end
  | PList items =>
      match last items with
      | Some a => Ok (atom_is_percent a)
      | None => Raise IndexError
      end
  | PNodes members =>
      match members with
      | [] => Raise IndexError
      | _ => Ok false
      end
  | _ => Raise TypeError
  end.

Definition first_is_percent (v : Payload N) : result bool :=
  match v with
  | PStr s =>
      match str_first s with
      | Some a => Ok (is_percent a)
      | None => Raise IndexError
      end
  | PList items =>
      match items with
      | a :: _ => Ok (atom_is_percent a)
      | [] => Raise IndexError
      end
  | PNodes members =>
      match members with
      | [] => Raise IndexError
      | _ => Ok false
      end
  | _ => Raise TypeError
  end.

(** [v.count("%")]. *)
Definition count_percent (v : Payload N) : result nat :=
  match v with
  | PStr s => Ok (str_count "%" s)
  | PList items => Ok (length (filter (λ a, a = AStr "%") items))
  | PNodes _ => Ok 0
  | _ => Raise AttributeError
  end.

(** [len(v)]. *)
Definition len (v : Payload N) : result nat :=
  match v with
  | PStr s => Ok (String.length s)
  | PList items => Ok (length items)
  | PNodes members => Ok (length members)
  | _ => Raise TypeError
  end.

(** The slices [v[:-1]], [v[1:]], [v[1:-1]]. *)
Definition slice (on_str : string -> string)
    (on_list : ∀ A : Type, list A -> list A) (v : Payload N) :
    result (Payload N) :=
  match v with
  | PStr s => Ok (PStr (on_str s))
  | PList items => Ok (PList (on_list _ items))
  | PNodes members => Ok (PNodes (on_list _ members))
  | _ => Raise TypeError
  end.

Definition drop_last (v : Payload N) : result (Payload N) :=
  slice str_drop_last (λ A l, removelast l) v.

Definition drop_first (v : Payload N) : result (Payload N) :=
  slice str_drop_first (λ A l, tail l) v.

Definition drop_both (v : Payload N) : result (Payload N) :=
  slice str_inner (λ A l, removelast (tail l)) v.

(** [re.sub(r"%+", "%", v)]: only a [str] is accepted. *)
Definition re_sub_percent (v : Payload N) : result (Payload N) :=
  match v with
  | PStr s => Ok (PStr (collapse_percent s))
  | _ => Raise TypeError
  end.

(** [v.pop()]: the last element of a list. *)
Definition pop (v : Payload N) : result (Payload N) :=
  match v with
  | PList items =>
      match last items with
      | Some (AStr s) => Ok (PStr s)
      | Some (AInt z) => Ok (PInt z)
      | Some (ABool b) => Ok (PBool b)
      | None => Raise IndexError
      end
  | PNodes members =>
      match last members with
      | Some n => Ok (PNode n)
      | None => Raise IndexError
      end
  | _ => Raise AttributeError
  end.

(** [a and b] with [b] evaluated only when [a] is true. *)
Definition and_then (a : result bool) (b : result bool) : result bool :=
  x <- a;; if x then b else Ok false.

End Dyn.
End Dyn.

Export Dyn.


(** ** The predicate rewriter ([predicate_rewriter.py]) *)

Module PredicateRewriter.
Section Rewriter.
Context {C : Type}.
Local Open Scope py_scope.

(** [format_expression(node, True)] and [determine_type] are defined in modules
    of the engine that the rewriter imports; [ExpressionColumn(name=, type=)]
    builds the column object of a rebuilt node.  The rewriter only stores
    their results. *)
Variable format_expression : Node C -> string.
Variable ExpressionColumn : string -> OrsoTypes -> C.
Variable determine_type : Node C -> result TypeTag.

Definition IN_REWRITES (operator : string) : option string :=
  if String.eqb operator "InList" then Some "Eq"
  else if String.eqb operator "NotInList" then Some "NotEq"
  else None.

Definition LIKE_REWRITES (operator : string) : option string :=
  if String.eqb operator "Like" then Some "Eq"
  else if String.eqb operator "NotLike" then Some "NotEq"
  else None.

Definition LITERALS_TO_THE_RIGHT (operator : string) : option string :=
  if String.eqb operator "Plus" then Some "Minus"
  else if String.eqb operator "Minus" then Some "Plus"
  else None.

(** [d[predicate.value]] for one of the tables above. *)
Definition subscript (d : string -> option string) (v : Payload (Node C)) :
    result (Payload (Node C)) :=
  match v with
  | PStr s =>
      match d s with
      | Some s' => Ok (PStr s')
      | None => Raise (KeyError s)
      end
  | PList _ | PNodes _ => Raise TypeError
  | _ => Raise (KeyError "")
  end.

Definition _add_condition (existing_condition : option (Node C))
    (new_condition : Node C) : Node C :=
  match existing_condition with
  | None => new_condition
  | Some existing =>
      let _and := new_node AND in
      let _and := set_left (Some new_condition) _and in
      set_right (Some existing) _and
  end.

Definition remove_adjacent_wildcards (predicate : Node C) : result (Node C) :=
  r <- attr (right predicate);;
  doubled <- contains "%%" (value r);;
  if doubled then
    v <- re_sub_percent (value r);;
    Ok (set_right (Some (set_value v r)) predicate)
  else Ok predicate.

(** [Node(node_type=NodeType.LITERAL, type=OrsoTypes.BOOLEAN, value=b)]. *)
Definition boolean_literal (b : bool) : Node C :=
  set_value (PBool b) (set_type (Orso BOOLEAN) (new_node LITERAL)).

(** [predicate.parameters] is a list of nodes, so the three rewrites below read
    the left operand with [attr]; [_rewrite_predicate] only dispatches to
    them after it has read [predicate.left.source_connector]. *)
Definition rewrite_to_starts_with (predicate : Node C) : result (Node C) :=
  let ignore_case := value_is (value predicate) "ILike" in
  r <- attr (right predicate);;
  v <- drop_last (value r);;
  let r := set_value v r in
  let predicate := set_right (Some r) predicate in
  let predicate := set_node_type FUNCTION predicate in
  let predicate := set_value (PStr "STARTS_WITH") predicate in
  l <- attr (left predicate);;
  Ok (set_parameters [l; r; boolean_literal ignore_case] predicate).

Definition rewrite_to_ends_with (predicate : Node C) : result (Node C) :=
  let ignore_case := value_is (value predicate) "ILike" in
  r <- attr (right predicate);;
  v <- drop_first (value r);;
  let r := set_value v r in
  let predicate := set_right (Some r) predicate in
  let predicate := set_node_type FUNCTION predicate in
  let predicate := set_value (PStr "ENDS_WITH") predicate in
  l <- attr (left predicate);;
  Ok (set_parameters [l; r; boolean_literal ignore_case] predicate).

Definition rewrite_to_search (predicate : Node C) : result (Node C) :=
  let ignore_case := value_is (value predicate) "ILike" in
  r <- attr (right predicate);;
  v <- drop_both (value r);;
  let r := set_value v r in
  let predicate := set_right (Some r) predicate in
  let predicate := set_node_type FUNCTION predicate in
  let predicate := set_value (PStr "SEARCH") predicate in
  l <- attr (left predicate);;
  Ok (set_parameters [l; r; boolean_literal ignore_case] predicate).

Definition rewrite_in_to_eq (predicate : Node C) : result (Node C) :=
  operator <- subscript IN_REWRITES (value predicate);;
  let predicate := set_value operator predicate in
  r <- attr (right predicate);;
  v <- pop (value r);;
  let r := set_value v r in
  let r := set_type (type_or (sub_type r) VARCHAR) r in
  let r := set_sub_type NoType r in
  Ok (set_right (Some r) predicate).

(** [reorder_interval_calc] returns the rebuilt predicate when the left
    operand is a subtraction, and falls off its end ([None]) otherwise. *)
Definition reorder_interval_calc (predicate : Node C) :
    result (option (Node C)) :=
  l <- attr (left predicate);;
  let date_start := right l in
  let date_end := left l in
  let interval := right predicate in
  if value_is (value l) "Minus" then
    let new_binary_op :=
      set_right interval
        (set_left date_start
           (set_value (PStr "Plus") (new_node BINARY_OPERATOR))) in
    let binary_op_column_name := format_expression new_binary_op in
    let new_binary_op :=
      set_schema_column
        (Some (ExpressionColumn binary_op_column_name TIMESTAMP))
        new_binary_op in
    let predicate := set_node_type COMPARISON_OPERATOR predicate in
    let predicate := set_right (Some new_binary_op) predicate in
    let predicate := set_left date_end predicate in
    let predicate_column_name := format_expression predicate in
    Ok (Some (set_schema_column
                (Some (ExpressionColumn predicate_column_name BOOLEAN))
                predicate))
  else Ok None.

(** The rules of [_rewrite_predicate], last to first; each one either returns
    or falls through to the next. *)

Definition rule_interval (predicate : Node C) : result (option (Node C)) :=
  if bool_decide (node_type predicate = COMPARISON_OPERATOR) then
    l <- attr (left predicate);;
    if bool_decide (node_type l = BINARY_OPERATOR) then
      both <- and_then
                (t <- determine_type l;; Ok (bool_decide (t = Orso INTERVAL)))
                (r <- attr (right predicate);;
                 t <- determine_type r;; Ok (bool_decide (t = Orso INTERVAL)));;
      if both then reorder_interval_calc predicate else Ok (Some predicate)
    else Ok (Some predicate)
  else Ok (Some predicate).

Definition rule_in_list (predicate : Node C) : result (option (Node C)) :=
  member <- value_in (value predicate) ["InList"; "NotInList"];;
  if member then
    r <- attr (right predicate);;
    single <- and_then (Ok (bool_decide (node_type r = LITERAL)))
                (n <- len (value r);; Ok (Nat.eqb n 1));;
    if single then
      p <- rewrite_in_to_eq predicate;; Ok (Some p)
    else rule_interval predicate
  else rule_interval predicate.

Definition rule_any_op_eq (predicate : Node C) : result (option (Node C)) :=
  if value_is (value predicate) "AnyOpEq" then
    r <- attr (right predicate);;
    if bool_decide (node_type r = LITERAL)
    then rule_in_list (set_value (PStr "InList") predicate)
    else rule_in_list predicate
  else rule_in_list predicate.

(** The truth value of a connector set, and [s.isdisjoint({"Sql", "Cql"})]. *)
Definition truthy_set (s : option (gset string)) : bool :=
  match s with
  | Some s => bool_decide (s ≠ ∅)
  | None => false
  end.

Definition isdisjoint_sql_cql (s : option (gset string)) : bool :=
  match s with
  | Some s => bool_decide (s ## ({["Sql"; "Cql"]} : gset string))
  | None => false
  end.

Definition rule_like_function (predicate : Node C) :
    result (option (Node C)) :=
  member <- value_in (value predicate) ["Like"; "ILike"];;
  if member then
    l <- attr (left predicate);;
    if truthy_set (source_connector l)
       && isdisjoint_sql_cql (source_connector l) then
      r <- attr (right predicate);;
      if bool_decide (node_type r = LITERAL) then
        trailing <- and_then (last_is_percent (value r))
                      (n <- count_percent (value r);; Ok (Nat.eqb n 1));;
        if trailing then
          p <- rewrite_to_starts_with predicate;; Ok (Some p)
        else
          leading <- and_then (first_is_percent (value r))
                       (n <- count_percent (value r);; Ok (Nat.eqb n 1));;
          if leading then
            p <- rewrite_to_ends_with predicate;; Ok (Some p)
          else
            both <- and_then (first_is_percent (value r))
                      (and_then (last_is_percent (value r))
                         (n <- count_percent (value r);; Ok (Nat.eqb n 2)));;
            if both then
              p <- rewrite_to_search predicate;; Ok (Some p)
            else rule_any_op_eq predicate
      else rule_any_op_eq predicate
    else rule_any_op_eq predicate
  else rule_any_op_eq predicate.

Definition rule_like_to_eq (predicate : Node C) : result (option (Node C)) :=
  member <- value_in (value predicate) ["Like"; "NotLike"];;
  if member then
    r <- attr (right predicate);;
    percent <- contains "%" (value r);;
    plain <- (if negb percent
              then (underscore <- contains "_" (value r);;
                    Ok (negb underscore))
              else Ok false);;
    if plain then
      operator <- subscript LIKE_REWRITES (value predicate);;
      rule_like_function (set_value operator predicate)
    else rule_like_function predicate
  else rule_like_function predicate.

Definition rule_adjacent_wildcards (predicate : Node C) :
    result (option (Node C)) :=
  member <- value_in (value predicate)
              ["Like"; "ILike"; "NotLike"; "NotILike"];;
  if member then
    r <- attr (right predicate);;
    doubled <- contains "%%" (value r);;
    if doubled then
      p <- remove_adjacent_wildcards predicate;; rule_like_to_eq p
    else rule_like_to_eq predicate
  else rule_like_to_eq predicate.

(** [_rewrite_predicate].  The result is [None] when [reorder_interval_calc]
    returned nothing; a [None] operand met by the recursion is an
    [AttributeError] on its [node_type]. *)
Fixpoint _rewrite_predicate (predicate : Node C) : result (option (Node C)) :=
  if negb (node_type_in (node_type predicate)
             [BINARY_OPERATOR; COMPARISON_OPERATOR])
  then Ok (Some predicate)
  else
    predicate <-
      (if node_type_in (node_type predicate) [AND; OR; XOR] then
         l <- match left predicate with
              | Some l => _rewrite_predicate l
              | None => Raise AttributeError
              end;;
         r <- match right predicate with
              | Some r => _rewrite_predicate r
              | None => Raise AttributeError
              end;;
         Ok (set_right r (set_left l predicate))
       else Ok predicate);;
    rule_adjacent_wildcards predicate.

End Rewriter.
End PredicateRewriter.


(** ** Schemas and the object store ([orso.schema]) *)

Module Schema.

(** Column and relation-schema objects are mutable and shared between the
    schema environment and the nodes bound to them; a location names one. *)
Abbreviation loc := nat (only parsing).

Inductive ColumnKind : Type :=
| FlatColumn
| ConstantColumn
| FunctionColumn
| ExpressionColumn.

(** An entry of a column's [aliases] list: a name, or (the binder wraps the
    alias list of a column it re-creates in a new list) a list of entries. *)
Inductive AliasEntry : Type :=
| AliasName (name : string)
| AliasList (entries : list AliasEntry).

Record Column : Type := mkColumn {
  kind : ColumnKind;
  name : string;
  aliases : option (list AliasEntry);
  column_type : TypeTag;
  column_value : Payload (Node loc);
  column_identity : string;
  origin : list string;
  nullable : bool;
  binding : option nat
}.

Definition set_aliases (x : option (list AliasEntry)) (c : Column) : Column :=
  mkColumn (kind c) (name c) x (column_type c) (column_value c)
           (column_identity c) (origin c) (nullable c) (binding c).

Record RelationSchema : Type := mkRelationSchema {
  relation_name : string;
  columns : list loc
}.

(** The store: the column objects, the relation-schema objects, and how many
    random identities have been drawn so far. *)
Record Store : Type := mkStore {
  column_objects : list Column;
  relation_objects : list RelationSchema;
  drawn : nat
}.

(** A value held by a [dict] of schemas: a relation schema, or anything
    else.  [merge_schemas] tests which with [isinstance]. *)
Inductive Entry : Type :=
| SchemaRef (r : loc)
| Other (v : Atom).

(** A Python [dict] keyed by [str]: insertion ordered, keys unique. *)
Abbreviation dict V := (list (string * V)).

Fixpoint dict_get {V} (key : string) (d : dict V) : option V :=
  match d with
  | [] => None
  | (k, v) :: rest => if String.eqb k key then Some v else dict_get key rest
  end.

(** [d[key] = v]: replaces the value in place, or appends a new key. *)
Fixpoint dict_set {V} (key : string) (v : V) (d : dict V) : dict V :=
  match d with
  | [] => [(key, v)]
  | (k, v') :: rest =>
      if String.eqb k key then (k, v) :: rest
      else (k, v') :: dict_set key v rest
  end.

Definition keys {V} (d : dict V) : list string := map fst d.
Definition values {V} (d : dict V) : list V := map snd d.

(** The binding context: [schemas] is the environment; [connection] stands
    for the session handle, which the binder passes on untouched. *)
Record BindingContext : Type := mkBindingContext {
  schemas : dict Entry;
  connection : nat
}.

Definition set_schemas (x : dict Entry) (context : BindingContext) :
    BindingContext :=
  mkBindingContext x (connection context).

(** *** Computations over the store *)

Definition M (A : Type) : Type := Store -> result (A * Store).

Definition ret {A} (a : A) : M A := λ σ, Ok (a, σ).

Definition bind {A B} (m : M A) (k : A -> M B) : M B :=
  λ σ, match m σ with
       | Ok (a, σ') => k a σ'
       | Raise e => Raise e
       end.

Definition raise {A} (e : PyExn) : M A := λ _, Raise e.

Definition lift {A} (r : result A) : M A :=
  λ σ, match r with
       | Ok a => Ok (a, σ)
       | Raise e => Raise e
       end.

(** Reading and writing objects.  A location outside the store is reported as
    [InvalidReference]; no run of the Python code produces one. *)
Definition get_column (c : loc) : M Column :=
  λ σ, match column_objects σ !! c with
       | Some x => Ok (x, σ)
       | None => Raise InvalidReference
       end.

Definition put_column (c : loc) (x : Column) : M unit :=
  λ σ, match column_objects σ !! c with
       | Some _ =>
           Ok (tt, mkStore (<[c := x]> (column_objects σ))
                           (relation_objects σ) (drawn σ))
       | None => Raise InvalidReference
       end.

Definition new_column (x : Column) : M loc :=
  λ σ, Ok (length (column_objects σ),
           mkStore (column_objects σ ++ [x]) (relation_objects σ) (drawn σ)).

Definition get_relation (r : loc) : M RelationSchema :=
  λ σ, match relation_objects σ !! r with
       | Some x => Ok (x, σ)
       | None => Raise InvalidReference
       end.

Definition put_relation (r : loc) (x : RelationSchema) : M unit :=
  λ σ, match relation_objects σ !! r with
       | Some _ =>
           Ok (tt, mkStore (column_objects σ)
                           (<[r := x]> (relation_objects σ)) (drawn σ))
       | None => Raise InvalidReference
       end.

Definition new_relation (x : RelationSchema) : M loc :=
  λ σ, Ok (length (relation_objects σ),
           mkStore (column_objects σ) (relation_objects σ ++ [x]) (drawn σ)).

End Schema.

Export Schema.

Declare Scope store_scope.
Delimit Scope store_scope with store.
Notation "x <- m ;; k" := (Schema.bind m (fun x => k))
  (at level 20, m at level 99, k at level 200, only parsing) : store_scope.
Notation "' pat <- m ;; k" :=
  (Schema.bind m (fun x => match x with pat => k end))
  (at level 20, pat pattern, m at level 99, k at level 200, only parsing)
  : store_scope.


(** ** Operations of the schema library

    [orso] is a library the engine depends on.  Its operations are modelled
    from what the specification says about schemas and columns (sections 3.2
    and 4.2.1): [all_names] is the name followed by the aliases, a column is
    found by a name when the name is among its [all_names], and adding two
    schemas is the union of their columns by identity. *)

Module Orso.
Local Open Scope store_scope.

(** [column.all_names]. *)
Definition all_names (c : Column) : list AliasEntry :=
  AliasName (name c) :: default [] (aliases c).

(** [text in column.all_names], for an optional [str]: an entry that is a
    list equals no [str], and [None] equals no entry. *)
Definition entry_is (text : string) (e : AliasEntry) : bool :=
  match e with
  | AliasName s => String.eqb s text
  | AliasList _ => false
  end.

Definition known_as (text : option string) (c : Column) : bool :=
  match text with
  | Some text => existsb (entry_is text) (all_names c)
  | None => false
  end.

(** [schema.find_column(text)] over the column objects of the schema: the
    first column known by that name, or [None]. *)
Fixpoint find_among (text : option string) (cs : list loc) : M (option loc) :=
  match cs with
  | [] => ret None
  | c :: rest =>
      x <- get_column c;;
      if known_as text x then ret (Some c) else find_among text rest
  end.

Definition find_column (schema : loc) (text : option string) :
    M (option loc) :=
  s <- get_relation schema;;
  find_among text (columns s).

(** [schema.all_column_names()]. *)
Fixpoint names_of (es : list AliasEntry) : list string :=
  match es with
  | [] => []
  | AliasName s :: rest => s :: names_of rest
  | AliasList _ :: rest => names_of rest
  end.

Fixpoint all_column_names_among (cs : list loc) : M (list string) :=
  match cs with
  | [] => ret []
  | c :: rest =>
      x <- get_column c;;
      others <- all_column_names_among rest;;
      ret (names_of (all_names x) ++ others)
  end.

Definition all_column_names (schema : loc) : M (list string) :=
  s <- get_relation schema;;
  all_column_names_among (columns s).

(** The identities of a list of column objects. *)
Fixpoint identities (cs : list loc) : M (list string) :=
  match cs with
  | [] => ret []
  | c :: rest =>
      x <- get_column c;;
      others <- identities rest;;
      ret (column_identity x :: others)
  end.

(** The columns of [cs] whose identity is not in [seen]. *)
Fixpoint unseen (seen : list string) (cs : list loc) : M (list loc) :=
  match cs with
  | [] => ret []
  | c :: rest =>
      x <- get_column c;;
      if bool_decide (column_identity x ∈ seen) then unseen seen rest
      else
        others <- unseen (seen ++ [column_identity x]) rest;;
        ret (c :: others)
  end.

(** [a + b] on relation schemas: a new schema object named like [a] whose
    columns are those of [a] followed by the columns of [b] with an identity
    not met before.  The column objects themselves are shared. *)
Definition add (a b : loc) : M loc :=
  sa <- get_relation a;;
  sb <- get_relation b;;
  seen <- identities (columns sa);;
  extra <- unseen seen (columns sb);;
  new_relation (mkRelationSchema (relation_name sa) (columns sa ++ extra)).

(** [copy.deepcopy(schema)]: a new schema object over new column objects.
    One call keeps a memo, so a column object listed twice is copied once.
    The copy goes down to the column objects and their alias lists; a column
    payload is copied as the value it is. *)
Fixpoint copy_columns (memo : list (loc * loc)) (cs : list loc) :
    M (list loc) :=
  match cs with
  | [] => ret []
  | c :: rest =>
      match list_find (λ m, fst m = c) memo with
      | Some (_, (_, c')) =>
          others <- copy_columns memo rest;;
          ret (c' :: others)
      | None =>
          x <- get_column c;;
          c' <- new_column x;;
          others <- copy_columns ((c, c') :: memo) rest;;
          ret (c' :: others)
      end
  end.

Definition deepcopy_schema (schema : loc) : M loc :=
  s <- get_relation schema;;
  cs <- copy_columns [] (columns s);;
  new_relation (mkRelationSchema (relation_name s) cs).

Definition deepcopy (value : Entry) : M Entry :=
  match value with
  | SchemaRef r => r' <- deepcopy_schema r;; ret (SchemaRef r')
  | Other v => ret (Other v)
  end.

(** [schema.columns.append(c)]. *)
Definition append_column (schema c : loc) : M unit :=
  s <- get_relation schema;;
  put_relation schema (mkRelationSchema (relation_name s) (columns s ++ [c])).

End Orso.


(** ** The binder ([binder.py]) *)

Module Binder.
Import Orso.

(** [hex(z)]: the sign, ["0x"], and the lower-case digits. *)
Definition hex (z : Z) : string :=
  (if Z.ltb z 0 then "-0x" else "0x")
  +:+ HexadecimalString.NilZero.string_of_uint (N.to_hex_uint (Z.abs_N z)).

(** [s[2:]]. *)
Definition drop_two (s : string) : string :=
  str_drop_first (str_drop_first s).

(** [str(x)] for an optional [str]. *)
Definition str_of_optional (s : option string) : string :=
  match s with
  | Some s => s
  | None => "None"
  end.

Section Binder.
Local Open Scope store_scope.

(** What the binder takes from outside this file: the 64-bit hash
    [orso.cityhash.CityHash64]; [format_expression(node, True)]; Python's
    [str] on a node payload; the registry [COMBINED_FUNCTIONS]; the two uses
    of [suggest_alternative]; the session variables
    ([connection.variables.as_column]); and the identities that the schema
    library draws at random for a column created without one. *)
Variable CityHash64 : string -> Z.
Variable format_expression : Node loc -> string.
Variable py_str : Payload (Node loc) -> string.
Variable COMBINED_FUNCTIONS : string -> option nat.
Variable suggest_function : Payload (Node loc) -> option string.
Variable suggest_alternative : option string -> list string -> option string.
Variable as_column : nat -> Payload (Node loc) -> result Column.
Variable random_string : nat -> string.

(** The identity of the column object at [c]; [""] outside the store. *)
Definition identity_at (σ : Store) (c : loc) : string :=
  match column_objects σ !! c with
  | Some x => column_identity x
  | None => ""
  end.

(** [inner] of [hash_tree].  A node object is true; a parameter list is true
    when it is not empty. *)
Fixpoint inner (σ : Store) (node : Node loc) : Z :=
  let _hash := 0%Z in
  let _hash :=
    match left node with
    | Some l => Z.lxor _hash (inner σ l)
    | None => _hash
    end in
  let _hash :=
    match right node with
    | Some r => Z.lxor _hash (inner σ r)
    | None => _hash
    end in
  let _hash :=
    match centre node with
    | Some c => Z.lxor _hash (inner σ c)
    | None => _hash
    end in
  let _hash :=
    fold_left (λ h parameter, Z.lxor h (inner σ parameter))
      (parameters node) _hash in
  if Z.eqb _hash 0 then
    match identity node with
    | Some i => CityHash64 i
    | None =>
        match schema_column node with
        | Some c => CityHash64 (identity_at σ c)
        | None =>
            match value node with
            | PNone =>
                if bool_decide (node_type node = WILDCARD)
                then CityHash64 (str_of_optional (source node) +:+ "*")
                else _hash
            | v => CityHash64 (py_str v)
            end
        end
    end
  else _hash.

Definition hash_tree (σ : Store) (node : Node loc) : string :=
  let _hash := Z.lxor (CityHash64 (format_expression node)) (inner σ node) in
  drop_two (hex _hash).


(** *** [merge_schemas] *)

(** An argument of [merge_schemas]: a [dict], or something else. *)
Inductive MergeArgument : Type :=
| ADict (d : dict Entry)
| NotADict.

(** [merged_dict[key] += value], where [value] is a relation schema.  An
    existing value that is not a schema cannot be added to. *)
Definition add_to (existing : Entry) (value : loc) : M Entry :=
  match existing with
  | SchemaRef e => r <- Orso.add e value;; ret (SchemaRef r)
  | Other _ => raise TypeError
  end.

(** The inner loop, [for key, value in dic.items()]. *)
Fixpoint merge_items (items : list (string * Entry)) (merged_dict : dict Entry) :
    M (dict Entry) :=
  match items with
  | [] => ret merged_dict
  | (key, value) :: rest =>
      match dict_get key merged_dict with
      | Some existing =>
          match value with
          | SchemaRef r =>
              sum <- add_to existing r;;
              merge_items rest (dict_set key sum merged_dict)
          | Other _ =>
              raise (InvalidInternalStateError
                       "Internal Error - merge_schemas expects schemas")
          end
      | None =>
          copy <- deepcopy value;;
          merge_items rest (dict_set key copy merged_dict)
      end
  end.

(** The outer loop, [for dic in schemas]. *)
Fixpoint merge_dicts (arguments : list MergeArgument) (merged_dict : dict Entry) :
    M (dict Entry) :=
  match arguments with
  | [] => ret merged_dict
  | NotADict :: _ =>
      raise (InvalidInternalStateError
               "Internal Error - merge_schemas expected dicts")
  | ADict dic :: rest =>
      merged_dict <- merge_items dic merged_dict;;
      merge_dicts rest merged_dict
  end.

Definition merge_schemas (arguments : list MergeArgument) : M (dict Entry) :=
  merge_dicts arguments [].

(** *** Identifier resolution *)

(** [schema.f(...)] on a value of the environment: only a relation schema
    has the attributes the binder reads. *)
Definition as_schema (e : Entry) : M loc :=
  match e with
  | SchemaRef r => ret r
  | Other _ => raise AttributeError
  end.

(** The loop of [locate_identifier_in_loaded_schemas], with its two
    variables.  Column and schema objects are true. *)
Fixpoint locate_loop (value : option string) (entries : list Entry)
    (column found_source_relation : option loc) :
    M (option loc * option loc) :=
  match entries with
  | [] => ret (column, found_source_relation)
  | e :: rest =>
      schema <- as_schema e;;
      found <- find_column schema value;;
      match found with
      | Some c =>
          if truthy_object column && truthy_object found_source_relation
          then raise (AmbiguousIdentifierError value)
          else locate_loop value rest (Some c) (Some schema)
      | None => locate_loop value rest column found_source_relation
      end
  end.

Definition locate_identifier_in_loaded_schemas (value : option string)
    (schemas : dict Entry) : M (option loc * option loc) :=
  locate_loop value (values schemas) None None.

(** [name.startswith("$shared") or name == node.source]. *)
Definition is_candidate (source : option string) (name : string) : bool :=
  startswith "$shared" name
  || match source with
     | Some s => String.eqb name s
     | None => false
     end.

Definition candidates (source : option string) (schemas : dict Entry) :
    dict Entry :=
  if truthy_str source
  then filter (λ kv, is_candidate source (fst kv) = true) schemas
  else schemas.

(** [node.current_name[0] == "@"]. *)
Definition is_variable_name (current_name : option string) : result bool :=
  match current_name with
  | None => Raise TypeError
  | Some s =>
      match str_first s with
      | Some a => Ok (Ascii.eqb a "@")
      | None => Raise IndexError
      end
  end.

(** [d["$derived"]], as a schema. *)
Definition derived (d : dict Entry) : M loc :=
  match dict_get "$derived" d with
  | Some e => as_schema e
  | None => raise (KeyError "$derived")
  end.

(** [create_variable_node]. *)
Definition create_variable_node (node : Node loc) (context : BindingContext) :
    M (Node loc) :=
  x <- lift (as_column (connection context) (value node));;
  schema_column <- new_column x;;
  ret (set_value (column_value x)
         (set_type (column_type x)
            (set_schema_column (Some schema_column) (new_node LITERAL)))).

(** The names offered to [suggest_alternative]. *)
Fixpoint candidate_column_names (entries : list Entry) : M (list string) :=
  match entries with
  | [] => ret []
  | e :: rest =>
      schema <- as_schema e;;
      names <- all_column_names schema;;
      others <- candidate_column_names rest;;
      ret (names ++ others)
  end.

Definition locate_identifier (node : Node loc) (context : BindingContext) :
    M (Node loc * BindingContext) :=
  let candidate_schemas := candidates (source node) (schemas context) in
  match candidate_schemas with
  | [] => raise (UnexpectedDatasetReferenceError (source node))
  | _ =>
      '(column, found_source_relation) <-
        locate_identifier_in_loaded_schemas (source_column node)
          candidate_schemas;;
      match column with
      | None =>
          variable <- lift (is_variable_name (current_name node));;
          if variable then
            node <- create_variable_node node context;;
            d <- derived (schemas context);;
            c <- lift (attr (schema_column node));;
            _ <- append_column d c;;
            ret (node, context)
          else
            names <- candidate_column_names (values candidate_schemas);;
            raise (ColumnNotFoundError
                     (match value node with PStr s => Some s | _ => None end)
                     (suggest_alternative (source_column node) names))
      | Some column =>
          variable <- lift (is_variable_name (current_name node));;
          x <- get_column column;;
          if variable then
            ret (set_value (column_value x)
                   (set_type (column_type x)
                      (set_schema_column (Some column) (new_node LITERAL))),
                 context)
          else
            node <-
              (if truthy_str (source node) then ret node
               else
                 r <- lift (attr found_source_relation);;
                 s <- get_relation r;;
                 ret (set_source (Some (relation_name s)) node));;
            _ <-
              (if truthy_str (alias node)
                  && negb (known_as (alias node) x)
               then
                 match aliases x with
                 | Some names =>
                     put_column column
                       (set_aliases
                          (Some (names
                                 ++ [AliasName (default "" (alias node))]))
                          x)
                 | None => raise AttributeError
                 end
               else ret tt);;
            let node := set_schema_column (Some column) node in
            match origin x with
            | [o] => ret (set_source (Some o) node, context)
            | _ => ret (node, context)
            end
      end
  end.


(** *** [inner_binder] and [traversive_recursive_bind] *)

Definition snapshot : M Store := λ σ, Ok (σ, σ).

(** The identity of a column created without one. *)
Definition draw_identity : M string :=
  λ σ, Ok (random_string (drawn σ),
           mkStore (column_objects σ) (relation_objects σ) (S (drawn σ))).

(** [[node.alias] if node.alias else []] and [node.alias or column_name]. *)
Definition alias_list (node : Node loc) : list AliasEntry :=
  if truthy_str (alias node) then [AliasName (default "" (alias node))]
  else [].

Definition alias_or (node : Node loc) (column_name : string) : option string :=
  Some (str_or (alias node) column_name).

(** [COMBINED_FUNCTIONS.get(node.value)]: the key is hashed first. *)
Definition registry_get (v : Payload (Node loc)) : result (option nat) :=
  match v with
  | PStr s => Ok (COMBINED_FUNCTIONS s)
  | PList _ | PNodes _ => Raise TypeError
  | _ => Ok None
  end.

(** The generator [inner_binder(n, context) for n in nodes], unzipped: the
    nodes are bound one after the other.  Every call returns the one context object, so the
    contexts collected are that object, as it is after the last call. *)
Fixpoint bind_each
    (binder : Node loc -> BindingContext -> M (Node loc * BindingContext))
    (nodes : list (Node loc)) (context : BindingContext) :
    M (list (Node loc) * BindingContext) :=
  match nodes with
  | [] => ret ([], context)
  | n :: rest =>
      '(n, context) <- binder n context;;
      '(rest, context) <- bind_each binder rest context;;
      ret (n :: rest, context)
  end.

(** [merge_schemas] applied to [ctx.schemas] for each [ctx] of
    [new_contexts]. *)
Definition merge_contexts (bound : list (Node loc)) (context : BindingContext) :
    M (dict Entry) :=
  merge_schemas (map (λ _, ADict (schemas context)) bound).

Definition traversive_recursive_bind
    (binder : Node loc -> BindingContext -> M (Node loc * BindingContext))
    (node : Node loc) (context : BindingContext) :
    M (Node loc * BindingContext) :=
  '(node, context) <-
    match left node with
    | Some l =>
        '(l, context) <- binder l context;;
        ret (set_left (Some l) node, context)
    | None => ret (node, context)
    end;;
  '(node, context) <-
    match right node with
    | Some r =>
        '(r, context) <- binder r context;;
        ret (set_right (Some r) node, context)
    | None => ret (node, context)
    end;;
  '(node, context) <-
    match centre node with
    | Some c =>
        '(c, context) <- binder c context;;
        ret (set_centre (Some c) node, context)
    | None => ret (node, context)
    end;;
  match parameters node with
  | [] => ret (node, context)
  | ps =>
      '(ps, context) <- bind_each binder ps context;;
      merged_schemas <- merge_contexts ps context;;
      ret (set_parameters ps node, set_schemas merged_schemas context)
  end.

(** The members of an EXPRESSION_LIST are bound like parameters.  Unpacking
    the empty [zip] is a [ValueError]; a payload that is not a collection of
    nodes fails when it is iterated or when a member is read as a node. *)
Definition bind_expression_list
    (binder : Node loc -> BindingContext -> M (Node loc * BindingContext))
    (node : Node loc) (context : BindingContext) :
    M (Node loc * BindingContext) :=
  match value node with
  | PNodes [] | PList [] | PStr EmptyString => raise ValueError
  | PNodes members =>
      '(members, context) <- bind_each binder members context;;
      merged_schemas <- merge_contexts members context;;
      ret (set_value (PNodes members) node, set_schemas merged_schemas context)
  | PList _ | PStr _ => raise AttributeError
  | _ => raise TypeError
  end.

(** The loop over [context.schemas.values()] that looks for a column already
    known by the name of the node. *)
Fixpoint find_in_schemas (column_name : string) (entries : list Entry) :
    M (option loc) :=
  match entries with
  | [] => ret None
  | e :: rest =>
      schema <- as_schema e;;
      found_column <- find_column schema (Some column_name);;
      match found_column with
      | Some c => ret (Some c)
      | None => find_in_schemas column_name rest
      end
  end.

(** [[col for col in columns if col.identity != identity]]. *)
Fixpoint without_identity (identity : string) (cs : list loc) : M (list loc) :=
  match cs with
  | [] => ret []
  | c :: rest =>
      x <- get_column c;;
      others <- without_identity identity rest;;
      if String.eqb (column_identity x) identity then ret others
      else ret (c :: others)
  end.

(** The last part of [inner_binder]: the column of the node we are at.
    [schemas] is the environment as it was before the operands were bound. *)
Definition bind_this_node (node_type : NodeType) (column_name : string)
    (schemas : dict Entry) (node : Node loc) (context : BindingContext) :
    M (Node loc * BindingContext) :=
  if bool_decide (node_type = LITERAL) then
    identity <- draw_identity;;
    schema_column <-
      new_column (mkColumn ConstantColumn column_name (Some (alias_list node))
                    (type node) (value node) identity [] false None);;
    d <- derived schemas;;
    _ <- append_column d schema_column;;
    let node := set_schema_column (Some schema_column) node in
    let node := set_query_column (alias_or node column_name) node in
    ret (node, set_schemas schemas context)
  else if negb (bool_decide (node_type = SUBQUERY))
          && negb (do_not_create_column node) then
    d <- derived schemas;;
    found <- find_column d (Some column_name);;
    match found with
    | Some old =>
        x <- get_column old;;
        schema_column <-
          new_column
            (mkColumn FlatColumn column_name
               (match aliases x with
                | Some (e :: es) => Some [AliasList (e :: es)]
                | _ => None
                end)
               Zero PNone (column_identity x) [] true None);;
        s <- get_relation d;;
        kept <- without_identity (column_identity x) (columns s);;
        _ <- put_relation d (mkRelationSchema (relation_name s) kept);;
        _ <- append_column d schema_column;;
        let node := set_schema_column (Some schema_column) node in
        let node := set_query_column (alias_or node column_name) node in
        let node := set_node_type EVALUATED node in
        ret (node, context)
    | None =>
        if node_type_in node_type [FUNCTION; AGGREGATOR] then
          func <- lift (registry_get (value node));;
          match func with
          | None =>
              raise (FunctionNotFoundError
                       (match value node with PStr s => Some s | _ => None end)
                       (suggest_function (value node)))
          | Some f =>
              σ <- snapshot;;
              let identity := hash_tree σ node in
              schema_column <-
                new_column
                  (mkColumn FunctionColumn column_name
                     (Some (alias_list node)) Zero PNone identity [] true
                     (Some f));;
              d <- derived schemas;;
              _ <- append_column d schema_column;;
              let node := set_function (Some f) node in
              let node := set_derived_from (Some []) node in
              let node := set_schema_column (Some schema_column) node in
              let node := set_query_column (alias_or node column_name) node in
              ret (node, set_schemas schemas context)
          end
        else
          σ <- snapshot;;
          let identity := hash_tree σ node in
          schema_column <-
            new_column
              (mkColumn ExpressionColumn column_name (Some (alias_list node))
                 Zero (value node) identity [] true None);;
          d <- derived schemas;;
          _ <- append_column d schema_column;;
          let node := set_schema_column (Some schema_column) node in
          let node := set_query_column (alias_or node column_name) node in
          ret (node, set_schemas schemas context)
    end
  else ret (node, set_schemas schemas context).

(** [inner_binder].  [fuel] bounds the depth of the recursion, as the
    interpreter's recursion limit does. *)
Fixpoint inner_binder (fuel : nat) (node : Node loc) (context : BindingContext) :
    M (Node loc * BindingContext) :=
  match fuel with
  | 0 => raise RecursionError
  | S fuel =>
      let node_type := node_type node in
      if truthy_object (schema_column node) then ret (node, context)
      else if node_type_in node_type [IDENTIFIER; EVALUATED] then
        locate_identifier node context
      else
        '(node, context) <-
          (if bool_decide (node_type = EXPRESSION_LIST)
           then bind_expression_list (inner_binder fuel) node context
           else ret (node, context));;
        let column_name :=
          str_or (query_column node) (format_expression node) in
        found_column <- find_in_schemas column_name (values (schemas context));;
        match found_column with
        | Some c =>
            let node := set_schema_column (Some c) node in
            let node := set_query_column (alias_or node column_name) node in
            ret (node, context)
        | None =>
            let schemas := schemas context in
            '(node, context) <-
              traversive_recursive_bind (inner_binder fuel) node context;;
            bind_this_node node_type column_name schemas node context
        end
  end.

End Binder.
End Binder.


(** ** The asynchronous scan ([async_read_node.py]) *)

Module AsyncReader.

(** Exceptions raised while a blob is processed: their class and [str].  The
    classes are [pyarrow.ArrowInvalid], the engine's [DataError], and any
    other class derived from [Exception]. *)
Inductive ErrorClass : Type :=
| ArrowInvalid
| DataError
| OtherError (class_name : string).

#[global] Instance ErrorClass_eq_dec : EqDecision ErrorClass.
Proof. solve_decision. Defined.

Record Thrown : Type := mkThrown {
  error_class : ErrorClass;
  message : string
}.

Inductive attempt (A : Type) : Type :=
| Returned (a : A)
| Threw (e : Thrown).
Arguments Returned {A} a.
Arguments Threw {A} e.

(** A column of the relation schema, as far as the scan reads it. *)
Record OrsoColumn : Type := mkOrsoColumn {
  column_name : string;
  identity : string
}.

(** The counters and the message log of [self.statistics]; the time counters
    depend on the clock and are left out. *)
Record Statistics : Type := mkStatistics {
  columns_read : nat;
  stalls_reading_from_read_buffer : nat;
  rows_seen : nat;
  blobs_read : nat;
  rows_read : nat;
  failed_reads : nat;
  empty_datasets : nat;
  messages : list string
}.

(** What the consumer finds when it polls the reply queue: nothing within the
    timeout, a blob that was read, or the end marker [None]. *)
Inductive QueueEvent (Reference : Type) : Type :=
| Timeout
| Item (blob_name : string) (reference : Reference)
| EndMarker.
Arguments Timeout {Reference}.
Arguments Item {Reference} blob_name reference.
Arguments EndMarker {Reference}.

Section Scan.

(** Tables, Arrow schemas, pool references and raw bytes are values of the
    libraries the scan uses; so are the operations on them.  An Arrow schema
    is true when it has a field. *)
Context {Table Field Reference Bytes Decoder : Type}.
Variable num_rows : Table -> nat.
Variable nbytes : Table -> nat.
Variable schema_of : Table -> list Field.
Variable cast : Table -> list Field -> attempt Table.
Variable struct_to_jsonb : Table -> attempt Table.
Variable normalize_morsel : list OrsoColumn -> Table -> attempt Table.
Variable get_decoder : string -> attempt Decoder.
Variable read_and_release : Reference -> attempt Bytes.
Variable decode : Decoder -> Bytes -> attempt (nat * Table).

(** [DataFrame(rows=[], schema=s).arrow()] with its columns renamed to the
    identities, and the empty table over the converted Arrow schema. *)
Variable empty_dataframe : list OrsoColumn -> Table.
Variable empty_table : list OrsoColumn -> Table.

(** Whether [DataError] derives from [Exception] (the class is declared in
    [opteryx.exceptions]). *)
Variable data_error_is_exception : bool.

(** What [except Exception] catches. *)
Definition is_exception (e : Thrown) : bool :=
  match error_class e with
  | DataError => data_error_is_exception
  | _ => true
  end.

(** The state of one [execute]: the statistics, the counters of the node, the
    waits charged to [system_statistics], the warnings issued, and the two
    local variables [morsel] and [arrow_schema]. *)
Record State : Type := mkState {
  statistics : Statistics;
  records_out : nat;
  bytes_out : nat;
  io_waits : nat;
  warnings : list string;
  morsel : option Table;
  arrow_schema : option (list Field)
}.

Definition with_statistics (f : Statistics -> Statistics) (st : State) : State :=
  mkState (f (statistics st)) (records_out st) (bytes_out st) (io_waits st)
          (warnings st) (morsel st) (arrow_schema st).

Definition with_morsel (m : Table) (st : State) : State :=
  mkState (statistics st) (records_out st) (bytes_out st) (io_waits st)
          (warnings st) (Some m) (arrow_schema st).

Definition with_arrow_schema (s : list Field) (st : State) : State :=
  mkState (statistics st) (records_out st) (bytes_out st) (io_waits st)
          (warnings st) (morsel st) (Some s).

Definition stall (s : Statistics) : Statistics :=
  mkStatistics (columns_read s) (S (stalls_reading_from_read_buffer s))
               (rows_seen s) (blobs_read s) (rows_read s) (failed_reads s)
               (empty_datasets s) (messages s).

Definition saw_rows (n : nat) (s : Statistics) : Statistics :=
  mkStatistics (columns_read s) (stalls_reading_from_read_buffer s)
               (rows_seen s + n) (blobs_read s) (rows_read s) (failed_reads s)
               (empty_datasets s) (messages s).

Definition read_blob (n : nat) (s : Statistics) : Statistics :=
  mkStatistics (columns_read s) (stalls_reading_from_read_buffer s)
               (rows_seen s) (S (blobs_read s)) (rows_read s + n)
               (failed_reads s) (empty_datasets s) (messages s).

Definition failed_read (text : string) (s : Statistics) : Statistics :=
  mkStatistics (columns_read s) (stalls_reading_from_read_buffer s)
               (rows_seen s) (blobs_read s) (rows_read s) (S (failed_reads s))
               (empty_datasets s) (messages s ++ [text]).

Definition empty_dataset (s : Statistics) : Statistics :=
  mkStatistics (columns_read s) (stalls_reading_from_read_buffer s)
               (rows_seen s) (blobs_read s) (rows_read s) (failed_reads s)
               (S (empty_datasets s)) (messages s).

(** The queue was empty: one more stall, one more wait of a tenth of a
    second. *)
Definition waited (st : State) : State :=
  mkState (stall (statistics st)) (records_out st) (bytes_out st)
          (S (io_waits st)) (warnings st) (morsel st) (arrow_schema st).

(** The body of a [try], up to the first exception: the state reached, and
    the morsel yielded or the exception. *)
Inductive Body : Type :=
| Yielded (st : State) (m : Table)
| Failed (st : State) (e : Thrown).

(** The two [DataError]s of the inner handler. *)
Definition schema_drift (blob_name : string) : Thrown :=
  mkThrown DataError
    ("Unable to read blob " +:+ blob_name
     +:+ " - this error is likely caused by a blob having an significantly different schema to previously handled blobs, or the data catalog.").

Definition unreadable (blob_name : string) (err : Thrown) : Thrown :=
  mkThrown DataError
    ("Unable to read blob " +:+ blob_name +:+ " - error " +:+ message err).

(** The inner [try]: the bytes are taken from the pool and decoded; an
    exception is replaced by a [DataError]. *)
Definition read_and_decode (blob_name : string) (reference : Reference)
    (decoder : Decoder) : attempt (nat * Table) :=
  let decoded :=
    match read_and_release reference with
    | Returned blob_bytes => decode decoder blob_bytes
    | Threw err => Threw err
    end in
  match decoded with
  | Returned d => Returned d
  | Threw err =>
      if is_exception err then
        if bool_decide (error_class err = ArrowInvalid)
           && str_contains "No match for" (message err)
        then Threw (schema_drift blob_name)
        else Threw (unreadable blob_name err)
      else Threw err
  end.

(** The outer [try], up to its [yield]. *)
Definition try_blob (orso_schema : list OrsoColumn) (blob_name : string)
    (reference : Reference) (decoder : Decoder) (st : State) : Body :=
  match read_and_decode blob_name reference decoder with
  | Threw err => Failed st err
  | Returned (n, m) =>
      let st := with_morsel m st in
      let st := with_statistics (saw_rows n) st in
      match struct_to_jsonb m with
      | Threw err => Failed st err
      | Returned m =>
          let st := with_morsel m st in
          match normalize_morsel orso_schema m with
          | Threw err => Failed st err
          | Returned m =>
              let st := with_morsel m st in
              let aligned :=
                match arrow_schema st with
                | Some (f :: fs) =>
                    match cast m (f :: fs) with
                    | Returned m => Returned (with_morsel m st, m)
                    | Threw err => Threw err
                    end
                | _ => Returned (with_arrow_schema (schema_of m) st, m)
                end in
              match aligned with
              | Threw err => Failed st err
              | Returned (st, m) =>
                  let st := with_statistics (read_blob (num_rows m)) st in
                  let st :=
                    mkState (statistics st) (records_out st + num_rows m)
                            (bytes_out st + nbytes m) (io_waits st)
                            (warnings st) (morsel st) (arrow_schema st) in
                  Yielded st m
              end
          end
      end
  end.

(** One blob: what is yielded and the state to go on with, or the exception
    that leaves [execute]. *)
Inductive Step : Type :=
| Continue (st : State) (yielded : list Table)
| Escaped (st : State) (e : Thrown).

Definition process (orso_schema : list OrsoColumn) (blob_name : string)
    (reference : Reference) (decoder : Decoder) (st : State) : Step :=
  match try_blob orso_schema blob_name reference decoder st with
  | Yielded st m => Continue st [m]
  | Failed st err =>
      if is_exception err then
        let st :=
          with_statistics (failed_read ("failed to read " +:+ blob_name)) st in
        Continue
          (mkState (statistics st) (records_out st) (bytes_out st)
                   (io_waits st)
                   (warnings st
                    ++ ["failed to read " +:+ blob_name +:+ " - "
                        +:+ message err])
                   (morsel st) (arrow_schema st))
          []
      else Escaped st err
  end.

(** How a run of [execute] ends: it returns, it is still polling the queue
    when the events listed are used up, or an exception leaves it. *)
Inductive Outcome : Type :=
| Finished
| Polling
| Raised (e : Thrown).

Record Run : Type := mkRun {
  yielded : list Table;
  final : State;
  outcome : Outcome
}.

(** After the loop: the fallback for a scan whose [morsel] is still [None]. *)
Definition finish (orso_schema : list OrsoColumn) (st : State)
    (out : list Table) : Run :=
  match morsel st with
  | None =>
      mkRun (out ++ [empty_table orso_schema])
            (with_statistics empty_dataset st) Finished
  | Some _ => mkRun out st Finished
  end.

(** The loop [while True], over what the queue delivers. *)
Fixpoint poll (orso_schema : list OrsoColumn)
    (events : list (QueueEvent Reference)) (st : State) (out : list Table) :
    Run :=
  match events with
  | [] => mkRun out st Polling
  | Timeout :: rest => poll orso_schema rest (waited st) out
  | EndMarker :: _ => finish orso_schema st out
  | Item blob_name reference :: rest =>
      match get_decoder blob_name with
      | Threw err => mkRun out st (Raised err)
      | Returned decoder =>
          match process orso_schema blob_name reference decoder st with
          | Continue st more => poll orso_schema rest st (out ++ more)
          | Escaped st err => mkRun out st (Raised err)
          end
      end
  end.

(** [execute].  [schema] is the relation schema, [projected] the identities
    of the columns of the node, [blob_names] what the partition scheme
    listed, and [events] what the reply queue delivers to the loop. *)
Definition execute (schema : list OrsoColumn) (projected : list string)
    (blob_names : list string) (events : list (QueueEvent Reference)) : Run :=
  let orso_schema :=
    filter (λ col, identity col ∈ projected) schema in
  let st :=
    mkState (mkStatistics (length orso_schema) 0 0 0 0 0 0 []) 0 0 0 [] None
            None in
  let out :=
    match blob_names with
    | [] => [empty_dataframe orso_schema]
    | _ => []
    end in
  poll orso_schema events st out.

End Scan.

(** What the reader thread puts on the queue when every read succeeds: one
    item for each blob listed, in the order the reads complete, and then the
    end marker.  The consumer may meet any number of timeouts in between. *)
Definition is_timeout {Reference : Type} (ev : QueueEvent Reference) : bool :=
  match ev with
  | Timeout => true
  | _ => false
  end.

Definition served {Reference : Type} (reference_of : string -> Reference)
    (blob_names : list string) (events : list (QueueEvent Reference)) : Prop :=
  ∃ arrival,
    arrival ≡ₚ blob_names
    /\ List.filter (λ ev, negb (is_timeout ev)) events
       = map (λ b, Item b (reference_of b)) arrival ++ [EndMarker].

End AsyncReader.


(** ** The single-key hash inner join ([inner_join_node_single.py]) *)

Module InnerJoinSingle.
Local Open Scope py_scope.

(** Modelled from the spec: the hash table of [opteryx.compiled.structures]
    is not in src.  Section 4.6 says that it "maps key → list of row indices
    (multi-map)" and that "within a single probe key, left indices follow
    their insertion order"; a key that was never inserted has no rows. *)
Definition HashTable : Type := gmap Z (list nat).

Definition insert (key : Z) (row_id : nat) (ht : HashTable) : HashTable :=
  <[key := default [] (ht !! key) ++ [row_id]]> ht.

Definition get (key : Z) (ht : HashTable) : list nat := default [] (ht !! key).

(** The type and the buffers of the key column: the value slots of an
    integer column; for a fixed-size binary or floating column, which of the
    two it is ([is_floating(array.type)]), the bit width and the data buffer
    (bytes); the values (bytes) of a binary or string column. *)
Inductive ArrayData : Type :=
| IntegerData (values : list Z)
| FixedWidthData (floating : bool) (bit_width : nat) (data_buffer : list Z)
| VariableData (values : list (list Z))
| UnsupportedData.

(** A contiguous Arrow array: its length, its validity bitmap (bytes, absent
    when no value is null) and its data. *)
Record ArrowArray : Type := mkArrowArray {
  num_rows : nat;
  null_bitmap : option (list Z);
  data : ArrayData
}.

(** [[(byte >> bit) & 1 for byte in null_bitmap for bit in range(8)]]. *)
Definition bits (null_bitmap : list Z) : list Z :=
  flat_map
    (λ byte, map (λ bit, Z.land (Z.shiftr byte (Z.of_nat bit)) 1) (seq 0 8))
    null_bitmap.

(** [null_array]: the first [num_rows] bits, or [numpy.ones(num_rows)]. *)
Definition null_array (array : ArrowArray) : list Z :=
  match null_bitmap array with
  | Some bitmap => take (num_rows array) (bits bitmap)
  | None => replicate (num_rows array) 1%Z
  end.

(** The truth value of an entry of [null_array]. *)
Definition truthy (z : Z) : bool := negb (Z.eqb z 0).

(** [numpy.where(null_array)[0]]: the positions of the true entries. *)
Fixpoint where_from (i : nat) (entries : list Z) : list nat :=
  match entries with
  | [] => []
  | z :: rest =>
      if truthy z then i :: where_from (S i) rest else where_from (S i) rest
  end.

Definition where_true (entries : list Z) : list nat := where_from 0 entries.

(** [compute.is_valid(array)] of the Arrow library: bit [i] of the validity
    bitmap, every row when there is no bitmap. *)
Definition is_valid (array : ArrowArray) (i : nat) : bool :=
  match null_bitmap array with
  | Some bitmap =>
      Z.testbit (nth (i / 8) bitmap 0%Z) (Z.of_nat (i mod 8))
  | None => true
  end.

(** [array.filter(compute.is_valid(array))], on the value slots. *)
Fixpoint filter_valid_from {A} (array : ArrowArray) (i : nat) (values : list A) :
    list A :=
  match values with
  | [] => []
  | v :: rest =>
      if is_valid array i then v :: filter_valid_from array (S i) rest
      else filter_valid_from array (S i) rest
  end.

Definition filter_valid {A} (array : ArrowArray) (values : list A) : list A :=
  filter_valid_from array 0 (take (num_rows array) values).

(** [data_buffer[start:end]]. *)
Definition slice (data_buffer : list Z) (start stop : nat) : list Z :=
  take (stop - start) (drop start data_buffer).

Section Join.

(** Python's [hash], on the bytes of a value. *)
Variable hash : list Z -> Z.

(** [null_array[i]], as a truth value. *)
Definition live (entries : list Z) (i : nat) : result bool :=
  match entries !! i with
  | Some z => Ok (truthy z)
  | None => Raise IndexError
  end.

(** *** [preprocess_left] *)

(** [for i, val in enumerate(non_null_array.to_numpy())]. *)
Fixpoint insert_integers (i : nat) (non_null_array : list Z)
    (value_offset_map : list nat) (ht : HashTable) : result HashTable :=
  match non_null_array with
  | [] => Ok ht
  | val :: rest =>
      match value_offset_map !! i with
      | Some row => insert_integers (S i) rest value_offset_map (insert val row ht)
      | None => Raise IndexError
      end
  end.

(** [for i in range(num_rows)] over the data buffer. *)
Fixpoint insert_fixed (rows : list nat) (entries : list Z) (item_size : nat)
    (data_buffer : list Z) (ht : HashTable) : result HashTable :=
  match rows with
  | [] => Ok ht
  | i :: rest =>
      valid <- live entries i;;
      if valid then
        let start := i * item_size in
        let stop := start + item_size in
        let value_bytes := slice data_buffer start stop in
        insert_fixed rest entries item_size data_buffer
          (insert (hash value_bytes) i ht)
      else insert_fixed rest entries item_size data_buffer ht
  end.

(** [for i, val in enumerate(array)]. *)
Fixpoint insert_variable (i : nat) (values : list (list Z)) (entries : list Z)
    (ht : HashTable) : result HashTable :=
  match values with
  | [] => Ok ht
  | val :: rest =>
      valid <- live entries i;;
      if valid then insert_variable (S i) rest entries (insert (hash val) i ht)
      else insert_variable (S i) rest entries ht
  end.

Definition preprocess_left (array : ArrowArray) : result HashTable :=
  let ht : HashTable := ∅ in
  let num_rows := num_rows array in
  let null_array := null_array array in
  let value_offset_map := where_true null_array in
  match data array with
  | IntegerData values =>
      let non_null_array := filter_valid array values in
      insert_integers 0 non_null_array value_offset_map ht
  | FixedWidthData _ bit_width data_buffer =>
      let item_size := bit_width / 8 in
      insert_fixed (seq 0 num_rows) null_array item_size data_buffer ht
  | VariableData values =>
      insert_variable 0 (take num_rows values) null_array ht
  | UnsupportedData => Raise TypeError
  end.

(** *** [inner_join_with_preprocessed_left_side] *)

(** [left_indexes.extend(rows)] and [right_indexes.extend([j] * len(rows))]. *)
Definition extend (rows : list nat) (j : nat) (indexes : list nat * list nat) :
    list nat * list nat :=
  (fst indexes ++ rows, snd indexes ++ replicate (length rows) j).

(** The same under [if rows:]. *)
Definition extend_if_any (rows : list nat) (j : nat)
    (indexes : list nat * list nat) : list nat * list nat :=
  match rows with
  | [] => indexes
  | _ => extend rows j indexes
  end.

Fixpoint probe_integers (i : nat) (non_null_array : list Z)
    (value_offset_map : list nat) (hash_table : HashTable)
    (indexes : list nat * list nat) : result (list nat * list nat) :=
  match non_null_array with
  | [] => Ok indexes
  | val :: rest =>
      match get val hash_table with
      | [] => probe_integers (S i) rest value_offset_map hash_table indexes
      | rows =>
          match value_offset_map !! i with
          | Some j =>
              probe_integers (S i) rest value_offset_map hash_table
                (extend rows j indexes)
          | None => Raise IndexError
          end
      end
  end.

Fixpoint probe_fixed (rows : list nat) (entries : list Z) (item_size : nat)
    (data_buffer : list Z) (hash_table : HashTable)
    (indexes : list nat * list nat) : result (list nat * list nat) :=
  match rows with
  | [] => Ok indexes
  | i :: rest =>
      valid <- live entries i;;
      if valid then
        let start := i * item_size in
        let stop := start + item_size in
        let value_bytes := slice data_buffer start stop in
        let rows := get (hash value_bytes) hash_table in
        probe_fixed rest entries item_size data_buffer hash_table
          (extend_if_any rows i indexes)
      else probe_fixed rest entries item_size data_buffer hash_table indexes
  end.

Fixpoint probe_variable (i : nat) (values : list (list Z)) (entries : list Z)
    (hash_table : HashTable) (indexes : list nat * list nat) :
    result (list nat * list nat) :=
  match values with
  | [] => Ok indexes
  | val :: rest =>
      valid <- live entries i;;
      if valid then
        let rows := get (hash val) hash_table in
        probe_variable (S i) rest entries hash_table
          (extend_if_any rows i indexes)
      else probe_variable (S i) rest entries hash_table indexes
  end.

(** The index lists handed to [align_tables], which gathers the rows: the
    left and the right row of each joined row. *)
Definition inner_join_with_preprocessed_left_side (array : ArrowArray)
    (hash_table : HashTable) : result (list nat * list nat) :=
  let indexes : list nat * list nat := ([], []) in
  let num_rows := num_rows array in
  let null_array := null_array array in
  let value_offset_map := where_true null_array in
  match data array with
  | IntegerData values =>
      let non_null_array := filter_valid array values in
      probe_integers 0 non_null_array value_offset_map hash_table indexes
  | FixedWidthData _ bit_width data_buffer =>
      let item_size := bit_width / 8 in
      probe_fixed (seq 0 num_rows) null_array item_size data_buffer hash_table
        indexes
  | VariableData values =>
      probe_variable 0 (take num_rows values) null_array hash_table indexes
  | UnsupportedData => Ok indexes
  end.

(** What [execute] computes for a morsel of the right side once the left side
    is drained: the hash table of the left key column, probed with the right
    key column.  The result lists the pairs (left row, right row) of the
    output, in output order. *)
Definition hash_join (left_array right_array : ArrowArray) :
    result (list (nat * nat)) :=
  ht <- preprocess_left left_array;;
  indexes <- inner_join_with_preprocessed_left_side right_array ht;;
  Ok (zip (fst indexes) (snd indexes)).

End Join.
End InnerJoinSingle.

(** ** The join operator ([InnerJoinSingleNode]) *)

Module InnerJoinSingleNode.
Import InnerJoinSingle.
Local Open Scope py_scope.

(** What is handed to [execute]: a morsel, or the sentinel [EOS]. *)
Inductive Input (Table : Type) : Type :=
| EOS
| Morsel (morsel : Table).
Arguments EOS {Table}.
Arguments Morsel {Table} morsel.

(** The operator between two calls.  While [stream] is ["left"] it holds the
    morsels buffered so far; from the end of the left stream on it holds the
    left relation and its hash table, and the buffer is empty.  The column
    lists may have been exchanged on the way.  An exception ends the query,
    so the operator after one is not described. *)
Inductive NodeState (Table : Type) : Type :=
| LeftStream (left_buffer : list Table) (_left_columns _right_columns : list string)
| RightStream (left_relation : Table) (left_hash : HashTable)
    (_left_columns _right_columns : list string).
Arguments LeftStream {Table} left_buffer _left_columns _right_columns.
Arguments RightStream {Table} left_relation left_hash _left_columns _right_columns.

Section Node.

(** Python's [hash]; tables, and what the Arrow library does with them:
    [relation.column(name)] with its chunks combined, [column_names],
    [pyarrow.concat_tables(tables, promote_options="none")]; and
    [align_tables] of the engine, which gathers the rows. *)
Variable hash : list Z -> Z.
Context {Table : Type}.
Variable column : Table -> string -> result ArrowArray.
Variable column_names : Table -> list string.
Variable concat_tables : list Table -> result Table.
Variable align_tables : Table -> Table -> list nat -> list nat -> result Table.

(** [join_columns[0]]. *)
Definition first_column (join_columns : list string) : result string :=
  match join_columns with
  | name :: _ => Ok name
  | [] => Raise IndexError
  end.

(** [preprocess_left(relation, join_columns)]. *)
Definition preprocess_left_relation (relation : Table)
    (join_columns : list string) : result HashTable :=
  name <- first_column join_columns;;
  array <- column relation name;;
  preprocess_left hash array.

(** [inner_join_with_preprocessed_left_side(left_relation, right_relation,
    join_columns, hash_table)]. *)
Definition join_with_preprocessed_left_side (left_relation right_relation : Table)
    (join_columns : list string) (hash_table : HashTable) : result Table :=
  name <- first_column join_columns;;
  array <- column right_relation name;;
  indexes <- inner_join_with_preprocessed_left_side hash array hash_table;;
  align_tables right_relation left_relation (snd indexes) (fst indexes).

(** [execute]: the state after the call and what the call yields. *)
Definition execute (self : NodeState Table) (morsel : Input Table) :
    result (NodeState Table * list (option Table)) :=
  match self with
  | LeftStream left_buffer _left_columns _right_columns =>
      match morsel with
      | EOS =>
          left_relation <- concat_tables left_buffer;;
          first <- first_column _left_columns;;
          let columns :=
            if bool_decide (first ∈ column_names left_relation)
            then (_left_columns, _right_columns)
            else (_right_columns, _left_columns) in
          left_hash <- preprocess_left_relation left_relation (fst columns);;
          Ok (RightStream left_relation left_hash (fst columns)
                (snd columns),
              [None])
      | Morsel morsel =>
          Ok (LeftStream (left_buffer ++ [morsel]) _left_columns
                _right_columns,
              [None])
      end
  | RightStream left_relation left_hash _left_columns _right_columns =>
      match morsel with
      | EOS => Ok (self, [None])
      | Morsel morsel =>
          new_morsel <-
            join_with_preprocessed_left_side left_relation morsel
              _right_columns left_hash;;
          Ok (self, [Some new_morsel])
      end
  end.

(** The operator fed one input after the other. *)
Fixpoint feed (self : NodeState Table) (inputs : list (Input Table)) :
    result (NodeState Table * list (option Table)) :=
  match inputs with
  | [] => Ok (self, [])
  | morsel :: rest =>
      step <- execute self morsel;;
      more <- feed (fst step) rest;;
      Ok (fst more, snd step ++ snd more)
  end.

End Node.
End InnerJoinSingleNode.


(* ===== PROPERTIES ===== *)

(** ** Properties of the predicate rewriter *)

Module PredicateRewriterSpec.
Import PredicateRewriter.

Section Facts.
Context {C : Type}.
Variable format_expression : Node C -> string.
Variable ExpressionColumn : string -> OrsoTypes -> C.
Variable determine_type : Node C -> result TypeTag.

Abbreviation rewrite :=
  (_rewrite_predicate format_expression ExpressionColumn determine_type).

Lemma rewrite_unfold (predicate : Node C) :
  rewrite predicate =
  if negb (node_type_in (node_type predicate)
             [BINARY_OPERATOR; COMPARISON_OPERATOR])
  then Ok (Some predicate)
  else
    Py.bind
      (if node_type_in (node_type predicate) [AND; OR; XOR] then
         Py.bind (match left predicate with
                  | Some l => rewrite l
                  | None => Raise AttributeError
                  end)
           (λ l, Py.bind (match right predicate with
                          | Some r => rewrite r
                          | None => Raise AttributeError
                          end)
                   (λ r, Ok (set_right r (set_left l predicate))))
       else Ok predicate)
      (rule_adjacent_wildcards format_expression ExpressionColumn
         determine_type).
Proof. destruct predicate; reflexivity. Qed.

(** The first test of [_rewrite_predicate] returns every node that is neither
    a binary nor a comparison operator as it is; the recursion into the
    operands of AND, OR and XOR is therefore never reached. *)
Lemma rewrite_logical_connective (predicate : Node C) :
  node_type predicate ∈ [AND; OR; XOR] ->
  rewrite predicate = Ok (Some predicate).
Proof.
  intros Hin. rewrite rewrite_unfold.
  assert (node_type_in (node_type predicate)
            [BINARY_OPERATOR; COMPARISON_OPERATOR] = false) as ->; [|done].
  unfold node_type_in. apply bool_decide_eq_false.
  rewrite !elem_of_cons, elem_of_nil in *. intuition congruence.
Qed.

(** *** Facts on patterns *)

Lemma doubled_percent_count (s : string) :
  str_contains "%%" s = true -> 2 <= str_count "%" s.
Proof.
  induction s as [|a s IH]; [discriminate|].
  cbn [str_contains]. intros [Hp|Hc]%orb_true_iff.
  - cbn [startswith] in Hp. destruct (Ascii.eqb_spec "%" a) as [<-|]; [|done].
    destruct s as [|b s]; [done|].
    cbn [startswith andb] in Hp.
    destruct (Ascii.eqb_spec "%" b) as [<-|]; [|done].
    cbn. lia.
  - specialize (IH Hc). cbn [str_count]. lia.
Qed.

Lemma single_percent_not_doubled (s : string) :
  str_count "%" s = 1 -> str_contains "%%" s = false.
Proof.
  intros Hc. destruct (str_contains "%%" s) eqn:E; [|done].
  apply doubled_percent_count in E. lia.
Qed.

Lemma counted_percent_contained (s : string) :
  1 <= str_count "%" s -> str_contains "%" s = true.
Proof.
  induction s as [|a s IH]; cbn [str_count str_contains]; [lia|].
  intros Hc. apply orb_true_iff.
  destruct (Ascii.eqb_spec a "%") as [->|].
  - left. by destruct s.
  - right. apply IH. lia.
Qed.

Lemma str_last_nonempty (a : ascii) (s : string) :
  str_last (String a s) ≠ None.
Proof.
  revert a. induction s as [|b s IH]; intros a; [done|].
  change (str_last (String a (String b s))) with (str_last (String b s)).
  apply IH.
Qed.

(** The node that a LIKE predicate [p] with operands [l] and [r] becomes when
    it is rewritten to the function [name] over the pattern [stripped]:
    FUNCTION [name]([l], [stripped], [ignore_case]). *)
Definition as_function (name stripped : string) (ignore_case : bool)
    (p l r : Node C) : Node C :=
  let r' := set_value (PStr stripped) r in
  set_parameters [l; r'; boolean_literal ignore_case]
    (set_value (PStr name)
       (set_node_type FUNCTION (set_right (Some r') p))).

Lemma as_function_shape name stripped ignore_case (p l r : Node C) :
  let q := as_function name stripped ignore_case p l r in
  node_type q = FUNCTION
  /\ value q = PStr name
  /\ parameters q =
       [l; set_value (PStr stripped) r; boolean_literal ignore_case].
Proof. by cbn. Qed.

Section Like.
Variables (p l r : Node C) (op pat : string) (s : gset string).
Hypothesis Hoperator :
  node_type_in (node_type p) [BINARY_OPERATOR; COMPARISON_OPERATOR] = true.
Hypothesis Hvalue : value p = PStr op.
Hypothesis Hop : op ∈ ["Like"; "ILike"].
Hypothesis Hleft : left p = Some l.
Hypothesis Hconnector : source_connector l = Some s.
Hypothesis Hnonempty : s ≠ ∅.
Hypothesis Hdisjoint : s ## ({["Sql"; "Cql"]} : gset string).
Hypothesis Hright : right p = Some r.
Hypothesis Hliteral : node_type r = LITERAL.
Hypothesis Hpattern : value r = PStr pat.

Lemma like_not_connective :
  node_type_in (node_type p) [AND; OR; XOR] = false.
Proof.
  unfold node_type_in in *. apply bool_decide_eq_true in Hoperator.
  apply bool_decide_eq_false.
  rewrite !elem_of_cons, elem_of_nil in *. intuition congruence.
Qed.

Lemma like_reaches_function_rule :
  str_contains "%%" pat = false ->
  1 <= str_count "%" pat ->
  rewrite p =
  rule_like_function format_expression ExpressionColumn determine_type p.
Proof using All.
  intros Hdoubled Hcount.
  rewrite rewrite_unfold, Hoperator, like_not_connective. cbn [negb Py.bind].
  unfold rule_adjacent_wildcards.
  assert (value_in (value p) ["Like"; "ILike"; "NotLike"; "NotILike"]
          = Ok true) as ->.
  { rewrite Hvalue. cbn. f_equal. apply bool_decide_eq_true.
    rewrite !elem_of_cons in *. intuition. }
  cbn [Py.bind]. rewrite Hright. cbn [attr Py.bind].
  rewrite Hpattern. cbn [contains Py.bind]. rewrite Hdoubled.
  unfold rule_like_to_eq. rewrite Hvalue. cbn [value_in Py.bind].
  case_bool_decide; [|done].
  rewrite Hright. cbn [attr Py.bind]. rewrite Hpattern. cbn [contains Py.bind].
  by rewrite counted_percent_contained.
Qed.

Lemma like_function_rule_guards :
  value_in (value p) ["Like"; "ILike"] = Ok true
  /\ truthy_set (source_connector l)
     && isdisjoint_sql_cql (source_connector l) = true.
Proof using All.
  split.
  - rewrite Hvalue. cbn. f_equal. by apply bool_decide_eq_true.
  - rewrite Hconnector. cbn. apply andb_true_iff.
    split; by apply bool_decide_eq_true.
Qed.

(** C7 (as amended).  A Like or ILike comparison whose left operand has a
    non-empty connector set disjoint from Sql and Cql, and whose right operand
    is a literal pattern, is rewritten to a FUNCTION node over the left
    operand, the stripped pattern and the flag [operator == "ILike"]:
    STARTS_WITH when the pattern has exactly one percent sign and it is the
    last character; ENDS_WITH when it has exactly one, it is the first
    character and not the last; SEARCH when it has exactly two, the first and
    the last character, and they are not adjacent. *)
Theorem like_rewritten_to_function :
  let ignore_case := String.eqb op "ILike" in
  (str_count "%" pat = 1 -> str_last pat = Some "%"%char ->
   rewrite p =
   Ok (Some (as_function "STARTS_WITH" (str_drop_last pat) ignore_case p l r)))
  /\ (str_count "%" pat = 1 -> str_first pat = Some "%"%char ->
      str_last pat ≠ Some "%"%char ->
      rewrite p =
      Ok (Some (as_function "ENDS_WITH" (str_drop_first pat) ignore_case
                  p l r)))
  /\ (str_count "%" pat = 2 -> str_first pat = Some "%"%char ->
      str_last pat = Some "%"%char -> str_contains "%%" pat = false ->
      rewrite p =
      Ok (Some (as_function "SEARCH" (str_inner pat) ignore_case p l r))).
Proof using All.
  destruct like_function_rule_guards as [Hmember Hguard].
  cbv zeta. split; [|split].
  - intros Hcount Hlast.
    rewrite like_reaches_function_rule
      by (auto using single_percent_not_doubled; lia).
    unfold rule_like_function. rewrite Hmember. cbn [Py.bind].
    rewrite Hleft. cbn [attr Py.bind]. rewrite Hguard, Hright.
    cbn [attr Py.bind]. rewrite Hliteral, Hpattern. cbn.
    rewrite Hlast, Hcount. cbn.
    unfold rewrite_to_starts_with. rewrite Hright, Hvalue. cbn [attr Py.bind].
    rewrite Hpattern. cbn. by rewrite Hleft.
  - intros Hcount Hfirst Hlast.
    rewrite like_reaches_function_rule
      by (auto using single_percent_not_doubled; lia).
    unfold rule_like_function. rewrite Hmember. cbn [Py.bind].
    rewrite Hleft. cbn [attr Py.bind]. rewrite Hguard, Hright.
    cbn [attr Py.bind]. rewrite Hliteral, Hpattern. cbn.
    destruct (str_last pat) as [a|] eqn:Ea.
    2:{ destruct pat as [|c t]; [done|]. by apply str_last_nonempty in Ea. }
    assert (is_percent a = false) as ->.
    { unfold is_percent. destruct (Ascii.eqb_spec a "%"); congruence. }
    cbn. rewrite Hfirst, Hcount. cbn.
    unfold rewrite_to_ends_with. rewrite Hright, Hvalue. cbn [attr Py.bind].
    rewrite Hpattern. cbn. by rewrite Hleft.
  - intros Hcount Hfirst Hlast Hdoubled.
    rewrite like_reaches_function_rule by (auto; lia).
    unfold rule_like_function. rewrite Hmember. cbn [Py.bind].
    rewrite Hleft. cbn [attr Py.bind]. rewrite Hguard, Hright.
    cbn [attr Py.bind]. rewrite Hliteral, Hpattern. cbn.
    rewrite Hlast, Hfirst, Hcount. cbn.
    unfold rewrite_to_search. rewrite Hright, Hvalue. cbn [attr Py.bind].
    rewrite Hpattern. cbn. by rewrite Hleft.
Qed.

End Like.

End Facts.

(** *** Concrete predicates *)

(** The engine parts that the rewriter receives, fixed for the examples:
    column handles are numbers. *)
Definition no_format : Node nat -> string := λ _, "".
Definition column_handle : string -> OrsoTypes -> nat := λ _ _, 0.
Definition untyped : Node nat -> result TypeTag := λ _, Ok NoType.

Definition identifier (name : string) (connector : option (gset string)) :
    Node nat :=
  mkNode IDENTIFIER None None None [] (PStr name) NoType NoType None None
         (Some name) (Some name) None None None false connector None None.

Definition literal (text : string) : Node nat :=
  set_value (PStr text) (set_type (Orso VARCHAR) (new_node LITERAL)).

Definition comparison (operator : string) (l r : Node nat) : Node nat :=
  set_right (Some r)
    (set_left (Some l)
       (set_value (PStr operator) (new_node COMPARISON_OPERATOR))).

Definition conjunction (l r : Node nat) : Node nat :=
  set_right (Some r) (set_left (Some l) (new_node AND)).

(** [x LIKE 'abc%'] over a column read from disk, over a column with an empty
    connector set, and [y = '1']. *)
Definition x_on_disk : Node nat := identifier "x" (Some {["Disk"]}).
Definition x_like_abc : Node nat := comparison "Like" x_on_disk (literal "abc%").
Definition x_detached : Node nat := identifier "x" (Some ∅).
Definition detached_like_abc : Node nat :=
  comparison "Like" x_detached (literal "abc%").
Definition y_is_one : Node nat :=
  comparison "Eq" (identifier "y" (Some {["Disk"]})) (literal "1").

(** C6, the code at the failing input.  At top level [x LIKE 'abc%'] becomes
    [STARTS_WITH(x, 'abc', false)]; as the left operand of an AND the same
    predicate is returned untouched, because [_rewrite_predicate] returns
    every node that is not a binary or comparison operator before it reaches
    the recursion into AND, OR and XOR. *)
Theorem like_under_and_is_not_rewritten :
  _rewrite_predicate no_format column_handle untyped x_like_abc
  = Ok (Some (as_function "STARTS_WITH" "abc" false x_like_abc x_on_disk
                (literal "abc%")))
  /\ _rewrite_predicate no_format column_handle untyped
       (conjunction x_like_abc y_is_one)
     = Ok (Some (conjunction x_like_abc y_is_one)).
Proof. split; vm_compute; reflexivity. Qed.

(** C7 as stated fails: an empty connector set is disjoint from Sql and Cql,
    but the rewriter keeps the LIKE. *)
Lemma like_with_empty_connector_is_kept :
  source_connector x_detached = Some ∅
  /\ (∅ : gset string) ## ({["Sql"; "Cql"]} : gset string)
  /\ _rewrite_predicate no_format column_handle untyped detached_like_abc
     = Ok (Some detached_like_abc).
Proof. split; [done|]. split; [set_solver|]. vm_compute. reflexivity. Qed.

Lemma like_rewritten_to_function_witness :
  _rewrite_predicate no_format column_handle untyped x_like_abc
  = Ok (Some (as_function "STARTS_WITH" "abc" false x_like_abc x_on_disk
                (literal "abc%"))).
Proof.
  refine (proj1 (like_rewritten_to_function no_format column_handle untyped
                   x_like_abc x_on_disk (literal "abc%") "Like" "abc%"
                   {["Disk"]} _ _ _ _ _ _ _ _ _ _) _ _).
  - vm_compute. reflexivity.
  - reflexivity.
  - apply (bool_decide_unpack _). vm_compute. exact I.
  - reflexivity.
  - reflexivity.
  - apply (bool_decide_unpack _). vm_compute. exact I.
  - apply (bool_decide_unpack _). vm_compute. exact I.
  - reflexivity.
  - reflexivity.
  - reflexivity.
  - reflexivity.
  - reflexivity.
Defined.

End PredicateRewriterSpec.


(** ** The rules of the predicate rewriter, one by one *)

Module PredicateRewriterRules.
Import PredicateRewriter PredicateRewriterSpec.

(** *** Patterns *)

(** The characters of a pattern other than the percent sign. *)
Fixpoint literal_characters (s : string) : string :=
  match s with
  | EmptyString => EmptyString
  | String a rest =>
      if Ascii.eqb a "%" then literal_characters rest
      else String a (literal_characters rest)
  end.

Lemma collapse_percent_first (s : string) :
  str_first (collapse_percent s) = str_first s.
Proof.
  induction s as [|a s IH]; [done|]. cbn [collapse_percent].
  destruct (Ascii.eqb_spec a "%") as [->|]; [|done].
  destruct s as [|b s]; [done|].
  destruct (Ascii.eqb_spec b "%") as [->|]; [|done].
  by rewrite IH.
Qed.

Lemma collapse_percent_no_run (s : string) :
  str_contains "%%" (collapse_percent s) = false.
Proof.
  induction s as [|a s IH]; [done|]. cbn [collapse_percent].
  destruct (Ascii.eqb_spec a "%") as [->|Ha].
  - destruct s as [|b s]; [done|].
    destruct (Ascii.eqb_spec b "%") as [->|Hb]; [exact IH|].
    cbn [str_contains startswith]. rewrite IH, orb_false_r.
    pose proof (collapse_percent_first (String b s)) as Hfirst.
    destruct (collapse_percent (String b s)) as [|c t]; [done|].
    cbn in Hfirst. injection Hfirst as ->.
    cbn [startswith]. rewrite Ascii.eqb_refl. cbn [andb].
    by destruct (Ascii.eqb_spec "%" b) as [<-|].
  - cbn [str_contains startswith]. rewrite IH, orb_false_r.
    by destruct (Ascii.eqb_spec "%" a) as [<-|].
Qed.

Lemma collapse_percent_without_run (s : string) :
  str_contains "%%" s = false -> collapse_percent s = s.
Proof.
  induction s as [|a s IH]; [done|].
  cbn [str_contains]. intros [Hstart Hrest]%orb_false_iff.
  specialize (IH Hrest). cbn [collapse_percent].
  destruct (Ascii.eqb_spec a "%") as [->|]; [|by rewrite IH].
  destruct s as [|b s]; [done|].
  destruct (Ascii.eqb_spec b "%") as [->|]; [done|by rewrite IH].
Qed.

Lemma collapse_percent_literal_characters (s : string) :
  literal_characters (collapse_percent s) = literal_characters s.
Proof.
  induction s as [|a s IH]; [done|]. cbn [collapse_percent].
  destruct (Ascii.eqb_spec a "%") as [->|Ha].
  - destruct s as [|b s]; [done|].
    destruct (Ascii.eqb_spec b "%") as [->|Hb]; [exact IH|].
    cbn [literal_characters]. rewrite Ascii.eqb_refl. exact IH.
  - cbn [literal_characters].
    destruct (Ascii.eqb_spec a "%"); [done|]. by rewrite IH.
Qed.

Lemma collapse_percent_keeps_percent (s : string) :
  str_contains "%" (collapse_percent s) = str_contains "%" s.
Proof.
  induction s as [|a s IH]; [done|]. cbn [collapse_percent].
  destruct (Ascii.eqb_spec a "%") as [->|Ha].
  - destruct s as [|b s]; [done|].
    destruct (Ascii.eqb_spec b "%") as [->|Hb]; [|done].
    rewrite IH. done.
  - cbn [str_contains startswith]. by rewrite IH.
Qed.

Lemma run_of_percent_contains_percent (s : string) :
  str_contains "%" s = false -> str_contains "%%" s = false.
Proof.
  intros Hnone. destruct (str_contains "%%" s) eqn:E; [|done].
  apply doubled_percent_count in E.
  rewrite counted_percent_contained in Hnone by lia. done.
Qed.

Lemma without_percent_last (s : string) (a : ascii) :
  str_contains "%" s = false -> str_last s = Some a -> is_percent a = false.
Proof.
  induction s as [|b s IH]; [done|].
  cbn [str_contains startswith]. intros [Hstart Hrest]%orb_false_iff.
  destruct s as [|c s].
  - cbn. intros [= <-]. unfold is_percent.
    destruct (Ascii.eqb_spec "%" b) as [<-|]; [done|].
    destruct (Ascii.eqb_spec b "%") as [->|]; done.
  - intros Hlast. by apply IH.
Qed.

Lemma without_percent_first (s : string) (a : ascii) :
  str_contains "%" s = false -> str_first s = Some a -> is_percent a = false.
Proof.
  destruct s as [|b s]; [done|].
  cbn [str_contains startswith str_first].
  intros [Hstart _]%orb_false_iff [= <-]. unfold is_percent.
  destruct (Ascii.eqb_spec "%" b) as [<-|]; [done|].
  destruct (Ascii.eqb_spec b "%") as [->|]; done.
Qed.

Section Rules.
Context {C : Type}.
Variable format_expression : Node C -> string.
Variable ExpressionColumn : string -> OrsoTypes -> C.
Variable determine_type : Node C -> result TypeTag.

Abbreviation rewrite :=
  (_rewrite_predicate format_expression ExpressionColumn determine_type).
Abbreviation adjacent_rule :=
  (rule_adjacent_wildcards format_expression ExpressionColumn determine_type).
Abbreviation like_to_eq_rule :=
  (rule_like_to_eq format_expression ExpressionColumn determine_type).
Abbreviation like_function_rule :=
  (rule_like_function format_expression ExpressionColumn determine_type).
Abbreviation any_op_eq_rule :=
  (rule_any_op_eq format_expression ExpressionColumn determine_type).
Abbreviation in_list_rule :=
  (rule_in_list format_expression ExpressionColumn determine_type).
Abbreviation interval_rule :=
  (rule_interval format_expression ExpressionColumn determine_type).

(** A binary or comparison operator is not a logical connective, so it goes
    straight to the rules. *)
Lemma operator_reaches_rules (p : Node C) :
  node_type_in (node_type p) [BINARY_OPERATOR; COMPARISON_OPERATOR] = true ->
  rewrite p = adjacent_rule p.
Proof.
  intros Hoperator. rewrite rewrite_unfold, Hoperator.
  assert (node_type_in (node_type p) [AND; OR; XOR] = false) as ->; [|done].
  unfold node_type_in in *. apply bool_decide_eq_true in Hoperator.
  apply bool_decide_eq_false.
  rewrite !elem_of_cons, elem_of_nil in *. intuition congruence.
Qed.

(** Each rule is passed over by a predicate whose operator it does not
    name. *)
Lemma adjacent_rule_skipped (p : Node C) (op : string) :
  value p = PStr op -> op ∉ ["Like"; "ILike"; "NotLike"; "NotILike"] ->
  adjacent_rule p = like_to_eq_rule p.
Proof.
  intros Hvalue Hop. unfold rule_adjacent_wildcards. rewrite Hvalue.
  cbn [value_in Py.bind]. by rewrite bool_decide_eq_false_2.
Qed.

Lemma like_to_eq_rule_skipped (p : Node C) (op : string) :
  value p = PStr op -> op ∉ ["Like"; "NotLike"] ->
  like_to_eq_rule p = like_function_rule p.
Proof.
  intros Hvalue Hop. unfold rule_like_to_eq. rewrite Hvalue.
  cbn [value_in Py.bind]. by rewrite bool_decide_eq_false_2.
Qed.

Lemma like_function_rule_skipped (p : Node C) (op : string) :
  value p = PStr op -> op ∉ ["Like"; "ILike"] ->
  like_function_rule p = any_op_eq_rule p.
Proof.
  intros Hvalue Hop. unfold rule_like_function. rewrite Hvalue.
  cbn [value_in Py.bind]. by rewrite bool_decide_eq_false_2.
Qed.

Lemma any_op_eq_rule_skipped (p : Node C) (op : string) :
  value p = PStr op -> op ≠ "AnyOpEq" -> any_op_eq_rule p = in_list_rule p.
Proof.
  intros Hvalue Hop. unfold rule_any_op_eq. rewrite Hvalue. cbn [value_is].
  by destruct (String.eqb_spec op "AnyOpEq").
Qed.

Lemma in_list_rule_skipped (p : Node C) (op : string) :
  value p = PStr op -> op ∉ ["InList"; "NotInList"] ->
  in_list_rule p = interval_rule p.
Proof.
  intros Hvalue Hop. unfold rule_in_list. rewrite Hvalue.
  cbn [value_in Py.bind]. by rewrite bool_decide_eq_false_2.
Qed.

(** The interval rule looks at a comparison whose left operand is a binary
    operator, and at nothing else. *)
Lemma interval_rule_skipped (p l : Node C) :
  left p = Some l -> node_type l ≠ BINARY_OPERATOR ->
  interval_rule p = Ok (Some p).
Proof.
  intros Hleft Hl. unfold rule_interval. case_bool_decide; [|done].
  rewrite Hleft. cbn [attr Py.bind]. by rewrite bool_decide_eq_false_2.
Qed.

(** The operators that some rule names. *)
Definition rewritten_operators : list string :=
  ["Like"; "ILike"; "NotLike"; "NotILike"; "AnyOpEq"; "InList"; "NotInList"].

Ltac other_operator :=
  match goal with
  | H : _ ∉ rewritten_operators |- _ ∉ _ =>
      intros Hin; apply H; unfold rewritten_operators;
      rewrite !elem_of_cons, ?elem_of_nil in *; intuition
  | H : _ ∉ rewritten_operators |- _ ≠ _ =>
      intros ->; apply H; unfold rewritten_operators;
      rewrite !elem_of_cons; intuition
  | |- _ ∉ _ =>
      rewrite !elem_of_cons, elem_of_nil; intuition discriminate
  | |- _ ≠ _ => discriminate
  end.

Lemma other_operator_reaches_interval_rule (p : Node C) (op : string) :
  value p = PStr op -> op ∉ rewritten_operators ->
  adjacent_rule p = interval_rule p.
Proof.
  intros Hvalue Hop.
  rewrite (adjacent_rule_skipped p op) by (done || other_operator).
  rewrite (like_to_eq_rule_skipped p op) by (done || other_operator).
  rewrite (like_function_rule_skipped p op) by (done || other_operator).
  rewrite (any_op_eq_rule_skipped p op) by (done || other_operator).
  by rewrite (in_list_rule_skipped p op) by (done || other_operator).
Qed.

(** *** LIKE without wildcards *)

(** A Like or NotLike comparison against a pattern with no percent sign and
    no underscore becomes the comparison Eq or NotEq of the same operands
    (the empty pattern included).  The case-insensitive forms are never made
    an equality: NotILike, and ILike against a pattern that is not empty, are
    returned as they are. *)
Theorem like_without_wildcards_becomes_equality
    (p l r : Node C) (op pat : string) :
  node_type_in (node_type p) [BINARY_OPERATOR; COMPARISON_OPERATOR] = true ->
  value p = PStr op ->
  left p = Some l -> node_type l ≠ BINARY_OPERATOR ->
  right p = Some r -> value r = PStr pat ->
  str_contains "%" pat = false -> str_contains "_" pat = false ->
  (op = "Like" -> rewrite p = Ok (Some (set_value (PStr "Eq") p)))
  /\ (op = "NotLike" -> rewrite p = Ok (Some (set_value (PStr "NotEq") p)))
  /\ (op = "NotILike" -> rewrite p = Ok (Some p))
  /\ (op = "ILike" -> pat ≠ "" -> rewrite p = Ok (Some p)).
Proof.
  intros Hoperator Hvalue Hleft Hl Hright Hpattern Hpercent Hunderscore.
  rewrite operator_reaches_rules by done.
  assert (∀ name, name ∈ ["Like"; "ILike"; "NotLike"; "NotILike"] ->
            op = name -> adjacent_rule p = like_to_eq_rule p) as Hfirst.
  { intros name Hname ->. unfold rule_adjacent_wildcards. rewrite Hvalue.
    cbn [value_in Py.bind]. rewrite bool_decide_eq_true_2 by done.
    rewrite Hright. cbn [attr Py.bind]. rewrite Hpattern.
    cbn [contains Py.bind].
    by rewrite run_of_percent_contains_percent. }
  assert (∀ name operator, LIKE_REWRITES name = Some operator ->
            operator ∉ rewritten_operators -> op = name ->
            like_to_eq_rule p = Ok (Some (set_value (PStr operator) p)))
    as Hequality.
  { intros name operator Htable Hother ->. unfold rule_like_to_eq.
    rewrite Hvalue. cbn [value_in Py.bind].
    assert (bool_decide (name ∈ ["Like"; "NotLike"]) = true) as ->.
    { apply bool_decide_eq_true. unfold LIKE_REWRITES in Htable.
      destruct (String.eqb_spec name "Like") as [->|]; [left|].
      destruct (String.eqb_spec name "NotLike") as [->|]; [right; left|done]. }
    rewrite Hright. cbn [attr Py.bind]. rewrite Hpattern.
    cbn [contains Py.bind]. rewrite Hpercent. cbn [negb Py.bind].
    rewrite Hunderscore. cbn [negb Py.bind subscript]. rewrite Htable.
    cbn [Py.bind].
    rewrite (like_function_rule_skipped _ operator) by (done || other_operator).
    rewrite (any_op_eq_rule_skipped _ operator) by (done || other_operator).
    rewrite (in_list_rule_skipped _ operator) by (done || other_operator).
    by apply (interval_rule_skipped _ l). }
  split; [|split; [|split]].
  - intros Hop. rewrite (Hfirst "Like") by (done || by left).
    apply (Hequality "Like"); [done| |done].
    unfold rewritten_operators. other_operator.
  - intros Hop.
    rewrite (Hfirst "NotLike") by (done || (rewrite !elem_of_cons; auto)).
    apply (Hequality "NotLike"); [done| |done].
    unfold rewritten_operators. other_operator.
  - intros Hop.
    rewrite (Hfirst "NotILike") by (done || (rewrite !elem_of_cons; auto)).
    subst op.
    rewrite (like_to_eq_rule_skipped p "NotILike") by (done || other_operator).
    rewrite (like_function_rule_skipped p "NotILike")
      by (done || other_operator).
    rewrite (any_op_eq_rule_skipped p "NotILike") by (done || other_operator).
    rewrite (in_list_rule_skipped p "NotILike") by (done || other_operator).
    by apply (interval_rule_skipped _ l).
  - intros Hop Hnonempty.
    rewrite (Hfirst "ILike") by (done || (rewrite !elem_of_cons; auto)).
    subst op.
    rewrite (like_to_eq_rule_skipped p "ILike") by (done || other_operator).
    assert (any_op_eq_rule p = Ok (Some p)) as Hrest.
    { rewrite (any_op_eq_rule_skipped p "ILike") by (done || other_operator).
      rewrite (in_list_rule_skipped p "ILike") by (done || other_operator).
      by apply (interval_rule_skipped _ l). }
    unfold rule_like_function. rewrite Hvalue. cbn [value_in Py.bind].
    rewrite bool_decide_eq_true_2 by (rewrite !elem_of_cons; auto).
    rewrite Hleft. cbn [attr Py.bind].
    destruct (truthy_set (source_connector l)
              && isdisjoint_sql_cql (source_connector l)); [|done].
    rewrite Hright. cbn [attr Py.bind].
    case_bool_decide; [|done]. rewrite Hpattern.
    cbn [last_is_percent first_is_percent].
    destruct pat as [|c t]; [done|].
    destruct (str_last (String c t)) as [a|] eqn:Hlast.
    2:{ by apply str_last_nonempty in Hlast. }
    rewrite (without_percent_last _ _ Hpercent Hlast).
    cbn [and_then Py.bind str_first].
    by rewrite (without_percent_first (String c t) c Hpercent).
Qed.

(** *** ILIKE against the empty pattern *)

(** An ILike comparison against the empty pattern, over a column of a
    connector other than Sql and Cql, is not rewritten: reading the last
    character of the pattern raises [IndexError].  (The Like comparison
    against the empty pattern has become Eq before that test.) *)
Theorem ilike_with_empty_pattern_raises_index_error
    (p l r : Node C) (s : gset string) :
  node_type_in (node_type p) [BINARY_OPERATOR; COMPARISON_OPERATOR] = true ->
  value p = PStr "ILike" ->
  left p = Some l -> source_connector l = Some s ->
  s ≠ ∅ -> s ## ({["Sql"; "Cql"]} : gset string) ->
  right p = Some r -> node_type r = LITERAL -> value r = PStr "" ->
  rewrite p = Raise IndexError.
Proof.
  intros Hoperator Hvalue Hleft Hconnector Hnonempty Hdisjoint Hright Hliteral
    Hpattern.
  rewrite operator_reaches_rules by done.
  unfold rule_adjacent_wildcards. rewrite Hvalue. cbn [value_in Py.bind].
  rewrite bool_decide_eq_true_2 by (rewrite !elem_of_cons; auto).
  rewrite Hright. cbn [attr Py.bind]. rewrite Hpattern. cbn [contains Py.bind].
  change (str_contains "%%" "") with false. cbv iota.
  rewrite (like_to_eq_rule_skipped p "ILike") by (done || other_operator).
  unfold rule_like_function. rewrite Hvalue. cbn [value_in Py.bind].
  rewrite bool_decide_eq_true_2 by (rewrite !elem_of_cons; auto).
  rewrite Hleft. cbn [attr Py.bind]. rewrite Hconnector.
  cbn [truthy_set isdisjoint_sql_cql].
  rewrite !bool_decide_eq_true_2 by done. cbn [andb].
  rewrite Hright. cbn [attr Py.bind]. rewrite Hliteral, Hpattern.
  by rewrite bool_decide_eq_true_2.
Qed.

(** *** LIKE over a source that takes the predicate itself *)

(** The connector set of a column over which a LIKE is left alone: absent,
    empty, or naming Sql or Cql. *)
Definition keeps_like (connector : option (gset string)) : Prop :=
  match connector with
  | Some s => s = ∅ \/ "Sql" ∈ s \/ "Cql" ∈ s
  | None => True
  end.

Lemma keeps_like_guard (connector : option (gset string)) :
  keeps_like connector ->
  truthy_set connector && isdisjoint_sql_cql connector = false.
Proof.
  destruct connector as [s|]; [|done]. cbn.
  intros [->|Hin].
  - by rewrite bool_decide_eq_false_2 by (by intros []).
  - apply andb_false_iff. right. apply bool_decide_eq_false.
    intros Hdisjoint. destruct Hin as [Hin|Hin];
      apply (Hdisjoint _ Hin); set_solver.
Qed.

(** A Like or ILike comparison over a column whose connector set is absent,
    empty, or names Sql or Cql is returned as it is, whatever wildcards the
    pattern ends or starts with: it is not made a function call.  (A Like
    pattern without any wildcard would have become Eq, and a run of percent
    signs would have been collapsed; the pattern here has at least one
    wildcard when the operator is Like, and no run.) *)
Theorem like_over_sql_source_is_kept (p l r : Node C) (op pat : string) :
  node_type_in (node_type p) [BINARY_OPERATOR; COMPARISON_OPERATOR] = true ->
  value p = PStr op -> op ∈ ["Like"; "ILike"] ->
  left p = Some l -> node_type l ≠ BINARY_OPERATOR ->
  keeps_like (source_connector l) ->
  right p = Some r -> value r = PStr pat ->
  str_contains "%%" pat = false ->
  (op = "Like" -> str_contains "%" pat || str_contains "_" pat = true) ->
  rewrite p = Ok (Some p).
Proof.
  intros Hoperator Hvalue Hop Hleft Hl Hkeeps Hright Hpattern Hrun Hwild.
  rewrite operator_reaches_rules by done.
  unfold rule_adjacent_wildcards. rewrite Hvalue. cbn [value_in Py.bind].
  rewrite bool_decide_eq_true_2
    by (rewrite !elem_of_cons, elem_of_nil in *; intuition).
  rewrite Hright. cbn [attr Py.bind]. rewrite Hpattern. cbn [contains Py.bind].
  rewrite Hrun.
  assert (like_function_rule p = Ok (Some p)) as Hfunction.
  { unfold rule_like_function. rewrite Hvalue. cbn [value_in Py.bind].
    rewrite bool_decide_eq_true_2 by done.
    rewrite Hleft. cbn [attr Py.bind]. rewrite keeps_like_guard by done.
    assert (op ∉ ["AnyOpEq"; "InList"; "NotInList"]) as Hother.
    { rewrite !elem_of_cons, elem_of_nil in *.
      intros [->|[->|[->|[]]]]; intuition discriminate. }
    rewrite (any_op_eq_rule_skipped p op)
      by (done || (intros ->; apply Hother; left)).
    rewrite (in_list_rule_skipped p op)
      by (done || (rewrite !elem_of_cons, elem_of_nil in *; intuition)).
    by apply (interval_rule_skipped _ l). }
  rewrite !elem_of_cons, elem_of_nil in Hop.
  destruct Hop as [->|[->|[]]].
  - unfold rule_like_to_eq. rewrite Hvalue. cbn [value_in Py.bind].
    rewrite bool_decide_eq_true_2 by left.
    rewrite Hright. cbn [attr Py.bind]. rewrite Hpattern.
    cbn [contains Py.bind]. specialize (Hwild eq_refl).
    destruct (str_contains "%" pat); cbn [negb Py.bind]; [done|].
    cbn [orb] in Hwild. rewrite Hwild. done.
  - by rewrite (like_to_eq_rule_skipped p "ILike") by (done || other_operator).
Qed.

(** *** IN with one value, and ANY *)

(** A scalar of a literal collection, as the value of a node. *)
Definition scalar (a : Atom) : Payload (Node C) :=
  match a with
  | AStr s => PStr s
  | AInt z => PInt z
  | ABool b => PBool b
  end.

(** The comparison [operator] of the left operand of [p] with the one value
    [a] of the literal [r]: the literal takes the value, the element type of
    the collection (VARCHAR when it has none) and no element type. *)
Definition as_comparison (operator : string) (a : Atom) (p r : Node C) :
    Node C :=
  set_right
    (Some (set_sub_type NoType
             (set_type (type_or (sub_type r) VARCHAR)
                (set_value (scalar a) r))))
    (set_value (PStr operator) p).

Lemma in_list_rule_single (p r : Node C) (op operator : string) (a : Atom) :
  value p = PStr op -> IN_REWRITES op = Some operator ->
  right p = Some r -> node_type r = LITERAL -> value r = PList [a] ->
  in_list_rule p = Ok (Some (as_comparison operator a p r)).
Proof.
  intros Hvalue Htable Hright Hliteral Hvalues.
  unfold rule_in_list. rewrite Hvalue. cbn [value_in Py.bind].
  assert (bool_decide (op ∈ ["InList"; "NotInList"]) = true) as ->.
  { apply bool_decide_eq_true. unfold IN_REWRITES in Htable.
    destruct (String.eqb_spec op "InList") as [->|]; [left|].
    destruct (String.eqb_spec op "NotInList") as [->|]; [right; left|done]. }
  rewrite Hright. cbn [attr Py.bind]. rewrite Hliteral, Hvalues.
  rewrite bool_decide_eq_true_2 by done. cbn [and_then len Py.bind length].
  cbn [Nat.eqb]. unfold rewrite_in_to_eq. rewrite Hvalue.
  cbn [subscript]. rewrite Htable. cbn [Py.bind right set_value].
  rewrite Hright. cbn [attr Py.bind]. rewrite Hvalues.
  by destruct a.
Qed.

(** An InList or NotInList comparison against a literal collection of one
    value becomes the comparison Eq or NotEq against that value, typed by the
    element type of the collection, or VARCHAR when it has none. *)
Theorem in_list_of_one_value_becomes_equality
    (p r : Node C) (op : string) (a : Atom) :
  node_type_in (node_type p) [BINARY_OPERATOR; COMPARISON_OPERATOR] = true ->
  value p = PStr op ->
  right p = Some r -> node_type r = LITERAL -> value r = PList [a] ->
  (op = "InList" -> rewrite p = Ok (Some (as_comparison "Eq" a p r)))
  /\ (op = "NotInList" -> rewrite p = Ok (Some (as_comparison "NotEq" a p r))).
Proof.
  intros Hoperator Hvalue Hright Hliteral Hvalues.
  rewrite operator_reaches_rules by done.
  split; intros ->.
  - rewrite (adjacent_rule_skipped p "InList") by (done || other_operator).
    rewrite (like_to_eq_rule_skipped p "InList") by (done || other_operator).
    rewrite (like_function_rule_skipped p "InList") by (done || other_operator).
    rewrite (any_op_eq_rule_skipped p "InList") by (done || other_operator).
    by apply (in_list_rule_single p r "InList").
  - rewrite (adjacent_rule_skipped p "NotInList") by (done || other_operator).
    rewrite (like_to_eq_rule_skipped p "NotInList") by (done || other_operator).
    rewrite (like_function_rule_skipped p "NotInList")
      by (done || other_operator).
    rewrite (any_op_eq_rule_skipped p "NotInList") by (done || other_operator).
    by apply (in_list_rule_single p r "NotInList").
Qed.

(** [x = ANY(literal)] becomes InList; with one value in the literal it goes
    on to become Eq against that value; and against an operand that is not a
    literal it is returned as it is. *)
Theorem any_op_eq_against_literal_becomes_in_list
    (p l r : Node C) (items : list Atom) (a : Atom) :
  node_type_in (node_type p) [BINARY_OPERATOR; COMPARISON_OPERATOR] = true ->
  value p = PStr "AnyOpEq" ->
  left p = Some l -> node_type l ≠ BINARY_OPERATOR ->
  right p = Some r ->
  (node_type r = LITERAL -> value r = PList items -> length items ≠ 1 ->
   rewrite p = Ok (Some (set_value (PStr "InList") p)))
  /\ (node_type r = LITERAL -> value r = PList [a] ->
      rewrite p = Ok (Some (as_comparison "Eq" a p r)))
  /\ (node_type r ≠ LITERAL -> rewrite p = Ok (Some p)).
Proof.
  intros Hoperator Hvalue Hleft Hl Hright.
  rewrite operator_reaches_rules by done.
  rewrite (adjacent_rule_skipped p "AnyOpEq") by (done || other_operator).
  rewrite (like_to_eq_rule_skipped p "AnyOpEq") by (done || other_operator).
  rewrite (like_function_rule_skipped p "AnyOpEq") by (done || other_operator).
  unfold rule_any_op_eq. rewrite Hvalue. cbn [value_is].
  change (String.eqb "AnyOpEq" "AnyOpEq") with true. cbv iota.
  rewrite Hright. cbn [attr Py.bind].
  split; [|split].
  - intros Hliteral Hvalues Hlength.
    rewrite bool_decide_eq_true_2 by done.
    unfold rule_in_list. cbn [value set_value value_in Py.bind right].
    rewrite bool_decide_eq_true_2 by left.
    rewrite Hright. cbn [attr Py.bind]. rewrite Hliteral, Hvalues.
    rewrite bool_decide_eq_true_2 by done. cbn [and_then len Py.bind].
    destruct (Nat.eqb_spec (length items) 1) as [|_]; [done|].
    by apply (interval_rule_skipped _ l).
  - intros Hliteral Hvalues.
    rewrite bool_decide_eq_true_2 by done.
    by rewrite (in_list_rule_single _ r "InList" "Eq" a).
  - intros Hliteral.
    rewrite bool_decide_eq_false_2 by done.
    unfold rule_in_list. rewrite Hvalue. cbn [value_in Py.bind].
    rewrite bool_decide_eq_false_2 by other_operator.
    by apply (interval_rule_skipped _ l).
Qed.

(** *** Runs of percent signs *)

(** [remove_adjacent_wildcards] replaces the pattern of the right operand by
    one with no two adjacent percent signs and with the same other
    characters in the same order; a pattern that had no two adjacent percent
    signs is left as it is. *)
Theorem adjacent_wildcards_are_collapsed (p r : Node C) (pat : string) :
  right p = Some r -> value r = PStr pat ->
  ∃ pat',
    remove_adjacent_wildcards p
    = Ok (set_right (Some (set_value (PStr pat') r)) p)
    /\ str_contains "%%" pat' = false
    /\ literal_characters pat' = literal_characters pat
    /\ (str_contains "%" pat = true -> str_contains "%" pat' = true)
    /\ (str_contains "%%" pat = false -> pat' = pat).
Proof.
  intros Hright Hpattern. exists (collapse_percent pat).
  split; [|split; [|split; [|split]]].
  - unfold remove_adjacent_wildcards. rewrite Hright. cbn [attr Py.bind].
    rewrite Hpattern. cbn [contains Py.bind].
    destruct (str_contains "%%" pat) eqn:Hrun; [done|].
    rewrite collapse_percent_without_run by done.
    destruct p, r. cbn in *. by subst.
  - apply collapse_percent_no_run.
  - apply collapse_percent_literal_characters.
  - by rewrite collapse_percent_keeps_percent.
  - apply collapse_percent_without_run.
Qed.

(** *** Comparisons of intervals *)

(** [(end - start) op interval] rebuilt as [end op (start + interval)]: the
    addition is a new node bound to an expression column of type TIMESTAMP,
    the comparison keeps its operator and is bound to an expression column of
    type BOOLEAN; both columns are named by the formatted node. *)
Definition reordered (p l r : Node C) : Node C :=
  let sum :=
    set_right (Some r)
      (set_left (right l)
         (set_value (PStr "Plus") (new_node BINARY_OPERATOR))) in
  let sum :=
    set_schema_column
      (Some (ExpressionColumn (format_expression sum) TIMESTAMP)) sum in
  let q :=
    set_left (left l)
      (set_right (Some sum) (set_node_type COMPARISON_OPERATOR p)) in
  set_schema_column (Some (ExpressionColumn (format_expression q) BOOLEAN)) q.

Lemma interval_rule_reached (p l r : Node C) :
  node_type p = COMPARISON_OPERATOR ->
  left p = Some l -> node_type l = BINARY_OPERATOR ->
  determine_type l = Ok (Orso INTERVAL) ->
  right p = Some r -> determine_type r = Ok (Orso INTERVAL) ->
  interval_rule p
  = reorder_interval_calc format_expression ExpressionColumn p.
Proof.
  intros Hcomparison Hleft Hl Htl Hright Htr. unfold rule_interval.
  rewrite bool_decide_eq_true_2 by done. rewrite Hleft. cbn [attr Py.bind].
  rewrite bool_decide_eq_true_2 by done. rewrite Htl, Hright.
  cbn [attr Py.bind and_then]. rewrite Htr. cbn [Py.bind].
  by rewrite !bool_decide_eq_true_2.
Qed.

(** A comparison of two intervals whose left operand is the subtraction
    [end - start] is rebuilt as the comparison, by the same operator, of
    [end] with [start + interval]. *)
Theorem interval_subtraction_is_moved_to_the_right
    (p l r : Node C) (op : string) :
  node_type p = COMPARISON_OPERATOR ->
  value p = PStr op -> op ∉ rewritten_operators ->
  left p = Some l -> node_type l = BINARY_OPERATOR ->
  value l = PStr "Minus" ->
  determine_type l = Ok (Orso INTERVAL) ->
  right p = Some r -> determine_type r = Ok (Orso INTERVAL) ->
  let q := reordered p l r in
  rewrite p = Ok (Some q)
  /\ node_type q = COMPARISON_OPERATOR /\ value q = PStr op
  /\ left q = left l
  /\ ∃ sum, right q = Some sum
            /\ node_type sum = BINARY_OPERATOR /\ value sum = PStr "Plus"
            /\ left sum = right l /\ right sum = Some r.
Proof.
  intros Hcomparison Hvalue Hop Hleft Hl Hminus Htl Hright Htr. cbv zeta.
  split.
  - rewrite operator_reaches_rules
      by (rewrite Hcomparison; by apply bool_decide_eq_true_2;
          rewrite !elem_of_cons; auto).
    rewrite (other_operator_reaches_interval_rule p op) by done.
    rewrite (interval_rule_reached p l r) by done.
    unfold reorder_interval_calc. rewrite Hleft. cbn [attr Py.bind].
    rewrite Hminus. cbn [value_is].
    change (String.eqb "Minus" "Minus") with true. cbv iota.
    by rewrite Hright.
  - unfold reordered. cbn. split; [done|]. split; [done|]. split; [done|].
    eexists. by repeat split.
Qed.

(** A comparison of two intervals whose left operand is a binary operator
    other than the subtraction is lost: [reorder_interval_calc] falls off its
    end, and [_rewrite_predicate] returns [None] in place of the predicate. *)
Theorem interval_comparison_without_subtraction_is_lost
    (p l r : Node C) (op : string) :
  node_type p = COMPARISON_OPERATOR ->
  value p = PStr op -> op ∉ rewritten_operators ->
  left p = Some l -> node_type l = BINARY_OPERATOR ->
  value_is (value l) "Minus" = false ->
  determine_type l = Ok (Orso INTERVAL) ->
  right p = Some r -> determine_type r = Ok (Orso INTERVAL) ->
  rewrite p = Ok None.
Proof.
  intros Hcomparison Hvalue Hop Hleft Hl Hminus Htl Hright Htr.
  rewrite operator_reaches_rules
    by (rewrite Hcomparison; by apply bool_decide_eq_true_2;
        rewrite !elem_of_cons; auto).
  rewrite (other_operator_reaches_interval_rule p op) by done.
  rewrite (interval_rule_reached p l r) by done.
  unfold reorder_interval_calc. rewrite Hleft. cbn [attr Py.bind].
  by rewrite Hminus.
Qed.

End Rules.

(** *** Concrete predicates *)

Definition every_interval : Node nat -> result TypeTag :=
  λ _, Ok (Orso INTERVAL).

Definition x_over_sql : Node nat := identifier "x" (Some {["Sql"]}).

(** [end - start] and [end + start] over two timestamps, and an interval. *)
Definition difference : Node nat :=
  set_right (Some (identifier "start" None))
    (set_left (Some (identifier "end" None))
       (set_value (PStr "Minus") (new_node BINARY_OPERATOR))).

Definition total : Node nat :=
  set_right (Some (identifier "start" None))
    (set_left (Some (identifier "end" None))
       (set_value (PStr "Plus") (new_node BINARY_OPERATOR))).

Definition one_day : Node nat := literal "1 day".

Definition in_list (operator : string) (l : Node nat) (items : list Atom) :
    Node nat :=
  comparison operator l
    (set_sub_type (Orso INTEGER)
       (set_value (PList items) (new_node LITERAL))).

Lemma like_without_wildcards_becomes_equality_witness :
  _rewrite_predicate no_format column_handle untyped
    (comparison "Like" x_on_disk (literal "abc"))
  = Ok (Some (comparison "Eq" x_on_disk (literal "abc"))).
Proof.
  refine (proj1 (like_without_wildcards_becomes_equality no_format
                   column_handle untyped
                   (comparison "Like" x_on_disk (literal "abc")) x_on_disk
                   (literal "abc") "Like" "abc" _ _ _ _ _ _ _ _) _);
    try reflexivity.
  cbn. discriminate.
Defined.

Lemma ilike_with_empty_pattern_raises_index_error_witness :
  _rewrite_predicate no_format column_handle untyped
    (comparison "ILike" x_on_disk (literal ""))
  = Raise IndexError.
Proof.
  apply (ilike_with_empty_pattern_raises_index_error no_format column_handle
           untyped (comparison "ILike" x_on_disk (literal "")) x_on_disk
           (literal "") {["Disk"]}); try reflexivity.
  - apply (bool_decide_unpack _). vm_compute. exact I.
  - apply (bool_decide_unpack _). vm_compute. exact I.
Defined.

Lemma like_over_sql_source_is_kept_witness :
  _rewrite_predicate no_format column_handle untyped
    (comparison "Like" x_over_sql (literal "abc%"))
  = Ok (Some (comparison "Like" x_over_sql (literal "abc%"))).
Proof.
  apply (like_over_sql_source_is_kept no_format column_handle untyped
           (comparison "Like" x_over_sql (literal "abc%")) x_over_sql
           (literal "abc%") "Like" "abc%"); try reflexivity.
  - apply (bool_decide_unpack _). vm_compute. exact I.
  - cbn. discriminate.
  - right. left. apply (bool_decide_unpack _). vm_compute. exact I.
Defined.

Lemma in_list_of_one_value_becomes_equality_witness :
  _rewrite_predicate no_format column_handle untyped
    (in_list "InList" x_on_disk [AInt 7])
  = Ok (Some (comparison "Eq" x_on_disk
                (set_type (Orso INTEGER)
                   (set_value (PInt 7) (new_node LITERAL))))).
Proof.
  refine (proj1 (in_list_of_one_value_becomes_equality no_format column_handle
                   untyped (in_list "InList" x_on_disk [AInt 7])
                   (set_sub_type (Orso INTEGER)
                      (set_value (PList [AInt 7]) (new_node LITERAL)))
                   "InList" (AInt 7) _ _ _ _ _) _); reflexivity.
Defined.

Lemma any_op_eq_against_literal_becomes_in_list_witness :
  _rewrite_predicate no_format column_handle untyped
    (in_list "AnyOpEq" x_on_disk [AInt 7; AInt 8])
  = Ok (Some (in_list "InList" x_on_disk [AInt 7; AInt 8])).
Proof.
  refine (proj1 (any_op_eq_against_literal_becomes_in_list no_format
                   column_handle untyped
                   (in_list "AnyOpEq" x_on_disk [AInt 7; AInt 8]) x_on_disk
                   (set_sub_type (Orso INTEGER)
                      (set_value (PList [AInt 7; AInt 8]) (new_node LITERAL)))
                   [AInt 7; AInt 8] (AInt 0) _ _ _ _ _) _ _ _);
    try reflexivity.
  - cbn. discriminate.
  - cbn. discriminate.
Defined.

Lemma adjacent_wildcards_are_collapsed_witness :
  ∃ pat',
    remove_adjacent_wildcards
      (comparison "Like" x_on_disk (literal "a%%%b%%"))
    = Ok (comparison "Like" x_on_disk (literal pat'))
    /\ str_contains "%%" pat' = false.
Proof.
  destruct (adjacent_wildcards_are_collapsed
              (comparison "Like" x_on_disk (literal "a%%%b%%"))
              (literal "a%%%b%%") "a%%%b%%" eq_refl eq_refl)
    as (pat' & Hrun & Hnone & _).
  exists pat'. split; [exact Hrun|exact Hnone].
Defined.

Lemma interval_subtraction_is_moved_to_the_right_witness :
  _rewrite_predicate no_format column_handle every_interval
    (comparison "Gt" difference one_day)
  = Ok (Some (reordered no_format column_handle
                (comparison "Gt" difference one_day) difference one_day)).
Proof.
  refine (proj1 (interval_subtraction_is_moved_to_the_right no_format
                   column_handle every_interval
                   (comparison "Gt" difference one_day) difference one_day
                   "Gt" _ _ _ _ _ _ _ _ _)); try reflexivity.
  apply (bool_decide_unpack _). vm_compute. exact I.
Defined.

Lemma interval_comparison_without_subtraction_is_lost_witness :
  _rewrite_predicate no_format column_handle every_interval
    (comparison "Gt" total one_day)
  = Ok None.
Proof.
  apply (interval_comparison_without_subtraction_is_lost no_format
           column_handle every_interval (comparison "Gt" total one_day) total
           one_day "Gt"); try reflexivity.
  apply (bool_decide_unpack _). vm_compute. exact I.
Defined.

End PredicateRewriterRules.


(** ** Properties of the binder *)

Module BinderSpec.
Import Orso Binder.

(** *** Expression identity *)

Section Identity.
Variable CityHash64 : string -> Z.
Variable format_expression : Node loc -> string.
Variable py_str : Payload (Node loc) -> string.

Abbreviation inner := (Binder.inner CityHash64 py_str).
Abbreviation hash_tree := (Binder.hash_tree CityHash64 format_expression py_str).

(** The operands of a node, in the order of section 4.1 of the
    specification. *)
Definition operands (node : Node loc) : list (Node loc) :=
  option_list (left node) ++ option_list (centre node)
  ++ option_list (right node) ++ parameters node.

Definition xor_fold (hs : list Z) : Z := foldr Z.lxor 0%Z hs.

(** The fallbacks, in order; 0 when none applies. *)
Definition fallback (σ : Store) (node : Node loc) : Z :=
  match identity node, schema_column node, value node with
  | Some i, _, _ => CityHash64 i
  | None, Some c, _ => CityHash64 (identity_at σ c)
  | None, None, PNone =>
      if bool_decide (node_type node = WILDCARD)
      then CityHash64 (str_of_optional (source node) +:+ "*")
      else 0%Z
  | None, None, v => CityHash64 (py_str v)
  end.

(** XOR is associative and commutative: compare bit by bit. *)
Ltac xor_ac :=
  apply Z.bits_inj'; intros ? _; rewrite ?Z.lxor_spec;
  repeat match goal with
         | |- context [Z.testbit ?a ?n] => destruct (Z.testbit a n)
         end;
  reflexivity.

Lemma fold_left_xor (f : Node loc -> Z) (ps : list (Node loc)) (h : Z) :
  fold_left (λ h p, Z.lxor h (f p)) ps h = Z.lxor h (xor_fold (map f ps)).
Proof.
  revert h. induction ps as [|p ps IH]; intros h; cbn.
  - by rewrite Z.lxor_0_r.
  - by rewrite IH, Z.lxor_assoc.
Qed.

Lemma xor_fold_app (xs ys : list Z) :
  xor_fold (xs ++ ys) = Z.lxor (xor_fold xs) (xor_fold ys).
Proof.
  unfold xor_fold. induction xs as [|x xs IH]; cbn; [done|].
  by rewrite IH, Z.lxor_assoc.
Qed.

Lemma inner_unfold (σ : Store) (node : Node loc) :
  inner σ node =
  let fold := xor_fold (map (inner σ) (operands node)) in
  if Z.eqb fold 0 then fallback σ node else fold.
Proof.
  destruct node as [nt l r c ps v t st al so sc cn qc k i dn sn fn df].
  cbn [Binder.inner]. cbv zeta. unfold operands, fallback.
  cbn [left right centre parameters identity schema_column value node_type
       source].
  rewrite fold_left_xor.
  set (hl := match l with Some l0 => Z.lxor 0 (inner σ l0) | None => 0%Z end).
  assert (Z.lxor
            (match c with
             | Some c0 =>
                 Z.lxor match r with
                        | Some r0 => Z.lxor hl (inner σ r0)
                        | None => hl
                        end (inner σ c0)
             | None => match r with
                       | Some r0 => Z.lxor hl (inner σ r0)
                       | None => hl
                       end
             end) (xor_fold (map (inner σ) ps))
          = xor_fold (map (inner σ)
                        (option_list l ++ option_list c ++ option_list r ++ ps)))
    as ->.
  { rewrite !map_app, !xor_fold_app. subst hl.
    destruct l, c, r; cbn; rewrite ?Z.lxor_0_r, ?Z.lxor_0_l; xor_ac. }
  destruct (Z.eqb_spec
              (xor_fold
                 (map (inner σ)
                    (option_list l ++ option_list c ++ option_list r ++ ps)))
              0) as [E|]; [|done].
  rewrite ?E. destruct i, k, v; reflexivity.
Qed.

(** *** What the identity depends on *)

(** Two payloads that [inner] cannot tell apart: both are [None], or neither
    is and [str] gives the same text for them. *)
Definition same_text (v v' : Payload (Node loc)) : Prop :=
  match v, v' with
  | PNone, PNone => True
  | PNone, _ | _, PNone => False
  | _, _ => py_str v = py_str v'
  end.

(** Two schema columns, each in its own store, with the same identity; or no
    column on either side. *)
Definition same_column (σ σ' : Store) (c c' : option loc) : Prop :=
  match c, c' with
  | Some c, Some c' => identity_at σ c = identity_at σ' c'
  | None, None => True
  | _, _ => False
  end.

(** Two nodes of the same shape, each with its own store (a run of the
    engine): the same node type, source and identity attribute, payloads of
    the same text, schema columns of the same identity, and operands of the
    same shape, one by one.  The locations of the column objects, what else
    the stores hold, and the other attributes of the nodes are free. *)
Fixpoint alike (σ σ' : Store) (node node' : Node loc) {struct node} : Prop :=
  node_type node = node_type node'
  /\ source node = source node'
  /\ identity node = identity node'
  /\ same_text (value node) (value node')
  /\ same_column σ σ' (schema_column node) (schema_column node')
  /\ match left node, left node' with
     | Some l, Some l' => alike σ σ' l l'
     | None, None => True
     | _, _ => False
     end
  /\ match right node, right node' with
     | Some r, Some r' => alike σ σ' r r'
     | None, None => True
     | _, _ => False
     end
  /\ match centre node, centre node' with
     | Some c, Some c' => alike σ σ' c c'
     | None, None => True
     | _, _ => False
     end
  /\ (fix all (ps ps' : list (Node loc)) : Prop :=
        match ps, ps' with
        | [], [] => True
        | p :: ps, p' :: ps' => alike σ σ' p p' /\ all ps ps'
        | _, _ => False
        end) (parameters node) (parameters node').

Lemma fallback_alike (σ σ' : Store) (node node' : Node loc) :
  node_type node = node_type node' -> source node = source node' ->
  identity node = identity node' ->
  same_text (value node) (value node') ->
  same_column σ σ' (schema_column node) (schema_column node') ->
  fallback σ node = fallback σ' node'.
Proof.
  unfold fallback, same_text, same_column. intros -> -> -> Hvalue Hcolumn.
  destruct (identity node') as [i|]; [done|].
  destruct (schema_column node) as [c|], (schema_column node') as [c'|];
    try done; [by rewrite Hcolumn|].
  destruct (value node), (value node'); try done; by rewrite Hvalue.
Qed.

(** Nodes of the same shape have the same operand hash. *)
Lemma inner_alike (σ σ' : Store) :
  ∀ node node', alike σ σ' node node' -> inner σ node = inner σ' node'.
Proof.
  fix IH 1. intros node node' Halike.
  rewrite (inner_unfold σ node), (inner_unfold σ' node'). cbv zeta.
  destruct node as [nt l r c ps v t st al so sc cn qc k i dn sn fn df].
  destruct node' as [nt' l' r' c' ps' v' t' st' al' so' sc' cn' qc' k' i' dn'
                      sn' fn' df'].
  cbn [alike node_type source identity value schema_column left right centre
       parameters] in Halike.
  destruct Halike as (Hnt & Hso & Hi & Hv & Hk & Hl & Hr & Hc & Hps).
  assert (map (inner σ)
            (operands (mkNode nt l r c ps v t st al so sc cn qc k i dn sn fn
                         df))
          = map (inner σ')
              (operands (mkNode nt' l' r' c' ps' v' t' st' al' so' sc' cn' qc'
                           k' i' dn' sn' fn' df'))) as ->.
  { unfold operands. cbn [left right centre parameters]. rewrite !map_app.
    f_equal; [|f_equal; [|f_equal]].
    - destruct l as [l|], l' as [l'|]; try done. cbn -[Binder.inner].
      by rewrite (IH l l' Hl).
    - destruct c as [c|], c' as [c'|]; try done. cbn -[Binder.inner].
      by rewrite (IH c c' Hc).
    - destruct r as [r|], r' as [r'|]; try done. cbn -[Binder.inner].
      by rewrite (IH r r' Hr).
    - clear -IH Hps. revert ps' Hps.
      induction ps as [|p ps IHps]; intros [|p' ps'] Hps; try done.
      destruct Hps as [Hp Hps]. cbn -[Binder.inner]. rewrite (IH p p' Hp).
      by rewrite (IHps ps' Hps). }
  match goal with
  | |- context [fallback σ ?n] =>
      match goal with
      | |- context [fallback σ' ?n'] =>
          rewrite (fallback_alike σ σ' n n' Hnt Hso Hi Hv Hk)
      end
  end.
  done.
Qed.

(** C5 (as amended).  [hash_tree] is [hex], without its prefix, of the hash
    of the formatted node XOR [inner]; [inner] is the XOR-fold of the [inner]
    hashes of the operands when that fold is not 0, and otherwise the first
    fallback that applies, in the order identity, identity of the schema column,
    stringified value, source followed by a star for a WILDCARD, and 0 when
    none applies.  The identity is a function of the shape of the node alone:
    two nodes of the same shape that are formatted alike have the same
    identity, in whatever store each of them lives, so that equal inputs give
    equal identities across runs.  Nothing makes the identity different from
    0. *)
Theorem hash_tree_is_xor_of_format_and_inner (σ : Store) (node : Node loc) :
  hash_tree σ node
  = drop_two (hex (Z.lxor (CityHash64 (format_expression node))
                          (inner σ node)))
  /\ inner σ node
     = (let fold := xor_fold (map (inner σ) (operands node)) in
        if Z.eqb fold 0 then fallback σ node else fold)
  /\ ∀ σ' node',
       alike σ σ' node node' ->
       format_expression node' = format_expression node ->
       hash_tree σ' node' = hash_tree σ node.
Proof.
  split; [reflexivity|]. split; [apply inner_unfold|].
  intros σ' node' Halike Hformat. unfold Binder.hash_tree.
  by rewrite Hformat, (inner_alike σ σ' node node' Halike).
Qed.

End Identity.

(** A store with nothing in it, and two nodes: an AND without operands, and
    an identifier whose identity is the text it is formatted as. *)
Definition empty_store : Store := mkStore [] [] 0.

Definition by_name (node : Node loc) : string :=
  str_of_optional (source_column node).

Definition x_named_x : Node loc :=
  mkNode IDENTIFIER None None None [] (PStr "x") NoType NoType None None
         (Some "x") (Some "x") None None (Some "x") false None None None.

(** C5 as stated fails, whatever the hash function: no fallback applies to a
    bare AND, whose [inner] is 0; and the identity of a node whose own identity
    is the text it is formatted as is ["0"]. *)
Lemma identity_can_be_zero :
  (∀ CityHash64 py_str,
      Binder.inner CityHash64 py_str empty_store (new_node AND) = 0%Z)
  /\ (∀ CityHash64 py_str,
        Binder.hash_tree CityHash64 by_name py_str empty_store x_named_x = "0").
Proof.
  split; intros h s; [reflexivity|].
  unfold Binder.hash_tree. cbn. by rewrite Z.lxor_nilpotent.
Qed.

(** Two runs.  In the first the column [total] is the only column object; in
    the second it comes after another one, and the store has drawn five
    identities already.  The expression [total * 2] refers to the column at
    its location in each run, and is known by an alias in the second. *)
Definition total_column : Column :=
  mkColumn FlatColumn "total" (Some []) (Orso INTEGER) PNone "c2" [] true None.

Definition one_run : Store := mkStore [total_column] [] 0.

Definition another_run : Store :=
  mkStore
    [mkColumn FlatColumn "id" (Some []) (Orso INTEGER) PNone "c0" [] true None;
     total_column]
    [] 5.

Definition total_at (c : loc) : Node loc :=
  mkNode IDENTIFIER None None None [] (PStr "total") NoType NoType None None
         (Some "total") (Some "total") None (Some c) None false None None None.

Definition doubled (alias : option string) (operand : Node loc) : Node loc :=
  mkNode BINARY_OPERATOR (Some operand)
         (Some (mkNode LITERAL None None None [] (PInt 2) (Orso INTEGER) NoType
                       None None None None None None None false None None
                       None))
         None [] (PStr "Multiply") NoType NoType alias None (Some "total * 2")
         None None None None false None None None.

Definition text_of (v : Payload (Node loc)) : string :=
  match v with
  | PStr s => s
  | PInt z => hex z
  | _ => ""
  end.

Lemma hash_tree_is_xor_of_format_and_inner_witness :
  Binder.hash_tree (λ s, Z.of_nat (String.length s) + 1)%Z by_name text_of
    another_run (doubled (Some "twice") (total_at 1))
  = Binder.hash_tree (λ s, Z.of_nat (String.length s) + 1)%Z by_name text_of
      one_run (doubled None (total_at 0)).
Proof.
  apply (proj2 (proj2 (hash_tree_is_xor_of_format_and_inner
                         (λ s, Z.of_nat (String.length s) + 1)%Z by_name
                         text_of one_run (doubled None (total_at 0))))).
  - cbn. repeat split.
  - reflexivity.
Defined.

(** *** Well-formed stores, and what [find_column] finds *)

(** A column is named [text] when [text] is its name or one of its aliases. *)
Definition named (text : string) (x : Column) : Prop :=
  name x = text \/ AliasName text ∈ default [] (aliases x).

Lemma known_as_named (text : string) (x : Column) :
  known_as (Some text) x = true <-> named text x.
Proof.
  unfold known_as, named, all_names. cbn [existsb entry_is].
  rewrite orb_true_iff, String.eqb_eq, existsb_exists.
  split; (intros [H|H]; [by left|right]).
  - destruct H as (e & Hin & He). destruct e as [s|]; [|done].
    apply String.eqb_eq in He as ->. by apply list_elem_of_In.
  - exists (AliasName text). split; [by apply list_elem_of_In|].
    cbn. apply String.eqb_refl.
Qed.

(** Every location of [cs] is a column object of the store. *)
Definition valid_columns (σ : Store) (cs : list loc) : Prop :=
  Forall (λ c, is_Some (column_objects σ !! c)) cs.

(** [r] is a relation schema of the store, over column objects of the
    store. *)
Definition valid_schema (σ : Store) (r : loc) : Prop :=
  ∃ s, relation_objects σ !! r = Some s /\ valid_columns σ (columns s).

(** The values of an environment are relation schemas of the store: what
    the annotation [Dict[str, RelationSchema]] promises. *)
Definition well_formed (σ : Store) (es : list Entry) : Prop :=
  Forall (λ e, ∃ r, e = SchemaRef r /\ valid_schema σ r) es.

(** The first of the columns [cs] known by [text]. *)
Fixpoint first_known (σ : Store) (text : option string) (cs : list loc) :
    option loc :=
  match cs with
  | [] => None
  | c :: rest =>
      match column_objects σ !! c with
      | Some x => if known_as text x then Some c else first_known σ text rest
      | None => None
      end
  end.

Lemma find_among_first_known σ text cs :
  valid_columns σ cs ->
  find_among text cs σ = Ok (first_known σ text cs, σ).
Proof.
  induction 1 as [|c cs [x Hx] _ IH]; [reflexivity|].
  cbn [find_among first_known]. unfold Schema.bind, get_column.
  rewrite Hx. destruct (known_as text x); [reflexivity|apply IH].
Qed.

Lemma find_column_first_known σ r s text :
  relation_objects σ !! r = Some s -> valid_columns σ (columns s) ->
  find_column r text σ = Ok (first_known σ text (columns s), σ).
Proof.
  intros Hr Hcs. unfold find_column, Schema.bind, get_relation.
  rewrite Hr. by apply find_among_first_known.
Qed.

Lemma first_known_Some σ text cs c :
  first_known σ text cs = Some c ->
  c ∈ cs /\ ∃ x, column_objects σ !! c = Some x /\ known_as text x = true.
Proof.
  induction cs as [|c' cs IH]; [done|]. cbn [first_known].
  destruct (column_objects σ !! c') as [x|] eqn:Hx; [|done].
  destruct (known_as text x) eqn:Hk.
  - intros [= <-]. split; [left|]. eauto.
  - intros H. destruct (IH H) as [Hin Hc]. split; [by right|done].
Qed.

Lemma first_known_None σ text cs c x :
  first_known σ text cs = None -> valid_columns σ cs ->
  c ∈ cs -> column_objects σ !! c = Some x -> known_as text x = false.
Proof.
  intros Hnone Hvalid. revert Hnone.
  induction Hvalid as [|c' cs [x' Hx'] _ IH]; intros Hnone Hin Hx.
  - by apply elem_of_nil in Hin.
  - cbn [first_known] in Hnone. rewrite Hx' in Hnone.
    destruct (known_as text x') eqn:Hk; [done|].
    apply elem_of_cons in Hin as [->|Hin]; [congruence|by apply IH].
Qed.

(** The schema [r] has a column named [text]. *)
Definition has_column_named (σ : Store) (text : string) (r : loc) : Prop :=
  ∃ s c x, relation_objects σ !! r = Some s /\ c ∈ columns s
           /\ column_objects σ !! c = Some x /\ named text x.

Lemma find_column_finds σ r text :
  valid_schema σ r -> has_column_named σ text r ->
  ∃ c, find_column r (Some text) σ = Ok (Some c, σ).
Proof.
  intros (s & Hr & Hcs) (s' & c & x & Hr' & Hin & Hx & Hnamed).
  assert (s' = s) as -> by congruence.
  rewrite (find_column_first_known _ _ _ _ Hr Hcs).
  destruct (first_known σ (Some text) (columns s)) as [c'|] eqn:E; [eauto|].
  apply known_as_named in Hnamed.
  by rewrite (first_known_None _ _ _ _ _ E Hcs Hin Hx) in Hnamed.
Qed.

Lemma find_column_total σ r text :
  valid_schema σ r -> ∃ found, find_column r text σ = Ok (found, σ).
Proof.
  intros (s & Hr & Hcs). rewrite (find_column_first_known _ _ _ _ Hr Hcs).
  eauto.
Qed.

(** *** The search over the candidate schemas *)

Lemma locate_loop_second_match σ text es c0 r0 r :
  well_formed σ es -> SchemaRef r ∈ es -> has_column_named σ text r ->
  locate_loop (Some text) es (Some c0) (Some r0) σ
  = Raise (AmbiguousIdentifierError (Some text)).
Proof.
  intros Hwf. revert c0 r0.
  induction Hwf as [|e es (r' & -> & Hvalid) _ IH]; intros c0 r0 Hin Hhas.
  - by apply elem_of_nil in Hin.
  - cbn [locate_loop as_schema]. unfold Schema.bind at 1. cbn [ret].
    unfold Schema.bind at 1.
    destruct (find_column_total σ r' (Some text) Hvalid) as [found Hfound].
    rewrite Hfound. destruct found as [c|]; [reflexivity|].
    apply elem_of_cons in Hin as [[= ->]|Hin]; [|by apply IH].
    destruct (find_column_finds σ r' text Hvalid Hhas) as [c Hc]. congruence.
Qed.

Lemma locate_loop_two_matches σ text e1s r1 e2s r2 e3s column relation :
  well_formed σ (e1s ++ SchemaRef r1 :: e2s ++ SchemaRef r2 :: e3s) ->
  has_column_named σ text r1 -> has_column_named σ text r2 ->
  locate_loop (Some text) (e1s ++ SchemaRef r1 :: e2s ++ SchemaRef r2 :: e3s)
    column relation σ
  = Raise (AmbiguousIdentifierError (Some text)).
Proof.
  intros Hwf Hhas1 Hhas2. revert column relation.
  induction e1s as [|e e1s IH]; intros column relation.
  - cbn [app] in *. apply Forall_cons in Hwf as [(r & [= <-] & Hvalid) Hrest].
    cbn [locate_loop as_schema]. unfold Schema.bind at 1. cbn [ret].
    unfold Schema.bind at 1.
    destruct (find_column_finds σ r1 text Hvalid Hhas1) as [c ->].
    destruct (truthy_object column && truthy_object relation); [done|].
    apply (locate_loop_second_match σ text _ c r1 r2); [done| |done].
    apply elem_of_app. right. left.
  - cbn [app] in *. apply Forall_cons in Hwf as [(r & -> & Hvalid) Hrest].
    cbn [locate_loop as_schema]. unfold Schema.bind at 1. cbn [ret].
    unfold Schema.bind at 1.
    destruct (find_column_total σ r (Some text) Hvalid) as [found ->].
    destruct found as [c|]; [|by apply IH].
    destruct (truthy_object column && truthy_object relation); [done|].
    apply (locate_loop_second_match σ text _ c r r1); [done| |done].
    apply elem_of_app. right. left.
Qed.

(** The keys that [locate_identifier] keeps as candidates for a node: every
    key when the node names no source, else the source itself and the keys
    that start with ["$shared"]. *)
Definition candidate_key (node : Node loc) (key : string) : Prop :=
  truthy_str (source node) = false
  \/ startswith "$shared" key = true
  \/ source node = Some key.

Lemma candidate_key_kept node key :
  candidate_key node key -> truthy_str (source node) = true ->
  is_candidate (source node) key = true.
Proof.
  unfold is_candidate. intros [H|[H|H]] Htrue.
  - congruence.
  - by rewrite H.
  - rewrite H. rewrite String.eqb_refl. apply orb_true_r.
Qed.

Lemma well_formed_filter σ (P : string * Entry -> Prop)
    `{∀ kv, Decision (P kv)} (d : dict Entry) :
  well_formed σ (values d) -> well_formed σ (values (filter P d)).
Proof.
  unfold well_formed, values. rewrite !Forall_map.
  intros Hwf. apply Forall_forall. intros kv [_ Hin]%list_elem_of_filter.
  rewrite Forall_forall in Hwf. by apply Hwf.
Qed.

Lemma candidates_two σ node before k1 r1 between k2 r2 after :
  well_formed σ
    (values (before ++ (k1, SchemaRef r1) :: between
             ++ (k2, SchemaRef r2) :: after)) ->
  candidate_key node k1 -> candidate_key node k2 ->
  ∃ e1s e2s e3s,
    values (candidates (source node)
              (before ++ (k1, SchemaRef r1) :: between
               ++ (k2, SchemaRef r2) :: after))
    = e1s ++ SchemaRef r1 :: e2s ++ SchemaRef r2 :: e3s
    /\ well_formed σ (e1s ++ SchemaRef r1 :: e2s ++ SchemaRef r2 :: e3s).
Proof.
  intros Hwf H1 H2. unfold candidates.
  destruct (truthy_str (source node)) eqn:Htruthy.
  - apply (well_formed_filter σ
             (λ kv, is_candidate (source node) (fst kv) = true)) in Hwf.
    rewrite filter_app, filter_cons_True, filter_app, filter_cons_True in Hwf
      by (by apply candidate_key_kept).
    rewrite filter_app, filter_cons_True, filter_app, filter_cons_True
      by (by apply candidate_key_kept).
    unfold values in *.
    rewrite map_app, (map_cons snd), map_app, (map_cons snd) in *. eauto.
  - unfold values in *.
    rewrite map_app, (map_cons snd), map_app, (map_cons snd) in *. eauto.
Qed.

Lemma find_column_misses σ r text :
  valid_schema σ r -> ¬ has_column_named σ text r ->
  find_column r (Some text) σ = Ok (None, σ).
Proof.
  intros (s & Hr & Hcs) Hnot.
  rewrite (find_column_first_known _ _ _ _ Hr Hcs).
  destruct (first_known σ (Some text) (columns s)) as [c|] eqn:E; [|done].
  destruct (first_known_Some _ _ _ _ E) as (Hin & x & Hx & Hk).
  destruct Hnot. exists s, c, x. by rewrite <- known_as_named.
Qed.

Lemma locate_loop_no_match σ text es column relation :
  well_formed σ es ->
  (∀ r, SchemaRef r ∈ es -> ¬ has_column_named σ text r) ->
  locate_loop (Some text) es column relation σ = Ok ((column, relation), σ).
Proof.
  induction 1 as [|e es (r & -> & Hvalid) _ IH]; intros Hnone; [done|].
  cbn [locate_loop as_schema]. unfold Schema.bind at 1. cbn [ret].
  unfold Schema.bind at 1.
  rewrite (find_column_misses σ r text Hvalid) by (apply Hnone; left).
  apply IH. intros r' Hin. apply Hnone. by right.
Qed.

Lemma locate_loop_one_match σ text e1s r e3s s c :
  well_formed σ (e1s ++ SchemaRef r :: e3s) ->
  (∀ r', SchemaRef r' ∈ e1s ++ e3s -> ¬ has_column_named σ text r') ->
  relation_objects σ !! r = Some s ->
  first_known σ (Some text) (columns s) = Some c ->
  locate_loop (Some text) (e1s ++ SchemaRef r :: e3s) None None σ
  = Ok ((Some c, Some r), σ).
Proof.
  intros Hwf Hnone Hr Hc.
  induction e1s as [|e e1s IH]; cbn [app] in *.
  - apply Forall_cons in Hwf as [(r' & [= <-] & (s' & Hr' & Hcs)) Hrest].
    assert (s' = s) as -> by congruence.
    cbn [locate_loop as_schema]. unfold Schema.bind at 1. cbn [ret].
    unfold Schema.bind at 1.
    rewrite (find_column_first_known _ _ _ _ Hr Hcs), Hc. cbn.
    by apply locate_loop_no_match.
  - apply Forall_cons in Hwf as [(r' & -> & Hvalid) Hrest].
    cbn [locate_loop as_schema]. unfold Schema.bind at 1. cbn [ret].
    unfold Schema.bind at 1.
    rewrite (find_column_misses σ r' text Hvalid) by (apply Hnone; left).
    apply IH; [done|]. intros r'' Hin. apply Hnone. by right.
Qed.

Lemma kept_is_candidate_key node key :
  truthy_str (source node) = true ->
  is_candidate (source node) key = true -> candidate_key node key.
Proof.
  unfold is_candidate, candidate_key.
  intros Htruthy [H|H]%orb_true_iff; [auto|].
  destruct (source node) as [s|]; [|done].
  apply String.eqb_eq in H as ->. auto.
Qed.

Lemma candidates_one σ node before k r after :
  well_formed σ (values (before ++ (k, SchemaRef r) :: after)) ->
  candidate_key node k ->
  ∃ e1s e3s,
    values (candidates (source node) (before ++ (k, SchemaRef r) :: after))
    = e1s ++ SchemaRef r :: e3s
    /\ well_formed σ (e1s ++ SchemaRef r :: e3s)
    /\ ∀ r', SchemaRef r' ∈ e1s ++ e3s ->
             ∃ k', (k', SchemaRef r') ∈ before ++ after
                   /\ candidate_key node k'.
Proof.
  intros Hwf Hk. unfold candidates.
  destruct (truthy_str (source node)) eqn:Htruthy.
  - apply (well_formed_filter σ
             (λ kv, is_candidate (source node) (fst kv) = true)) in Hwf.
    rewrite filter_app, filter_cons_True in Hwf
      by (by apply candidate_key_kept).
    rewrite filter_app, filter_cons_True by (by apply candidate_key_kept).
    unfold values in *. rewrite map_app, (map_cons snd) in *.
    eexists _, _. split; [done|]. split; [done|].
    intros r' Hin. rewrite <- map_app, <- filter_app in Hin.
    apply list_elem_of_In, in_map_iff in Hin as ([k' e] & [= ->] & Hin).
    apply list_elem_of_In, list_elem_of_filter in Hin as [Hkept Hin].
    exists k'. split; [done|]. by apply kept_is_candidate_key.
  - unfold values in *. rewrite map_app, (map_cons snd) in *.
    eexists _, _. split; [done|]. split; [done|].
    intros r' Hin. rewrite <- map_app in Hin.
    apply list_elem_of_In, in_map_iff in Hin as ([k' e] & [= ->] & Hin).
    exists k'. split; [by apply list_elem_of_In|]. by left.
Qed.

(** *** Schema union *)

(** The store [σ'] extends [σ]: every object of [σ] is in [σ'], unchanged;
    objects may have been added. *)
Definition extends (σ σ' : Store) : Prop :=
  column_objects σ `prefix_of` column_objects σ'
  /\ relation_objects σ `prefix_of` relation_objects σ'
  /\ drawn σ' = drawn σ.

#[local] Instance extends_reflexive : Reflexive extends.
Proof. by intros σ. Qed.

#[local] Instance extends_transitive : Transitive extends.
Proof.
  intros σ1 σ2 σ3 (Hc & Hr & Hd) (Hc' & Hr' & Hd').
  split; [by etrans|]. split; [by etrans|congruence].
Qed.

(** Schemas as values: a name and the columns, and what a location holds. *)
Definition SchemaValue : Type := string * list Column.

Definition columns_are (σ : Store) (cs : list loc) (xs : list Column) : Prop :=
  Forall2 (λ c x, column_objects σ !! c = Some x) cs xs.

Definition schema_is (σ : Store) (r : loc) (v : SchemaValue) : Prop :=
  ∃ s, relation_objects σ !! r = Some s /\ relation_name s = fst v
       /\ columns_are σ (columns s) (snd v).

(** Two [dict]s with the same keys in the same order, and related values. *)
Definition dict_rel {A B} (R : A -> B -> Prop) (d : dict A) (d' : dict B) :
    Prop :=
  Forall2 (λ x y, fst x = fst y /\ R (snd x) (snd y)) d d'.

(** A [dict] of schema objects and the [dict] of values it stands for. *)
Definition entry_holds (σ : Store) (e : Entry) (v : SchemaValue) : Prop :=
  ∃ r, e = SchemaRef r /\ schema_is σ r v.

Definition environment_is (σ : Store) (d : dict Entry) (v : dict SchemaValue) :
    Prop :=
  dict_rel (entry_holds σ) d v.

(** The same, for a [dict] built since the store was [σ0]: its schema objects
    did not exist then. *)
Definition new_entry_holds (σ0 σ : Store) (e : Entry) (v : SchemaValue) : Prop :=
  ∃ r, e = SchemaRef r /\ length (relation_objects σ0) <= r
       /\ schema_is σ r v.

Lemma dict_rel_get {A B} (R : A -> B -> Prop) d d' key :
  dict_rel R d d' ->
  match dict_get key d, dict_get key d' with
  | Some a, Some b => R a b
  | None, None => True
  | _, _ => False
  end.
Proof.
  induction 1 as [|[k a] [k' b] d d' [Hk HR] _ IH]; [done|].
  cbn in Hk, HR. subst k'. cbn [dict_get].
  by destruct (String.eqb k key).
Qed.

Lemma dict_rel_set {A B} (R : A -> B -> Prop) d d' key a b :
  dict_rel R d d' -> R a b -> dict_rel R (dict_set key a d) (dict_set key b d').
Proof.
  intros Hd HR.
  induction Hd as [|[k a'] [k' b'] d d' [Hk HR'] Hd IH]; cbn [dict_set].
  - by repeat constructor.
  - cbn in Hk, HR'. subst k'. destruct (String.eqb k key).
    + by constructor.
    + by constructor.
Qed.

Lemma dict_rel_impl {A B} (R R' : A -> B -> Prop) d d' :
  (∀ a b, R a b -> R' a b) -> dict_rel R d d' -> dict_rel R' d d'.
Proof.
  intros HR Hd. eapply Forall2_impl; [exact Hd|].
  intros x y [Hk Hxy]. split; [done|by apply HR].
Qed.

(** Merging, in the words of the specification (section 4.2.2): a new key
    takes the schema; a key met before takes the union of the two schemas by
    column identity. *)
Fixpoint unseen_values (seen : list string) (xs : list Column) : list Column :=
  match xs with
  | [] => []
  | x :: rest =>
      if bool_decide (column_identity x ∈ seen) then unseen_values seen rest
      else x :: unseen_values (seen ++ [column_identity x]) rest
  end.

Definition union_by_identity (a b : SchemaValue) : SchemaValue :=
  (fst a, snd a ++ unseen_values (map column_identity (snd a)) (snd b)).

Fixpoint merge_values (items : dict SchemaValue) (merged : dict SchemaValue) :
    dict SchemaValue :=
  match items with
  | [] => merged
  | (key, v) :: rest =>
      match dict_get key merged with
      | Some existing =>
          merge_values rest (dict_set key (union_by_identity existing v) merged)
      | None => merge_values rest (dict_set key v merged)
      end
  end.

Definition merged_values (vs : list (dict SchemaValue)) : dict SchemaValue :=
  fold_left (λ merged items, merge_values items merged) vs [].

Lemma columns_are_extends σ σ' cs xs :
  extends σ σ' -> columns_are σ cs xs -> columns_are σ' cs xs.
Proof.
  intros (Hc & _) H. unfold columns_are. eapply Forall2_impl; [exact H|].
  intros c x Hx. exact (prefix_lookup_Some _ _ _ _ Hx Hc).
Qed.

Lemma schema_is_extends σ σ' r v :
  extends σ σ' -> schema_is σ r v -> schema_is σ' r v.
Proof.
  intros Hext (s & Hs & Hn & Hcs). exists s.
  split; [|split; [done|by eapply columns_are_extends]].
  destruct Hext as (_ & Hr & _). exact (prefix_lookup_Some _ _ _ _ Hs Hr).
Qed.

Lemma environment_is_extends σ σ' d v :
  extends σ σ' -> environment_is σ d v -> environment_is σ' d v.
Proof.
  intros Hext. apply dict_rel_impl. intros e w (r & He & Hr).
  exists r. split; [done|]. by eapply schema_is_extends.
Qed.

Lemma identities_are σ cs xs :
  columns_are σ cs xs ->
  identities cs σ = Ok (map column_identity xs, σ).
Proof.
  induction 1 as [|c x cs xs Hx _ IH]; [done|].
  cbn [identities map]. unfold Schema.bind at 1, get_column. rewrite Hx.
  unfold Schema.bind at 1. by rewrite IH.
Qed.

Lemma unseen_are σ seen cs xs :
  columns_are σ cs xs ->
  ∃ extra, unseen seen cs σ = Ok (extra, σ)
           /\ columns_are σ extra (unseen_values seen xs).
Proof.
  intros H. revert seen.
  induction H as [|c x cs xs Hx _ IH]; intros seen.
  - exists []. by split; [|constructor].
  - cbn [unseen unseen_values]. unfold Schema.bind at 1, get_column.
    rewrite Hx. case_bool_decide; [apply IH|].
    destruct (IH (seen ++ [column_identity x])) as (extra & Hun & Hextra).
    exists (c :: extra).
    split; [unfold Schema.bind; by rewrite Hun|by constructor].
Qed.

Lemma add_is σ a b va vb :
  schema_is σ a va -> schema_is σ b vb ->
  ∃ σ', Orso.add a b σ = Ok (length (relation_objects σ), σ')
        /\ extends σ σ'
        /\ schema_is σ' (length (relation_objects σ)) (union_by_identity va vb).
Proof.
  intros (sa & Ha & Hna & Hca) (sb & Hb & Hnb & Hcb).
  destruct (unseen_are σ (map column_identity (snd va)) _ _ Hcb)
    as (extra & Hunseen & Hextra).
  eexists. split; [|split].
  - unfold Orso.add. unfold Schema.bind at 1, get_relation at 1. rewrite Ha.
    unfold Schema.bind at 1, get_relation at 1. rewrite Hb.
    unfold Schema.bind at 1. rewrite (identities_are _ _ _ Hca).
    unfold Schema.bind at 1. rewrite Hunseen. reflexivity.
  - split; [done|]. split; [by apply prefix_app_r|done].
  - eexists. split; [|split].
    + cbn [relation_objects]. by rewrite lookup_app_r, Nat.sub_diag.
    + done.
    + cbn [columns union_by_identity snd]. by apply Forall2_app.
Qed.

(** The memo of one [deepcopy]: each column copied so far and its copy,
    which did not exist when the store had [n0] columns and holds what the
    original holds. *)
Definition memo_ok (σ : Store) (n0 : nat) (memo : list (loc * loc)) : Prop :=
  Forall (λ m, n0 <= snd m
               /\ ∃ x, column_objects σ !! fst m = Some x
                       /\ column_objects σ !! snd m = Some x) memo.

Lemma memo_ok_extends σ σ' n0 memo :
  extends σ σ' -> memo_ok σ n0 memo -> memo_ok σ' n0 memo.
Proof.
  intros (Hc & _) H. eapply Forall_impl; [exact H|].
  intros [c c'] (Hn & x & H1 & H2). split; [done|]. exists x.
  split; [exact (prefix_lookup_Some _ _ _ _ H1 Hc)
         |exact (prefix_lookup_Some _ _ _ _ H2 Hc)].
Qed.

Lemma copy_columns_are σ n0 memo cs xs :
  columns_are σ cs xs -> memo_ok σ n0 memo ->
  n0 <= length (column_objects σ) ->
  ∃ cs' σ', copy_columns memo cs σ = Ok (cs', σ')
            /\ extends σ σ'
            /\ relation_objects σ' = relation_objects σ
            /\ columns_are σ' cs' xs
            /\ Forall (λ c', n0 <= c') cs'.
Proof.
  intros Hcs. revert xs σ memo Hcs.
  induction cs as [|c cs IH]; intros xs σ memo Hcs Hmemo Hn0.
  - apply Forall2_nil_inv_l in Hcs as ->. exists [], σ.
    repeat split; done || constructor.
  - apply Forall2_cons_inv_l in Hcs as (x & xs' & Hx & Hcs & ->).
    cbn [copy_columns].
    destruct (list_find (λ m, fst m = c) memo) as [[i [c0 c']]|] eqn:Hfind.
    + apply list_find_Some in Hfind as (Hlookup & Hc0 & _). cbn in Hc0.
      subst c0. apply list_elem_of_lookup_2 in Hlookup.
      unfold memo_ok in Hmemo. rewrite Forall_forall in Hmemo.
      destruct (Hmemo _ Hlookup) as (Hfresh & x' & Hx1 & Hx2). cbn in *.
      assert (x' = x) as -> by congruence.
      destruct (IH _ σ memo Hcs) as (cs' & σ' & Hcopy & Hext & Hrel & Hare & Hf);
        [by apply Forall_forall|done|].
      exists (c' :: cs'), σ'. unfold Schema.bind. rewrite Hcopy.
      split; [done|]. split; [done|]. split; [done|].
      split; [|by constructor].
      constructor; [|done]. destruct Hext as (Hc & _).
      by eapply prefix_lookup_Some.
    + unfold Schema.bind at 1, get_column. rewrite Hx.
      unfold Schema.bind at 1. cbn [new_column].
      set (σ1 := mkStore (column_objects σ ++ [x]) (relation_objects σ)
                         (drawn σ)).
      assert (extends σ σ1) as Hext1.
      { split; [by apply prefix_app_r|done]. }
      assert (column_objects σ1 !! length (column_objects σ) = Some x) as Hnew.
      { cbn. by rewrite lookup_app_r, Nat.sub_diag. }
      destruct (IH xs' σ1 ((c, length (column_objects σ)) :: memo))
        as (cs' & σ' & Hcopy & Hext & Hrel & Hare & Hf).
      { by eapply columns_are_extends. }
      { constructor; [|by eapply memo_ok_extends].
        split; [done|]. exists x. split; [|done]. cbn.
        destruct Hext1 as (Hc & _). by eapply prefix_lookup_Some. }
      { cbn. rewrite length_app. lia. }
      exists (length (column_objects σ) :: cs'), σ'.
      unfold Schema.bind. rewrite Hcopy.
      split; [done|]. split; [by etrans|]. split; [done|].
      split; [|by constructor].
      constructor; [|done]. destruct Hext as (Hc & _).
      by eapply prefix_lookup_Some.
Qed.

Lemma deepcopy_schema_is σ r v :
  schema_is σ r v ->
  ∃ σ' s', deepcopy_schema r σ = Ok (length (relation_objects σ), σ')
           /\ extends σ σ'
           /\ schema_is σ' (length (relation_objects σ)) v
           /\ relation_objects σ' !! length (relation_objects σ) = Some s'
           /\ Forall (λ c', length (column_objects σ) <= c') (columns s').
Proof.
  intros (s & Hs & Hn & Hcs).
  destruct (copy_columns_are σ (length (column_objects σ)) [] _ _ Hcs)
    as (cs' & σ1 & Hcopy & Hext & Hrel & Hare & Hfresh);
    [by constructor|done|].
  assert (relation_objects
            (mkStore (column_objects σ1)
                     (relation_objects σ1
                      ++ [mkRelationSchema (relation_name s) cs'])
                     (drawn σ1))
          !! length (relation_objects σ)
          = Some (mkRelationSchema (relation_name s) cs')) as Hnew.
  { cbn. by rewrite Hrel, lookup_app_r, Nat.sub_diag. }
  eexists _, _. split; [|split; [|split; [|split]]].
  - unfold deepcopy_schema. unfold Schema.bind at 1, get_relation. rewrite Hs.
    unfold Schema.bind at 1. rewrite Hcopy. unfold new_relation.
    rewrite <- Hrel. reflexivity.
  - etrans; [exact Hext|]. split; [done|]. split; [by apply prefix_app_r|done].
  - eexists. split; [exact Hnew|]. split; [done|]. done.
  - exact Hnew.
  - done.
Qed.

Lemma extends_relations_length σ σ' :
  extends σ σ' -> length (relation_objects σ) <= length (relation_objects σ').
Proof. intros (_ & Hr & _). by apply prefix_length. Qed.

Lemma extends_columns_length σ σ' :
  extends σ σ' -> length (column_objects σ) <= length (column_objects σ').
Proof. intros (Hc & _). by apply prefix_length. Qed.

Lemma new_entry_holds_extends σ0 σ σ' e v :
  extends σ σ' -> new_entry_holds σ0 σ e v -> new_entry_holds σ0 σ' e v.
Proof.
  intros Hext (r & He & Hr & Hs). exists r.
  split; [done|]. split; [done|]. by eapply schema_is_extends.
Qed.

Lemma merge_items_are σ0 σ items iv m mv :
  extends σ0 σ -> environment_is σ items iv ->
  dict_rel (new_entry_holds σ0 σ) m mv ->
  ∃ m' σ', merge_items items m σ = Ok (m', σ')
           /\ extends σ σ'
           /\ dict_rel (new_entry_holds σ0 σ') m' (merge_values iv mv).
Proof.
  intros Hext0 Hitems. revert σ iv m mv Hext0 Hitems.
  induction items as [|[key e] items IH]; intros σ iv m mv Hext0 Hitems Hm.
  - apply Forall2_nil_inv_l in Hitems as ->. by exists m, σ.
  - apply Forall2_cons_inv_l in Hitems
      as ([key' v] & iv' & [Hkey (r & He & Hr)] & Hitems & ->).
    cbn in Hkey, He. subst key' e. cbn [snd] in Hr.
    cbn [merge_items merge_values].
    pose proof (dict_rel_get _ _ _ key Hm) as Hget.
    destruct (dict_get key m) as [existing|],
             (dict_get key mv) as [existing_v|]; try done.
    + destruct Hget as (re & -> & Hfresh & Hre).
      destruct (add_is σ re r _ _ Hre Hr) as (σ1 & Hadd & Hext1 & Hsum).
      destruct (IH σ1 iv'
                  (dict_set key (SchemaRef (length (relation_objects σ))) m)
                  (dict_set key (union_by_identity existing_v v) mv))
        as (m' & σ' & Hrun & Hext & Hm').
      { by etrans. }
      { exact (environment_is_extends _ _ _ _ Hext1 Hitems). }
      { apply dict_rel_set.
        - eapply dict_rel_impl; [|exact Hm].
          intros ? ?. exact (new_entry_holds_extends _ _ _ _ _ Hext1).
        - eexists. split; [done|]. split; [|done].
          by apply extends_relations_length. }
      exists m', σ'. split; [|split; [by etrans|done]].
      unfold Schema.bind at 1. cbn [add_to]. unfold Schema.bind at 1.
      by rewrite Hadd.
    + destruct (deepcopy_schema_is σ r v Hr)
        as (σ1 & s1 & Hcopy & Hext1 & Hcopied & _).
      destruct (IH σ1 iv'
                  (dict_set key (SchemaRef (length (relation_objects σ))) m)
                  (dict_set key v mv))
        as (m' & σ' & Hrun & Hext & Hm').
      { by etrans. }
      { exact (environment_is_extends _ _ _ _ Hext1 Hitems). }
      { apply dict_rel_set.
        - eapply dict_rel_impl; [|exact Hm].
          intros ? ?. exact (new_entry_holds_extends _ _ _ _ _ Hext1).
        - eexists. split; [done|]. split; [|done].
          by apply extends_relations_length. }
      exists m', σ'. split; [|split; [by etrans|done]].
      unfold Schema.bind at 1. cbn [deepcopy]. unfold Schema.bind at 1.
      by rewrite Hcopy.
Qed.

Lemma merge_dicts_are σ0 σ ds vs m mv :
  extends σ0 σ -> Forall2 (environment_is σ) ds vs ->
  dict_rel (new_entry_holds σ0 σ) m mv ->
  ∃ m' σ', merge_dicts (map ADict ds) m σ = Ok (m', σ')
           /\ extends σ σ'
           /\ dict_rel (new_entry_holds σ0 σ') m'
                (fold_left (λ merged items, merge_values items merged) vs mv).
Proof.
  intros Hext0 Hds. revert σ vs m mv Hext0 Hds.
  induction ds as [|d ds IH]; intros σ vs m mv Hext0 Hds Hm.
  - apply Forall2_nil_inv_l in Hds as ->. by exists m, σ.
  - apply Forall2_cons_inv_l in Hds as (v & vs' & Hd & Hds & ->).
    destruct (merge_items_are σ0 σ d v m mv Hext0 Hd Hm)
      as (m1 & σ1 & Hrun1 & Hext1 & Hm1).
    destruct (IH σ1 vs' m1 (merge_values v mv))
      as (m' & σ' & Hrun & Hext & Hm').
    { by etrans. }
    { eapply Forall2_impl; [exact Hds|].
      intros ? ?. exact (environment_is_extends _ _ _ _ Hext1). }
    { done. }
    exists m', σ'. split; [|split; [by etrans|done]].
    cbn [map merge_dicts fold_left]. unfold Schema.bind. by rewrite Hrun1.
Qed.

(** Facts on [dict]s. *)
Lemma dict_get_set_eq {V} key (v : V) d : dict_get key (dict_set key v d) = Some v.
Proof.
  induction d as [|[k v'] d IH]; cbn [dict_set dict_get].
  - by rewrite String.eqb_refl.
  - destruct (String.eqb k key) eqn:E; cbn [dict_get]; by rewrite E.
Qed.

Lemma dict_get_set_ne {V} key key' (v : V) d :
  key' ≠ key -> dict_get key (dict_set key' v d) = dict_get key d.
Proof.
  intros Hne. induction d as [|[k v'] d IH]; cbn [dict_set dict_get].
  - destruct (String.eqb_spec key' key); [done|reflexivity].
  - destruct (String.eqb_spec k key') as [->|]; cbn [dict_get].
    + destruct (String.eqb_spec key' key); [done|reflexivity].
    + by rewrite IH.
Qed.

Lemma dict_get_set_is_Some {V} key key' (v : V) d :
  is_Some (dict_get key d) -> is_Some (dict_get key (dict_set key' v d)).
Proof.
  destruct (decide (key' = key)) as [->|Hne].
  - by rewrite dict_get_set_eq.
  - by rewrite dict_get_set_ne.
Qed.

Lemma values_set_new {V} key (v : V) d :
  dict_get key d = None -> values (dict_set key v d) = values d ++ [v].
Proof.
  unfold values. induction d as [|[k v'] d IH]; [done|].
  cbn [dict_get dict_set].
  destruct (String.eqb k key); [done|]. intros H. cbn [map app snd].
  by rewrite IH.
Qed.

Lemma dict_rel_keys {A B} (R : A -> B -> Prop) d d' :
  dict_rel R d d' -> keys d = keys d'.
Proof.
  unfold keys. induction 1 as [|[k a] [k' b] d d' [Hk _] _ IH]; [done|].
  cbn [map fst] in *. by rewrite Hk, IH.
Qed.

Lemma merge_values_keeps key iv mv :
  is_Some (dict_get key mv) -> is_Some (dict_get key (merge_values iv mv)).
Proof.
  revert mv. induction iv as [|[k v] iv IH]; intros mv Hin; [done|].
  cbn [merge_values]. destruct (dict_get k mv); apply IH;
    by apply dict_get_set_is_Some.
Qed.

Lemma merged_values_has key vs mv :
  is_Some (dict_get key mv) \/ key ∈ flat_map keys vs ->
  is_Some (dict_get key
             (fold_left (λ merged items, merge_values items merged) vs mv)).
Proof.
  revert mv. induction vs as [|v vs IH]; intros mv [Hin|Hin]; cbn [fold_left].
  - done.
  - by apply elem_of_nil in Hin.
  - apply IH. left. by apply merge_values_keeps.
  - cbn [flat_map] in Hin. apply elem_of_app in Hin as [Hin|Hin].
    + apply IH. left. clear IH. revert mv.
      induction v as [|[k w] v IHv]; intros mv.
      * by apply elem_of_nil in Hin.
      * cbn [keys map fst] in Hin. cbn [merge_values].
        apply elem_of_cons in Hin as [->|Hin].
        -- destruct (dict_get k mv); apply merge_values_keeps;
             by rewrite dict_get_set_eq.
        -- destruct (dict_get k mv); by apply IHv.
    + apply IH. by right.
Qed.

Lemma merge_items_app items1 items2 m σ :
  merge_items (items1 ++ items2) m σ
  = match merge_items items1 m σ with
    | Ok (m', σ') => merge_items items2 m' σ'
    | Raise e => Raise e
    end.
Proof.
  revert m σ. induction items1 as [|[key e] items1 IH]; intros m σ; [done|].
  cbn [app merge_items].
  destruct (dict_get key m) as [existing|].
  - destruct e as [r|a]; [|done]. unfold Schema.bind.
    destruct (add_to existing r σ) as [[sum σ1]|]; [apply IH|done].
  - unfold Schema.bind. destruct (deepcopy e σ) as [[copy σ1]|]; [apply IH|done].
Qed.

Lemma merge_dicts_app ds arguments m σ :
  merge_dicts (map ADict ds ++ arguments) m σ
  = match merge_dicts (map ADict ds) m σ with
    | Ok (m', σ') => merge_dicts arguments m' σ'
    | Raise e => Raise e
    end.
Proof.
  revert m σ. induction ds as [|d ds IH]; intros m σ; [done|].
  cbn [map app merge_dicts]. unfold Schema.bind.
  destruct (merge_items d m σ) as [[m1 σ1]|]; [apply IH|done].
Qed.

(** A schema object made of column objects that did not exist in [σ0]. *)
Definition deep (σ0 σ : Store) (e : Entry) : Prop :=
  ∃ r s, e = SchemaRef r /\ relation_objects σ !! r = Some s
         /\ Forall (λ c, length (column_objects σ0) <= c) (columns s).

Lemma deep_extends σ0 σ σ' e : extends σ σ' -> deep σ0 σ e -> deep σ0 σ' e.
Proof.
  intros (_ & Hr & _) (r & s & He & Hs & Hfresh). exists r, s.
  split; [done|]. split; [|done]. exact (prefix_lookup_Some _ _ _ _ Hs Hr).
Qed.

Lemma merge_items_deep σ0 σ items iv m m' σ' :
  extends σ0 σ -> environment_is σ items iv -> NoDup (keys items) ->
  (∀ key, key ∈ keys items -> dict_get key m = None) ->
  Forall (deep σ0 σ) (values m) ->
  merge_items items m σ = Ok (m', σ') ->
  Forall (deep σ0 σ') (values m').
Proof.
  revert σ iv m.
  induction items as [|[key e] items IH];
    intros σ iv m Hext0 Hitems Hnodup Hnew Hdeep Hrun.
  - cbn in Hrun. by injection Hrun as <- <-.
  - apply Forall2_cons_inv_l in Hitems
      as ([key' v] & iv' & [Hkey (r & He & Hr)] & Hitems & ->).
    cbn in Hkey, He. subst key' e. cbn [snd] in Hr.
    cbn [keys map fst] in Hnodup. apply NoDup_cons in Hnodup as [Hfirst Hnodup].
    cbn [merge_items] in Hrun. rewrite (Hnew key) in Hrun by left.
    destruct (deepcopy_schema_is σ r v Hr)
      as (σ1 & s1 & Hcopy & Hext1 & _ & Hs1 & Hfresh).
    unfold Schema.bind at 1 in Hrun. cbn [deepcopy] in Hrun.
    unfold Schema.bind at 1 in Hrun. rewrite Hcopy in Hrun. cbn [ret] in Hrun.
    apply (IH σ1 iv' _) in Hrun; [done|by etrans| | | |].
    + exact (environment_is_extends _ _ _ _ Hext1 Hitems).
    + done.
    + intros k Hk. rewrite dict_get_set_ne; [apply Hnew; by right|].
      intros ->. done.
    + rewrite values_set_new by (apply Hnew; left).
      apply Forall_app. split.
      * eapply Forall_impl; [exact Hdeep|].
        intros ?. exact (deep_extends _ _ _ _ Hext1).
      * constructor; [|constructor]. eexists _, s1.
        split; [done|]. split; [done|].
        eapply Forall_impl; [exact Hfresh|]. intros c Hc. cbn in Hc.
        pose proof (extends_columns_length _ _ Hext0). lia.
Qed.

(** C9 (as amended).  Over dictionaries of relation schemas, [merge_schemas]
    returns a new mapping and changes no object that existed before the call:
    the store after the call extends the store before it.  The schema objects
    of the result are new, and hold the merge of the inputs taken as values: a
    key met for the first time takes a copy of its schema, a key met before
    takes the union of the two schemas by column identity.  For one
    dictionary the copy is deep: the column objects are new as well.  A value
    that is not a schema, under a key met in an earlier dictionary, raises
    [InvalidInternalStateError]. *)
Theorem merge_schemas_is_union_of_copies
    (σ : Store) (ds : list (dict Entry)) (vs : list (dict SchemaValue)) :
  Forall2 (environment_is σ) ds vs ->
  ∃ merged σ',
    merge_schemas (map ADict ds) σ = Ok (merged, σ')
    /\ extends σ σ'
    /\ dict_rel (new_entry_holds σ σ') merged (merged_values vs)
    /\ (∀ d, ds = [d] -> NoDup (keys d) -> Forall (deep σ σ') (values merged))
    /\ (∀ pre pre_v key a post more,
          environment_is σ pre pre_v -> key ∈ flat_map keys ds ->
          merge_schemas
            (map ADict ds ++ ADict (pre ++ (key, Other a) :: post) :: more) σ
          = Raise (InvalidInternalStateError
                     "Internal Error - merge_schemas expects schemas")).
Proof.
  intros Hds. unfold merge_schemas.
  destruct (merge_dicts_are σ σ ds vs [] []) as (merged & σ' & Hrun & Hext & Hm);
    [done|done|constructor|].
  exists merged, σ'. split; [done|]. split; [done|]. split; [done|].
  split.
  - intros d -> Hnodup.
    apply Forall2_cons_inv_l in Hds as (v & vs' & Hd & _ & ->).
    cbn [map merge_dicts] in Hrun. unfold Schema.bind in Hrun.
    destruct (merge_items d [] σ) as [[m1 σ1]|] eqn:Hitems; [|done].
    cbn in Hrun. injection Hrun as <- <-.
    by apply (merge_items_deep σ σ d v [] m1 σ1).
  - intros pre pre_v key a post more Hpre Hkey.
    rewrite merge_dicts_app, Hrun. cbn [merge_dicts]. unfold Schema.bind.
    rewrite merge_items_app.
    destruct (merge_items_are σ σ' pre pre_v merged (merged_values vs))
      as (m2 & σ2 & Hrun2 & _ & Hm2);
      [done|exact (environment_is_extends _ _ _ _ Hext Hpre)|done|].
    rewrite Hrun2. cbn [merge_items].
    pose proof (dict_rel_get _ _ _ key Hm2) as Hget.
    assert (is_Some (dict_get key (merge_values pre_v (merged_values vs))))
      as [w Hw].
    { apply merge_values_keeps, merged_values_has. right.
      assert (flat_map keys ds = flat_map keys vs) as <-; [|done].
      clear -Hds. induction Hds as [|d v ds vs Hd _ IH]; [done|].
      cbn [flat_map]. by rewrite IH, (dict_rel_keys _ _ _ Hd). }
    rewrite Hw in Hget. by destruct (dict_get key m2).
Qed.

(** *** Binding *)

Section Binding.
Variable CityHash64 : string -> Z.
Variable format_expression : Node loc -> string.
Variable py_str : Payload (Node loc) -> string.
Variable COMBINED_FUNCTIONS : string -> option nat.
Variable suggest_function : Payload (Node loc) -> option string.
Variable suggest_alternative : option string -> list string -> option string.
Variable as_column : nat -> Payload (Node loc) -> result Column.
Variable random_string : nat -> string.

Abbreviation inner_binder :=
  (Binder.inner_binder CityHash64 format_expression py_str COMBINED_FUNCTIONS
     suggest_function suggest_alternative as_column random_string).
Abbreviation locate_identifier :=
  (Binder.locate_identifier suggest_alternative as_column).

(** C4.  A node whose [schema_column] is set is returned by [inner_binder] as
    it is, with the context and the store as they are; binding it a second
    time therefore gives what binding it once gives. *)
Theorem inner_binder_returns_bound_node_unchanged
    (fuel : nat) (node : Node loc) (context : BindingContext) (σ : Store) :
  schema_column node ≠ None ->
  inner_binder (S fuel) node context σ = Ok ((node, context), σ)
  /\ Schema.bind (inner_binder (S fuel) node context)
       (λ bound, inner_binder (S fuel) (fst bound) (snd bound)) σ
     = inner_binder (S fuel) node context σ.
Proof.
  intros Hbound.
  assert (inner_binder (S fuel) node context σ = Ok ((node, context), σ)) as E.
  { cbn [Binder.inner_binder].
    destruct (schema_column node); [reflexivity|done]. }
  split; [exact E|].
  unfold Schema.bind. rewrite E. cbn [fst snd]. exact E.
Qed.

(** C8.  A column is found in a schema when its name or one of its aliases
    is the node's [source_column]; the schemas searched are all of them when
    the node names no source, else the one named like the source and those
    whose name starts with ["$shared"].  When two of the schemas searched have
    such a column, [locate_identifier] raises [AmbiguousIdentifierError]. *)
Theorem ambiguous_identifier_is_reported
    (node : Node loc) (context : BindingContext) (σ : Store) (text : string)
    (before between after : dict Entry) (k1 k2 : string) (r1 r2 : loc) :
  source_column node = Some text ->
  schemas context
  = before ++ (k1, SchemaRef r1) :: between ++ (k2, SchemaRef r2) :: after ->
  well_formed σ (values (schemas context)) ->
  candidate_key node k1 -> candidate_key node k2 ->
  has_column_named σ text r1 -> has_column_named σ text r2 ->
  locate_identifier node context σ
  = Raise (AmbiguousIdentifierError (Some text)).
Proof.
  intros Htext Henv Hwf Hk1 Hk2 Hhas1 Hhas2.
  unfold Binder.locate_identifier. rewrite Henv in *.
  destruct (candidates_two σ node before k1 r1 between k2 r2 after Hwf Hk1 Hk2)
    as (e1s & e2s & e3s & Hvalues & Hwf').
  destruct (candidates (source node) _) as [|kv d] eqn:Hcandidates.
  { by destruct e1s. }
  unfold Schema.bind, locate_identifier_in_loaded_schemas.
  rewrite Htext, Hvalues.
  by rewrite (locate_loop_two_matches σ text e1s r1 e2s r2 e3s None None).
Qed.

(** The node that [locate_identifier] returns for an identifier that is not a
    session variable and was found as [column] in the schema [s]. *)
Definition resolved (node : Node loc) (s : RelationSchema) (column : loc)
    (x : Column) : Node loc :=
  let node :=
    if truthy_str (source node) then node
    else set_source (Some (relation_name s)) node in
  let node := set_schema_column (Some column) node in
  match origin x with
  | [o] => set_source (Some o) node
  | _ => node
  end.

(** C10 (as amended).  An identifier that is not a session variable, is
    found in exactly one of the schemas searched, as the column object [c],
    and carries an alias that is not among the names of that column, has the
    alias appended to the alias list of [c], in place: in the store after
    the call, [c] is the column it was with the longer alias list, and every
    other column object, every relation schema and the context are what they
    were.  The schema searched that holds [c] can be any schema of the
    environment. *)
Theorem alias_is_appended_in_place
    (node : Node loc) (context : BindingContext) (σ : Store) (text a : string)
    (before after : dict Entry) (k : string) (r c : loc) (s : RelationSchema)
    (x : Column) (names : list AliasEntry) :
  source_column node = Some text ->
  schemas context = before ++ (k, SchemaRef r) :: after ->
  well_formed σ (values (schemas context)) ->
  candidate_key node k ->
  (∀ k' r', (k', SchemaRef r') ∈ before ++ after -> candidate_key node k' ->
            ¬ has_column_named σ text r') ->
  relation_objects σ !! r = Some s ->
  first_known σ (Some text) (columns s) = Some c ->
  column_objects σ !! c = Some x ->
  aliases x = Some names ->
  is_variable_name (current_name node) = Ok false ->
  alias node = Some a -> a ≠ "" -> ¬ named a x ->
  locate_identifier node context σ
  = Ok ((resolved node s c x, context),
        mkStore (<[c := set_aliases (Some (names ++ [AliasName a])) x]>
                   (column_objects σ))
                (relation_objects σ) (drawn σ)).
Proof.
  intros Htext Henv Hwf Hk Hothers Hr Hc Hx Hnames Hvariable Halias Ha Hnew.
  unfold Binder.locate_identifier. rewrite Henv in *.
  destruct (candidates_one σ node before k r after Hwf Hk)
    as (e1s & e3s & Hvalues & Hwf' & Hsearched).
  destruct (candidates (source node) _) as [|kv d] eqn:Hcandidates.
  { by destruct e1s. }
  unfold Schema.bind at 1. unfold locate_identifier_in_loaded_schemas.
  rewrite Htext, Hvalues.
  rewrite (locate_loop_one_match σ text e1s r e3s s c); [|done| |done..].
  2:{ intros r' Hin. destruct (Hsearched r' Hin) as (k' & Hin' & Hk').
      by apply (Hothers k'). }
  unfold Schema.bind at 1. rewrite Hvariable. cbn [lift].
  unfold Schema.bind at 1. unfold get_column at 1. rewrite Hx.
  assert (truthy_str (alias node) && negb (known_as (alias node) x) = true)
    as Hguard.
  { rewrite Halias. destruct a as [|ch a]; [done|]. cbn [truthy_str andb].
    apply negb_true_iff. destruct (known_as _ x) eqn:E; [|done].
    by apply known_as_named in E. }
  unfold resolved.
  destruct (truthy_str (source node)) eqn:Hsource.
  - unfold Schema.bind at 1. cbn [ret]. unfold Schema.bind at 1.
    rewrite Hguard, Hnames. unfold put_column. rewrite Hx, Halias. cbn.
    by destruct (origin x) as [|o [|o' os]].
  - unfold Schema.bind at 1. unfold Schema.bind at 1. cbn [lift attr].
    unfold Schema.bind at 1. unfold get_relation. rewrite Hr. cbn [ret].
    unfold Schema.bind at 1. cbn [alias set_source].
    rewrite Hguard, Hnames. unfold put_column. rewrite Hx, Halias. cbn.
    by destruct (origin x) as [|o [|o' os]].
Qed.

End Binding.

(** *** A concrete environment *)

(** The parts of the engine that the binder receives, fixed for the
    examples. *)
Definition no_suggestion : option string -> list string -> option string :=
  λ _ _, None.
Definition no_variables : nat -> Payload (Node loc) -> result Column :=
  λ _ _, Raise (KeyError "variable").
Definition length_hash : string -> Z := λ s, (Z.of_nat (String.length s) + 1)%Z.
Definition no_str : Payload (Node loc) -> string := λ _, "".
Definition no_functions : string -> option nat := λ _, None.
Definition no_function_suggestion : Payload (Node loc) -> option string :=
  λ _, None.
Definition numbered : nat -> string := λ n, String (ascii_of_nat (97 + n)) "".

Definition flat (name identity : string) : Column :=
  mkColumn FlatColumn name (Some []) (Orso INTEGER) PNone identity [] true None.

Definition session_variable : Column :=
  mkColumn ConstantColumn "@v" (Some []) (Orso INTEGER) (PInt 7) "c3" [] false
           None.

(** Two relations that both have a column [id]; [$derived] holds the session
    variable [@v] and a derived column [doubled]. *)
Definition shop_store : Store :=
  mkStore
    [flat "id" "c0"; flat "id" "c1"; flat "total" "c2"; session_variable;
     flat "doubled" "c4"]
    [mkRelationSchema "$derived" [3; 4]; mkRelationSchema "orders" [0; 2];
     mkRelationSchema "customers" [1]]
    0.

Definition shop : BindingContext :=
  mkBindingContext
    [("$derived", SchemaRef 0); ("orders", SchemaRef 1);
     ("customers", SchemaRef 2)]
    0.

Definition reference (text : string) (alias : option string) : Node loc :=
  mkNode IDENTIFIER None None None [] (PStr text) NoType NoType alias None
         (Some text) (Some text) None None None false None None None.

Lemma shop_well_formed : well_formed shop_store (values (schemas shop)).
Proof.
  repeat apply Forall_cons_2; [| | |apply Forall_nil_2];
    (eexists; split; [reflexivity|]); (eexists; split; [reflexivity|]);
    repeat apply Forall_cons_2; try apply Forall_nil_2; by eexists.
Defined.

Lemma inner_binder_returns_bound_node_unchanged_witness :
  Binder.inner_binder length_hash by_name no_str no_functions
    no_function_suggestion no_suggestion no_variables numbered 1
    (set_schema_column (Some 0) (reference "id" None)) shop shop_store
  = Ok ((set_schema_column (Some 0) (reference "id" None), shop), shop_store).
Proof.
  apply (inner_binder_returns_bound_node_unchanged length_hash by_name no_str
           no_functions no_function_suggestion no_suggestion no_variables
           numbered 0 (set_schema_column (Some 0) (reference "id" None))
           shop shop_store).
  cbn. discriminate.
Defined.

Lemma ambiguous_identifier_is_reported_witness :
  Binder.locate_identifier no_suggestion no_variables (reference "id" None)
    shop shop_store
  = Raise (AmbiguousIdentifierError (Some "id")).
Proof.
  apply (ambiguous_identifier_is_reported no_suggestion no_variables
           (reference "id" None) shop shop_store "id"
           [("$derived", SchemaRef 0)] [] [] "orders" "customers" 1 2).
  - reflexivity.
  - reflexivity.
  - exact shop_well_formed.
  - left. reflexivity.
  - left. reflexivity.
  - exists (mkRelationSchema "orders" [0; 2]), 0, (flat "id" "c0").
    repeat split; [left|left]; reflexivity.
  - exists (mkRelationSchema "customers" [1]), 1, (flat "id" "c1").
    repeat split; [left|left]; reflexivity.
Defined.

(** No column of [$derived] or of [customers] is named [total]. *)
Lemma total_only_in_orders (k' : string) (r' : loc) :
  (k', SchemaRef r')
  ∈ [("$derived", SchemaRef 0)] ++ [("customers", SchemaRef 2)] ->
  ¬ has_column_named shop_store "total" r'.
Proof.
  intros Hin (s & c & x & Hs & Hc & Hx & Hnamed).
  cbn [app] in Hin. rewrite !elem_of_cons, elem_of_nil in Hin.
  destruct Hin as [[= -> ->]|[[= -> ->]|[]]]; vm_compute in Hs;
    injection Hs as <-; cbn [columns] in Hc;
    repeat (apply elem_of_cons in Hc as [->|Hc]);
    try (by apply elem_of_nil in Hc);
    vm_compute in Hx; injection Hx as <-;
    (destruct Hnamed as [Hn|Hn]; [discriminate Hn|]);
    cbn in Hn; by apply elem_of_nil in Hn.
Defined.

Lemma alias_is_appended_in_place_witness :
  Binder.locate_identifier no_suggestion no_variables
    (reference "total" (Some "t")) shop shop_store
  = Ok ((resolved (reference "total" (Some "t"))
           (mkRelationSchema "orders" [0; 2]) 2 (flat "total" "c2"), shop),
        mkStore
          (<[2 := set_aliases (Some ([] ++ [AliasName "t"])) (flat "total" "c2")]>
             (column_objects shop_store))
          (relation_objects shop_store) (drawn shop_store)).
Proof.
  apply (alias_is_appended_in_place no_suggestion no_variables
           (reference "total" (Some "t")) shop shop_store "total" "t"
           [("$derived", SchemaRef 0)] [("customers", SchemaRef 2)] "orders"
           1 2 (mkRelationSchema "orders" [0; 2]) (flat "total" "c2") []).
  - reflexivity.
  - reflexivity.
  - exact shop_well_formed.
  - left. reflexivity.
  - intros k' r' Hin _. exact (total_only_in_orders k' r' Hin).
  - reflexivity.
  - reflexivity.
  - reflexivity.
  - reflexivity.
  - reflexivity.
  - reflexivity.
  - discriminate.
  - intros [Hn|Hn]; [discriminate Hn|]. cbn in Hn. by apply elem_of_nil in Hn.
Defined.

(** C10 as stated fails.  [@v AS y] resolves to the column [@v], whose names
    do not include [y]; the call returns a literal bound to that column and
    leaves the store as it was.  And [doubled AS d] resolves to a column of
    [$derived], which is the column object that gets the alias. *)
Lemma alias_of_session_variable_is_not_appended :
  (shop_store.(column_objects) !! 3 = Some session_variable
   /\ known_as (Some "y") session_variable = false
   /\ Binder.locate_identifier no_suggestion no_variables
        (reference "@v" (Some "y")) shop shop_store
      = Ok ((set_value (PInt 7)
               (set_type (Orso INTEGER)
                  (set_schema_column (Some 3) (new_node LITERAL))), shop),
            shop_store))
  /\ (dict_get "$derived" (schemas shop) = Some (SchemaRef 0)
      /\ shop_store.(relation_objects) !! 0
         = Some (mkRelationSchema "$derived" [3; 4])
      /\ ∃ bound,
          Binder.locate_identifier no_suggestion no_variables
            (reference "doubled" (Some "d")) shop shop_store
          = Ok ((bound, shop),
                mkStore
                  (<[4 := set_aliases (Some [AliasName "d"])
                            (flat "doubled" "c4")]>
                     (column_objects shop_store))
                  (relation_objects shop_store) (drawn shop_store))).
Proof.
  split; [by repeat split|].
  split; [reflexivity|]. split; [reflexivity|].
  eexists. vm_compute. reflexivity.
Qed.

(** The schemas of the shop, as values. *)
Definition shop_values : dict SchemaValue :=
  [("$derived", ("$derived", [session_variable; flat "doubled" "c4"]));
   ("orders", ("orders", [flat "id" "c0"; flat "total" "c2"]));
   ("customers", ("customers", [flat "id" "c1"]))].

Lemma shop_is_shop_values : environment_is shop_store (schemas shop) shop_values.
Proof.
  unfold environment_is, dict_rel.
  repeat (apply Forall2_cons_2;
          [split; [reflexivity|]; eexists; split; [reflexivity|];
           eexists; split; [reflexivity|]; split; [reflexivity|];
           repeat (apply Forall2_cons_2; [reflexivity|]); apply Forall2_nil_2
          |]).
  apply Forall2_nil_2.
Defined.

Lemma merge_schemas_is_union_of_copies_witness :
  ∃ merged σ',
    merge_schemas [ADict (schemas shop); ADict (schemas shop)] shop_store
    = Ok (merged, σ')
    /\ extends shop_store σ'
    /\ dict_rel (new_entry_holds shop_store σ') merged
         (merged_values [shop_values; shop_values]).
Proof.
  destruct (merge_schemas_is_union_of_copies shop_store
              [schemas shop; schemas shop] [shop_values; shop_values])
    as (merged & σ' & Hrun & Hext & Hmerged & _).
  - repeat (apply Forall2_cons_2; [exact shop_is_shop_values|]).
    apply Forall2_nil_2.
  - exists merged, σ'. split; [exact Hrun|]. split; [exact Hext|exact Hmerged].
Defined.

(** C9 as stated fails: a value that is not a schema, under a key met for the
    first time, is copied into the result and nothing is raised. *)
Lemma non_schema_under_new_key_is_copied :
  merge_schemas [ADict [("a", Other (AInt 42))]] empty_store
  = Ok ([("a", Other (AInt 42))], empty_store).
Proof. reflexivity. Qed.

End BinderSpec.


(** ** More on the binder: what is reported, and what binding leaves behind *)

Module BinderFacts.
Import Orso Binder BinderSpec.

(** *** Running a computation over the store *)

Lemma bind_ok {A B} (m : M A) (k : A -> M B) (σ : Store) (r : B * Store) :
  Schema.bind m k σ = Ok r -> ∃ a σ1, m σ = Ok (a, σ1) /\ k a σ1 = Ok r.
Proof.
  unfold Schema.bind. destruct (m σ) as [[a σ1]|]; [eauto|done].
Qed.

Lemma bind_run {A B} (m : M A) (k : A -> M B) (σ σ1 : Store) (a : A) :
  m σ = Ok (a, σ1) -> Schema.bind m k σ = k a σ1.
Proof. unfold Schema.bind. by intros ->. Qed.

(** *** The names offered as suggestions *)

(** Every name and alias of the columns [cs], and of the columns of the
    schemas [es]. *)
Definition column_names_at (σ : Store) (cs : list loc) : list string :=
  flat_map (λ c, match column_objects σ !! c with
                 | Some x => names_of (all_names x)
                 | None => []
                 end) cs.

Definition schema_names_at (σ : Store) (es : list Entry) : list string :=
  flat_map (λ e, match e with
                 | SchemaRef r =>
                     match relation_objects σ !! r with
                     | Some s => column_names_at σ (columns s)
                     | None => []
                     end
                 | Other _ => []
                 end) es.

Lemma all_column_names_among_are σ cs :
  valid_columns σ cs ->
  all_column_names_among cs σ = Ok (column_names_at σ cs, σ).
Proof.
  induction 1 as [|c cs [x Hx] _ IH]; [done|].
  cbn [all_column_names_among column_names_at flat_map].
  unfold Schema.bind at 1, get_column. rewrite Hx.
  unfold Schema.bind at 1. by rewrite IH.
Qed.

Lemma candidate_column_names_are σ es :
  well_formed σ es ->
  candidate_column_names es σ = Ok (schema_names_at σ es, σ).
Proof.
  induction 1 as [|e es (r & -> & s & Hs & Hcs) _ IH]; [done|].
  cbn [candidate_column_names schema_names_at flat_map as_schema].
  unfold Schema.bind at 1. cbn [ret].
  unfold Schema.bind at 1, all_column_names.
  unfold Schema.bind at 1, get_relation. rewrite Hs.
  rewrite all_column_names_among_are by done.
  unfold Schema.bind at 1. by rewrite IH.
Qed.

(** *** The schemas searched *)

Lemma candidates_none (source : option string) (d : dict Entry) :
  truthy_str source = true ->
  (∀ key, key ∈ keys d -> is_candidate source key = false) ->
  candidates source d = [].
Proof.
  intros Htruthy Hnone. unfold candidates. rewrite Htruthy.
  induction d as [|[k e] d IH]; [done|].
  rewrite filter_cons_False.
  - apply IH. intros key Hkey. apply Hnone. by right.
  - cbn. rewrite (Hnone k) by left. done.
Qed.

Lemma candidates_searched (node : Node loc) (d : dict Entry) r :
  SchemaRef r ∈ values (candidates (source node) d) ->
  ∃ k, (k, SchemaRef r) ∈ d /\ candidate_key node k.
Proof.
  unfold candidates, values.
  destruct (truthy_str (source node)) eqn:Htruthy.
  - intros ([k e] & [= ->] & Hin)%list_elem_of_In%in_map_iff.
    apply list_elem_of_In, list_elem_of_filter in Hin as [Hkept Hin].
    exists k. split; [done|]. by apply kept_is_candidate_key.
  - intros ([k e] & [= ->] & Hin)%list_elem_of_In%in_map_iff.
    exists k. split; [by apply list_elem_of_In|]. by left.
Qed.

Lemma candidates_some node (d : dict Entry) key :
  key ∈ keys d -> candidate_key node key ->
  candidates (source node) d ≠ [].
Proof.
  unfold candidates, keys.
  intros ([k e] & <- & Hin)%list_elem_of_In%in_map_iff Hkey.
  apply list_elem_of_In in Hin.
  destruct (truthy_str (source node)) eqn:Htruthy.
  - intros Hnil.
    assert ((k, e) ∈ filter (λ kv, is_candidate (source node) (fst kv) = true) d)
      as Hkept.
    { apply list_elem_of_filter. split; [by apply candidate_key_kept|done]. }
    rewrite Hnil in Hkept. by apply elem_of_nil in Hkept.
  - intros ->. by apply elem_of_nil in Hin.
Qed.

Section Resolution.
Variable suggest_alternative : option string -> list string -> option string.
Variable as_column : nat -> Payload (Node loc) -> result Column.

Abbreviation locate_identifier :=
  (Binder.locate_identifier suggest_alternative as_column).

(** A reference to a relation that is not loaded is reported: when the node
    names a source, and no schema of the environment is named like it or has
    a name that starts with ["$shared"], [locate_identifier] raises
    [UnexpectedDatasetReferenceError] for that source; so it does, for any
    node, when the environment is empty. *)
Theorem unknown_relation_is_reported
    (node : Node loc) (context : BindingContext) (σ : Store) :
  (∀ s, source node = Some s -> s ≠ "" ->
        (∀ key, key ∈ keys (schemas context) ->
                key ≠ s /\ startswith "$shared" key = false) ->
        locate_identifier node context σ
        = Raise (UnexpectedDatasetReferenceError (Some s)))
  /\ (schemas context = [] ->
      locate_identifier node context σ
      = Raise (UnexpectedDatasetReferenceError (source node))).
Proof.
  split.
  - intros s Hsource Hs Hnone. unfold Binder.locate_identifier.
    rewrite candidates_none; [by rewrite Hsource| |].
    + rewrite Hsource. by destruct s.
    + intros key Hkey. destruct (Hnone key Hkey) as [Hne Hshared].
      unfold is_candidate. rewrite Hshared, Hsource. cbn.
      by destruct (String.eqb_spec key s).
  - intros Hempty. unfold Binder.locate_identifier. rewrite Hempty.
    unfold candidates. by destruct (truthy_str (source node)).
Qed.

Section NotFound.
Variables (node : Node loc) (context : BindingContext) (σ : Store).
Variables (text key : string).
Hypothesis Htext : source_column node = Some text.
Hypothesis Hwf : well_formed σ (values (schemas context)).
Hypothesis Hkey : key ∈ keys (schemas context).
Hypothesis Hcandidate : candidate_key node key.
Hypothesis Hnone :
  ∀ k r, (k, SchemaRef r) ∈ schemas context -> candidate_key node k ->
         ¬ has_column_named σ text r.

Lemma nothing_located :
  ∃ kv d,
    candidates (source node) (schemas context) = kv :: d
    /\ well_formed σ (values (kv :: d))
    /\ locate_identifier_in_loaded_schemas (source_column node) (kv :: d) σ
       = Ok ((None, None), σ).
Proof using All.
  pose proof (candidates_some node (schemas context) key Hkey Hcandidate)
    as Hsome.
  assert (well_formed σ (values (candidates (source node) (schemas context))))
    as Hwf'.
  { unfold candidates. destruct (truthy_str (source node)); [|done].
    by apply well_formed_filter. }
  assert (∀ r, SchemaRef r
               ∈ values (candidates (source node) (schemas context)) ->
               ¬ has_column_named σ text r) as Hnone'.
  { intros r Hin. destruct (candidates_searched node _ r Hin) as (k & Hk & Hc).
    by apply (Hnone k). }
  destruct (candidates (source node) (schemas context)) as [|kv d]; [done|].
  exists kv, d. split; [done|]. split; [done|].
  unfold locate_identifier_in_loaded_schemas. rewrite Htext.
  by apply locate_loop_no_match.
Qed.

(** A column that no schema searched has is reported: for an identifier that
    is not a session variable, [locate_identifier] raises
    [ColumnNotFoundError] with the value of the node, and with what
    [suggest_alternative] makes of the name looked for and of every name and
    alias of every column of the schemas searched. *)
Theorem unknown_column_is_reported :
  is_variable_name (current_name node) = Ok false ->
  locate_identifier node context σ
  = Raise
      (ColumnNotFoundError
         (match value node with PStr s => Some s | _ => None end)
         (suggest_alternative (Some text)
            (schema_names_at σ
               (values (candidates (source node) (schemas context)))))).
Proof using All.
  intros Hvariable. destruct nothing_located as (kv & d & Hcs & Hwf' & Hloop).
  unfold Binder.locate_identifier. rewrite Hcs.
  rewrite (bind_run _ _ _ _ _ Hloop). cbn [lift].
  unfold Schema.bind at 1. rewrite Hvariable. cbn [lift].
  unfold Schema.bind at 1. rewrite candidate_column_names_are by done.
  by rewrite Htext.
Qed.

(** A name that starts with ["@"] and that no schema searched has is looked up
    among the session variables: the node returned is a new literal with the
    type and the value of the variable, bound to a new column object that
    holds the variable; that column is appended, in place, to the schema
    under ["$derived"] of the environment, whatever the source of the node.
    Nothing else changes. *)
Theorem unknown_variable_becomes_a_literal
    (x : Column) (d : loc) (s : RelationSchema) :
  is_variable_name (current_name node) = Ok true ->
  as_column (connection context) (value node) = Ok x ->
  dict_get "$derived" (schemas context) = Some (SchemaRef d) ->
  relation_objects σ !! d = Some s ->
  let c := length (column_objects σ) in
  locate_identifier node context σ
  = Ok ((set_value (column_value x)
           (set_type (column_type x)
              (set_schema_column (Some c) (new_node LITERAL))),
         context),
        mkStore (column_objects σ ++ [x])
                (<[d := mkRelationSchema (relation_name s) (columns s ++ [c])]>
                   (relation_objects σ))
                (drawn σ)).
Proof using All.
  intros Hvariable Hcolumn Hderived Hd. cbv zeta.
  destruct nothing_located as (kv & d' & Hcs & Hwf' & Hloop).
  unfold Binder.locate_identifier. rewrite Hcs.
  rewrite (bind_run _ _ _ _ _ Hloop). cbn [lift].
  unfold Schema.bind at 1. rewrite Hvariable. cbn [lift].
  unfold create_variable_node. unfold Schema.bind at 1.
  unfold Schema.bind at 1. rewrite Hcolumn. cbn [lift].
  unfold Schema.bind at 1. cbn [new_column ret].
  unfold Schema.bind at 1, derived. rewrite Hderived. cbn [as_schema ret].
  unfold Schema.bind at 1. cbn [schema_column set_value set_type
                                  set_schema_column lift attr].
  unfold Schema.bind at 1, append_column.
  unfold Schema.bind at 1, get_relation. cbn [relation_objects].
  rewrite Hd. unfold put_relation. cbn [relation_objects]. rewrite Hd.
  reflexivity.
Qed.

End NotFound.

End Resolution.

(** *** The operand hash *)

Section OperandHash.
Variable CityHash64 : string -> Z.
Variable py_str : Payload (Node loc) -> string.

Abbreviation inner := (Binder.inner CityHash64 py_str).
Abbreviation fallback := (BinderSpec.fallback CityHash64 py_str).

Lemma xor_fold_permutation (xs ys : list Z) :
  xs ≡ₚ ys -> xor_fold xs = xor_fold ys.
Proof.
  unfold xor_fold. induction 1 as [|x xs ys _ IH|x y xs|xs ys zs _ IH1 _ IH2].
  - done.
  - cbn. by rewrite IH.
  - cbn. rewrite <- !Z.lxor_assoc. f_equal. apply Z.lxor_comm.
  - congruence.
Qed.

Lemma exchanged_operands (σ : Store) (node : Node loc) :
  inner σ (set_left (right node) (set_right (left node) node)) = inner σ node.
Proof.
  rewrite !(inner_unfold CityHash64 py_str). cbv zeta.
  assert (xor_fold
            (map (inner σ)
               (operands (set_left (right node) (set_right (left node) node))))
          = xor_fold (map (inner σ) (operands node))) as ->.
  { apply xor_fold_permutation, Permutation_map. unfold operands. cbn.
    destruct (left node) as [a|], (right node) as [b|], (centre node) as [m|];
      cbn; try reflexivity; try apply perm_swap.
    etrans; [apply perm_swap|]. etrans; [apply perm_skip, perm_swap|].
    apply perm_swap. }
  by destruct node.
Qed.

(** The operand hash of a node does not see where its operands stand, and
    equal operands cancel.  The node with its left and right operands
    exchanged has the same [inner] hash, so the identities of [a - b] and
    [b - a] differ by the hash of their formatted text only.  And for a node
    with a left and a right operand of the same [inner] hash and no other
    operand the XOR-fold is 0, so [inner] is what it is for the node without
    operands, whatever the operands are. *)
Theorem operand_hash_ignores_sides_and_cancels (σ : Store) (node : Node loc) :
  inner σ (set_left (right node) (set_right (left node) node)) = inner σ node
  /\ ∀ a b, left node = Some a -> right node = Some b ->
            centre node = None -> parameters node = [] ->
            inner σ a = inner σ b ->
            inner σ node = fallback σ node.
Proof.
  split; [apply exchanged_operands|].
  intros a b Hleft Hright Hcentre Hparameters Hsame.
  rewrite (inner_unfold CityHash64 py_str). cbv zeta. unfold operands.
  rewrite Hleft, Hright, Hcentre, Hparameters. cbn.
  by rewrite Hsame, Z.lxor_0_r, Z.lxor_nilpotent.
Qed.

End OperandHash.

(** *** Merging an environment with itself *)

Lemma unseen_values_seen (seen : list string) (xs : list Column) :
  Forall (λ x, column_identity x ∈ seen) xs -> unseen_values seen xs = [].
Proof.
  induction 1 as [|x xs Hx _ IH]; [done|]. cbn [unseen_values].
  by rewrite bool_decide_eq_true_2.
Qed.

Lemma union_by_identity_same (v : SchemaValue) : union_by_identity v v = v.
Proof.
  destruct v as [n xs]. unfold union_by_identity. cbn [fst snd].
  rewrite unseen_values_seen, app_nil_r; [done|].
  apply Forall_forall. intros x Hx. apply list_elem_of_In, in_map.
  by apply list_elem_of_In.
Qed.

Lemma dict_get_app_None {V} key (d d' : dict V) :
  dict_get key d = None -> dict_get key (d ++ d') = dict_get key d'.
Proof.
  induction d as [|[k v] d IH]; [done|]. cbn [dict_get app].
  destruct (String.eqb k key); [done|exact IH].
Qed.

Lemma dict_set_new {V} key (v : V) (d : dict V) :
  dict_get key d = None -> dict_set key v d = d ++ [(key, v)].
Proof.
  induction d as [|[k v'] d IH]; [done|]. cbn [dict_get dict_set app].
  destruct (String.eqb k key); [done|]. intros H. by rewrite IH.
Qed.

Lemma dict_set_same {V} key (v : V) (d : dict V) :
  dict_get key d = Some v -> dict_set key v d = d.
Proof.
  induction d as [|[k v'] d IH]; [done|]. cbn [dict_get dict_set].
  destruct (String.eqb k key); [by intros [= ->]|]. intros H. by rewrite IH.
Qed.

Lemma dict_get_None {V} key (d : dict V) :
  key ∉ keys d -> dict_get key d = None.
Proof.
  unfold keys. induction d as [|[k v] d IH]; [done|]. cbn [map fst dict_get].
  intros Hnot. destruct (String.eqb_spec k key) as [->|].
  - destruct Hnot. left.
  - apply IH. intros Hin. apply Hnot. by right.
Qed.

Lemma dict_get_member {V} key (v : V) (d : dict V) :
  NoDup (keys d) -> (key, v) ∈ d -> dict_get key d = Some v.
Proof.
  unfold keys. induction d as [|[k v'] d IH]; intros Hnodup Hin.
  - by apply elem_of_nil in Hin.
  - cbn [map fst] in Hnodup. apply NoDup_cons in Hnodup as [Hfirst Hnodup].
    cbn [dict_get]. apply elem_of_cons in Hin as [[= <- <-]|Hin].
    + by rewrite String.eqb_refl.
    + destruct (String.eqb_spec k key) as [->|]; [|by apply IH].
      destruct Hfirst. apply list_elem_of_In, in_map_iff.
      exists (key, v). split; [done|]. by apply list_elem_of_In.
Qed.

Lemma merge_values_new (items merged : dict SchemaValue) :
  NoDup (keys items) ->
  (∀ key, key ∈ keys items -> dict_get key merged = None) ->
  merge_values items merged = merged ++ items.
Proof.
  revert merged. induction items as [|[key v] items IH]; intros merged Hnodup Hnew.
  - by rewrite app_nil_r.
  - cbn [keys map fst] in Hnodup. apply NoDup_cons in Hnodup as [Hfirst Hnodup].
    cbn [merge_values]. rewrite (Hnew key) by left.
    rewrite dict_set_new by (apply Hnew; left).
    rewrite IH; [by rewrite <- app_assoc|done|].
    intros k Hk. rewrite dict_get_app_None by (apply Hnew; by right).
    cbn [dict_get]. destruct (String.eqb_spec key k) as [->|]; done.
Qed.

Lemma merge_values_again (items merged : dict SchemaValue) :
  (∀ key v, (key, v) ∈ items -> dict_get key merged = Some v) ->
  merge_values items merged = merged.
Proof.
  induction items as [|[key v] items IH]; intros Hsame; [done|].
  cbn [merge_values]. rewrite (Hsame key v) by left.
  rewrite union_by_identity_same, dict_set_same by (apply Hsame; left).
  apply IH. intros k w Hin. apply Hsame. by right.
Qed.

Lemma merged_values_of_copies (n : nat) (v : dict SchemaValue) :
  NoDup (keys v) -> merged_values (replicate (S n) v) = v.
Proof.
  intros Hnodup. unfold merged_values. cbn [replicate fold_left].
  rewrite merge_values_new by done. cbn [app].
  induction n as [|n IH]; [done|]. cbn [replicate fold_left].
  rewrite merge_values_again; [exact IH|].
  intros key w Hin. by apply dict_get_member.
Qed.

(** [merge_schemas(d, d, ..., d)], which is how [traversive_recursive_bind]
    and [inner_binder] call it (the contexts that come back from binding the
    parameters are one and the same context object), returns a copy of [d]:
    new schema objects under the same keys, in the same order, with the same
    names and the same columns, value by value.  No object that existed
    before the call is changed. *)
Theorem merging_an_environment_with_itself_copies_it
    (σ : Store) (d : dict Entry) (v : dict SchemaValue) (n : nat) :
  environment_is σ d v -> NoDup (keys d) ->
  ∃ merged σ',
    merge_schemas (replicate (S n) (ADict d)) σ = Ok (merged, σ')
    /\ extends σ σ'
    /\ dict_rel (new_entry_holds σ σ') merged v.
Proof.
  intros Hd Hnodup.
  destruct (merge_dicts_are σ σ (replicate (S n) d) (replicate (S n) v) [] [])
    as (merged & σ' & Hrun & Hext & Hmerged).
  - done.
  - by apply Forall2_replicate.
  - constructor.
  - exists merged, σ'. unfold merge_schemas.
    rewrite <- fmap_replicate. change (fmap ADict) with (map ADict).
    split; [done|]. split; [done|].
    fold (merged_values (replicate (S n) v)) in Hmerged.
    rewrite merged_values_of_copies in Hmerged; [done|].
    by rewrite <- (dict_rel_keys _ _ _ Hd).
Qed.

(** The contexts collected from binding the members [bound] are [length
    bound] times the one context. *)
Lemma merge_contexts_replicate (bound : list (Node loc))
    (context : BindingContext) :
  merge_contexts bound context
  = merge_schemas (replicate (length bound) (ADict (schemas context))).
Proof.
  unfold merge_contexts. f_equal.
  induction bound as [|b bound IH]; [done|]. cbn. by rewrite IH.
Qed.

(** *** A name that is known already *)

Lemma find_in_schemas_none σ column_name es :
  well_formed σ es ->
  (∀ r, SchemaRef r ∈ es -> ¬ has_column_named σ column_name r) ->
  find_in_schemas column_name es σ = Ok (None, σ).
Proof.
  induction 1 as [|e es (r & -> & Hvalid) _ IH]; intros Hnone; [done|].
  cbn [find_in_schemas as_schema]. unfold Schema.bind at 1. cbn [ret].
  unfold Schema.bind at 1.
  rewrite (find_column_misses σ r column_name Hvalid) by (apply Hnone; left).
  apply IH. intros r' Hin. apply Hnone. by right.
Qed.

Lemma find_in_schemas_first σ column_name e1s r e3s s c :
  well_formed σ (e1s ++ SchemaRef r :: e3s) ->
  (∀ r', SchemaRef r' ∈ e1s -> ¬ has_column_named σ column_name r') ->
  relation_objects σ !! r = Some s ->
  first_known σ (Some column_name) (columns s) = Some c ->
  find_in_schemas column_name (e1s ++ SchemaRef r :: e3s) σ = Ok (Some c, σ).
Proof.
  intros Hwf Hnone Hr Hc. induction e1s as [|e e1s IH]; cbn [app] in *.
  - apply Forall_cons in Hwf as [(r' & [= <-] & (s' & Hr' & Hcs)) _].
    assert (s' = s) as -> by congruence.
    cbn [find_in_schemas as_schema]. unfold Schema.bind at 1. cbn [ret].
    unfold Schema.bind at 1.
    by rewrite (find_column_first_known _ _ _ _ Hr Hcs), Hc.
  - apply Forall_cons in Hwf as [(r' & -> & Hvalid) Hrest].
    cbn [find_in_schemas as_schema]. unfold Schema.bind at 1. cbn [ret].
    unfold Schema.bind at 1.
    rewrite (find_column_misses σ r' column_name Hvalid) by (apply Hnone; left).
    apply IH; [done|]. intros r'' Hin. apply Hnone. by right.
Qed.

Section Binding.
Variable CityHash64 : string -> Z.
Variable format_expression : Node loc -> string.
Variable py_str : Payload (Node loc) -> string.
Variable COMBINED_FUNCTIONS : string -> option nat.
Variable suggest_function : Payload (Node loc) -> option string.
Variable suggest_alternative : option string -> list string -> option string.
Variable as_column : nat -> Payload (Node loc) -> result Column.
Variable random_string : nat -> string.

Abbreviation inner_binder :=
  (Binder.inner_binder CityHash64 format_expression py_str COMBINED_FUNCTIONS
     suggest_function suggest_alternative as_column random_string).
Abbreviation bind_this_node :=
  (Binder.bind_this_node CityHash64 format_expression py_str
     COMBINED_FUNCTIONS suggest_function random_string).
Abbreviation hash_tree :=
  (Binder.hash_tree CityHash64 format_expression py_str).

(** The name under which a node is looked up and its column is created. *)
Definition column_name_of (node : Node loc) : string :=
  str_or (query_column node) (format_expression node).

(** How [inner_binder] goes on for a node that is not bound, is not an
    identifier and is not an expression list. *)
Lemma inner_binder_calculated (fuel : nat) (node : Node loc)
    (context : BindingContext) (σ : Store) :
  schema_column node = None ->
  node_type node ∉ [IDENTIFIER; EVALUATED; EXPRESSION_LIST] ->
  inner_binder (S fuel) node context σ
  = match find_in_schemas (column_name_of node) (values (schemas context)) σ
    with
    | Ok (Some c, σ1) =>
        Ok ((set_query_column (alias_or node (column_name_of node))
               (set_schema_column (Some c) node), context), σ1)
    | Ok (None, σ1) =>
        match traversive_recursive_bind (inner_binder fuel) node context σ1
        with
        | Ok ((node1, context1), σ2) =>
            bind_this_node (node_type node) (column_name_of node)
              (schemas context) node1 context1 σ2
        | Raise e => Raise e
        end
    | Raise e => Raise e
    end.
Proof.
  intros Hunbound Hkind. cbn [Binder.inner_binder]. rewrite Hunbound.
  cbn [truthy_object].
  assert (node_type_in (node_type node) [IDENTIFIER; EVALUATED] = false) as ->.
  { apply bool_decide_eq_false. rewrite !elem_of_cons, elem_of_nil in *.
    intuition. }
  rewrite bool_decide_eq_false_2
    by (rewrite !elem_of_cons, elem_of_nil in Hkind; intuition).
  unfold Schema.bind at 1. cbn [ret]. unfold column_name_of.
  unfold Schema.bind at 1.
  destruct (find_in_schemas _ _ σ) as [[[c|] σ1]|]; [done| |done].
  unfold Schema.bind at 1.
  by destruct (traversive_recursive_bind _ _ _ σ1) as [[[node1 context1] σ2]|].
Qed.

(** A node whose name (its [query_column], or else its formatted text) is a
    name of a column of some schema of the environment is bound to that
    column: the first such column of the first such schema, in the order of
    the environment.  Its operands are not visited, and neither the store nor
    the context changes.  This is how a calculated column that was seen
    before is met again. *)
Theorem known_name_is_bound_to_its_column
    (fuel : nat) (node : Node loc) (context : BindingContext) (σ : Store)
    (e1s e3s : list Entry) (r c : loc) (s : RelationSchema) :
  schema_column node = None ->
  node_type node ∉ [IDENTIFIER; EVALUATED; EXPRESSION_LIST] ->
  values (schemas context) = e1s ++ SchemaRef r :: e3s ->
  well_formed σ (values (schemas context)) ->
  (∀ r', SchemaRef r' ∈ e1s ->
         ¬ has_column_named σ (column_name_of node) r') ->
  relation_objects σ !! r = Some s ->
  first_known σ (Some (column_name_of node)) (columns s) = Some c ->
  inner_binder (S fuel) node context σ
  = Ok ((set_query_column (Some (str_or (alias node) (column_name_of node)))
           (set_schema_column (Some c) node), context), σ).
Proof.
  intros Hunbound Hkind Hvalues Hwf Hnone Hr Hc.
  rewrite inner_binder_calculated by done. rewrite Hvalues in *.
  by rewrite (find_in_schemas_first σ _ e1s r e3s s c Hwf Hnone Hr Hc).
Qed.

(** *** Literals *)

Lemma nothing_to_traverse
    (binder : Node loc -> BindingContext -> M (Node loc * BindingContext))
    (node : Node loc) (context : BindingContext) (σ : Store) :
  left node = None -> right node = None -> centre node = None ->
  parameters node = [] ->
  traversive_recursive_bind binder node context σ = Ok ((node, context), σ).
Proof.
  intros Hleft Hright Hcentre Hparameters. unfold traversive_recursive_bind.
  rewrite Hleft. unfold Schema.bind at 1. cbn [ret].
  rewrite Hright. unfold Schema.bind at 1. cbn [ret].
  rewrite Hcentre. unfold Schema.bind at 1. cbn [ret].
  by rewrite Hparameters.
Qed.

(** The constant column that the binder makes for a literal. *)
Definition constant_of (node : Node loc) (identity : string) : Column :=
  mkColumn ConstantColumn (column_name_of node) (Some (alias_list node))
           (type node) (value node) identity [] false None.

(** A literal whose name is not a name of any column of the environment is
    bound to a new constant column: named by the literal's [query_column] or
    formatted text, known also by its alias if it has one, with the type and
    the value of the literal, not nullable, and with an identity drawn for
    it.  The column is appended, in place, to the schema under ["$derived"];
    the node takes the column and, as [query_column], its alias or else the
    name.  The context is returned as it is. *)
Theorem literal_is_bound_to_a_new_constant
    (fuel : nat) (node : Node loc) (context : BindingContext) (σ : Store)
    (d : loc) (s : RelationSchema) :
  node_type node = LITERAL -> schema_column node = None ->
  left node = None -> right node = None -> centre node = None ->
  parameters node = [] ->
  well_formed σ (values (schemas context)) ->
  (∀ r, SchemaRef r ∈ values (schemas context) ->
        ¬ has_column_named σ (column_name_of node) r) ->
  dict_get "$derived" (schemas context) = Some (SchemaRef d) ->
  relation_objects σ !! d = Some s ->
  let c := length (column_objects σ) in
  inner_binder (S fuel) node context σ
  = Ok ((set_query_column (Some (str_or (alias node) (column_name_of node)))
           (set_schema_column (Some c) node), context),
        mkStore
          (column_objects σ ++ [constant_of node (random_string (drawn σ))])
          (<[d := mkRelationSchema (relation_name s) (columns s ++ [c])]>
             (relation_objects σ))
          (S (drawn σ))).
Proof.
  intros Hliteral Hunbound Hleft Hright Hcentre Hparameters Hwf Hnone
    Hderived Hd. cbv zeta.
  rewrite inner_binder_calculated
    by (done || (rewrite Hliteral, !elem_of_cons, elem_of_nil;
                 intuition discriminate)).
  rewrite (find_in_schemas_none σ _ _ Hwf Hnone).
  rewrite (nothing_to_traverse _ node context σ Hleft Hright Hcentre
             Hparameters).
  unfold Binder.bind_this_node. rewrite Hliteral.
  rewrite bool_decide_eq_true_2 by done.
  unfold Schema.bind at 1. cbn [draw_identity].
  unfold Schema.bind at 1. cbn [new_column column_objects relation_objects
                                  drawn].
  unfold Schema.bind at 1, derived. rewrite Hderived. cbn [as_schema ret].
  unfold Schema.bind at 1, append_column.
  unfold Schema.bind at 1, get_relation. cbn [relation_objects].
  rewrite Hd. unfold put_relation. cbn [relation_objects]. rewrite Hd.
  cbn [ret]. by destruct context.
Qed.

(** *** What binding the operands keeps *)

(** The node that comes back from [traversive_recursive_bind] is the node it
    was given, with other operands. *)
Lemma traversed_node
    (binder : Node loc -> BindingContext -> M (Node loc * BindingContext))
    (node node1 : Node loc) (context context1 : BindingContext)
    (σ σ1 : Store) :
  traversive_recursive_bind binder node context σ
  = Ok ((node1, context1), σ1) ->
  ∃ l r c ps,
    node1 = set_parameters ps (set_centre c (set_right r (set_left l node))).
Proof.
  unfold traversive_recursive_bind. intros H.
  apply bind_ok in H as ([n1 c1] & σa & H1 & H).
  assert (∃ l, n1 = set_left l node) as [l ->].
  { destruct (left node) as [l|] eqn:Hleft.
    - apply bind_ok in H1 as ([l' cx] & σx & _ & H1). injection H1 as <- _ _.
      eauto.
    - injection H1 as <- _ _. exists None. destruct node. cbn in *. by subst. }
  apply bind_ok in H as ([n2 c2] & σb & H2 & H).
  assert (∃ r, n2 = set_right r (set_left l node)) as [r ->].
  { destruct (right (set_left l node)) as [r|] eqn:Hright.
    - apply bind_ok in H2 as ([r' cx] & σx & _ & H2). injection H2 as <- _ _.
      eauto.
    - injection H2 as <- _ _. exists None. destruct node. cbn in *. by subst. }
  apply bind_ok in H as ([n3 c3] & σc & H3 & H).
  assert (∃ c, n3 = set_centre c (set_right r (set_left l node))) as [c ->].
  { destruct (centre (set_right r (set_left l node))) as [c|] eqn:Hcentre.
    - apply bind_ok in H3 as ([c' cx] & σx & _ & H3). injection H3 as <- _ _.
      eauto.
    - injection H3 as <- _ _. exists None. destruct node. cbn in *. by subst. }
  exists l, r, c.
  destruct (parameters (set_centre c (set_right r (set_left l node))))
    as [|q qs] eqn:Hparameters.
  - injection H as <- _ _. exists []. destruct node. cbn in *. by subst.
  - apply bind_ok in H as ([ps cx] & σx & _ & H).
    apply bind_ok in H as (merged & σy & _ & H). injection H as <- _ _. eauto.
Qed.

(** *** Functions that are not registered *)

(** A FUNCTION or AGGREGATOR node whose name is not in the registry is
    reported, unless the node is marked [do_not_create_column]: once its
    operands are bound, and its own name being no column of the environment,
    [inner_binder] raises [FunctionNotFoundError] with the name of the
    function and the suggestion made for it.  For a marked node the registry
    is not looked at: the node comes back as its operands left it, without a
    column and without an error. *)
Theorem unknown_function_is_reported
    (fuel : nat) (node node1 : Node loc) (context context1 : BindingContext)
    (σ σ1 : Store) (f : string) :
  node_type node ∈ [FUNCTION; AGGREGATOR] ->
  schema_column node = None ->
  value node = PStr f -> COMBINED_FUNCTIONS f = None ->
  well_formed σ (values (schemas context)) ->
  (∀ r, SchemaRef r ∈ values (schemas context) ->
        ¬ has_column_named σ (column_name_of node) r) ->
  traversive_recursive_bind (inner_binder fuel) node context σ
  = Ok ((node1, context1), σ1) ->
  (do_not_create_column node = false ->
   ∀ d, dict_get "$derived" (schemas context) = Some (SchemaRef d) ->
        valid_schema σ1 d -> ¬ has_column_named σ1 (column_name_of node) d ->
        inner_binder (S fuel) node context σ
        = Raise (FunctionNotFoundError (Some f) (suggest_function (PStr f))))
  /\ (do_not_create_column node = true ->
      inner_binder (S fuel) node context σ
      = Ok ((node1, set_schemas (schemas context) context1), σ1)).
Proof.
  intros Hkind Hunbound Hvalue Hregistry Hwf Hnone Hoperands.
  assert (inner_binder (S fuel) node context σ
          = bind_this_node (node_type node) (column_name_of node)
              (schemas context) node1 context1 σ1) as ->.
  { rewrite inner_binder_calculated
      by (done || (rewrite !elem_of_cons, elem_of_nil in *;
                   intuition congruence)).
    by rewrite (find_in_schemas_none σ _ _ Hwf Hnone), Hoperands. }
  destruct (traversed_node _ _ _ _ _ _ _ Hoperands) as (l & r & c & ps & ->).
  unfold Binder.bind_this_node.
  rewrite bool_decide_eq_false_2
    by (rewrite !elem_of_cons, elem_of_nil in Hkind; intuition congruence).
  rewrite bool_decide_eq_false_2
    by (rewrite !elem_of_cons, elem_of_nil in Hkind; intuition congruence).
  cbn [do_not_create_column set_parameters set_centre set_right set_left].
  split.
  - intros Hcreate d Hderived Hvalid Hnew. rewrite Hcreate. cbn [negb andb].
    unfold Schema.bind at 1, derived. rewrite Hderived. cbn [as_schema ret].
    unfold Schema.bind at 1.
    rewrite (find_column_misses σ1 d _ Hvalid Hnew).
    assert (node_type_in (node_type node) [FUNCTION; AGGREGATOR] = true) as ->
      by (by apply bool_decide_eq_true).
    unfold Schema.bind at 1. cbn [value set_parameters set_centre set_right
                                    set_left].
    rewrite Hvalue. cbn [registry_get lift]. by rewrite Hregistry.
  - intros Hmarked. by rewrite Hmarked.
Qed.

(** *** Calculated columns *)

(** The column that the binder makes for a function call and for any other
    calculated node, and the node once it is bound to the column at [c]. *)
Definition function_column_of (node1 : Node loc) (column_name identity : string)
    (f : nat) : Column :=
  mkColumn FunctionColumn column_name (Some (alias_list node1)) Zero PNone
           identity [] true (Some f).

Definition expression_column_of (node1 : Node loc)
    (column_name identity : string) : Column :=
  mkColumn ExpressionColumn column_name (Some (alias_list node1)) Zero
           (value node1) identity [] true None.

Definition bound_to (c : loc) (column_name : string) (node1 : Node loc) :
    Node loc :=
  set_query_column (Some (str_or (alias node1) column_name))
    (set_schema_column (Some c) node1).

Lemma alias_set_schema_column (x : option loc) (n : Node loc) :
  alias (set_schema_column x n) = alias n.
Proof. reflexivity. Qed.

(** A calculated node (not a literal, an identifier, an expression list or a
    subquery) whose name is no column of the environment is given a column
    of its own once its operands are bound: a function column that holds the
    registered function for a FUNCTION or AGGREGATOR, an expression column
    that holds the value of the node otherwise.  The column is named like the
    node, known by the alias of the node, and identified by [hash_tree] of
    the node with its operands bound; it is appended, in place, to the
    schema under ["$derived"] of the environment as it was before the
    operands were bound, and that environment is the one the context
    returned holds. *)
Theorem calculated_node_is_bound_to_a_new_column
    (fuel : nat) (node node1 : Node loc) (context context1 : BindingContext)
    (σ σ1 : Store) (d : loc) (s : RelationSchema) :
  node_type node ∉ [LITERAL; IDENTIFIER; EVALUATED; EXPRESSION_LIST; SUBQUERY] ->
  schema_column node = None -> do_not_create_column node = false ->
  well_formed σ (values (schemas context)) ->
  (∀ r, SchemaRef r ∈ values (schemas context) ->
        ¬ has_column_named σ (column_name_of node) r) ->
  traversive_recursive_bind (inner_binder fuel) node context σ
  = Ok ((node1, context1), σ1) ->
  dict_get "$derived" (schemas context) = Some (SchemaRef d) ->
  relation_objects σ1 !! d = Some s -> valid_columns σ1 (columns s) ->
  ¬ has_column_named σ1 (column_name_of node) d ->
  let c := length (column_objects σ1) in
  let identity := hash_tree σ1 node1 in
  let stored (x : Column) :=
    mkStore (column_objects σ1 ++ [x])
            (<[d := mkRelationSchema (relation_name s) (columns s ++ [c])]>
               (relation_objects σ1))
            (drawn σ1) in
  (∀ name f,
      node_type node ∈ [FUNCTION; AGGREGATOR] -> value node = PStr name ->
      COMBINED_FUNCTIONS name = Some f ->
      inner_binder (S fuel) node context σ
      = Ok ((bound_to c (column_name_of node)
               (set_derived_from (Some []) (set_function (Some f) node1)),
             set_schemas (schemas context) context1),
            stored (function_column_of node1 (column_name_of node) identity
                      f)))
  /\ (node_type node ∉ [FUNCTION; AGGREGATOR] ->
      inner_binder (S fuel) node context σ
      = Ok ((bound_to c (column_name_of node) node1,
             set_schemas (schemas context) context1),
            stored (expression_column_of node1 (column_name_of node)
                      identity))).
Proof.
  intros Hkind Hunbound Hcreate Hwf Hnone Hoperands Hderived Hd Hcolumns Hnew.
  cbv zeta.
  assert (valid_schema σ1 d) as Hvalid by (by exists s).
  assert (node_type node ≠ LITERAL /\ node_type node ≠ SUBQUERY)
    as [Hliteral Hsubquery]
    by (rewrite !elem_of_cons, elem_of_nil in Hkind; intuition).
  split.
  - intros name f Hfunction Hname Hregistry.
    rewrite inner_binder_calculated
      by (done || (rewrite !elem_of_cons, elem_of_nil in *; intuition)).
    rewrite (find_in_schemas_none σ _ _ Hwf Hnone), Hoperands.
    destruct (traversed_node _ _ _ _ _ _ _ Hoperands)
      as (l & r & c & ps & ->).
    unfold Binder.bind_this_node.
    rewrite !bool_decide_eq_false_2 by done.
    cbn [do_not_create_column set_parameters set_centre set_right set_left].
    rewrite Hcreate. cbn [negb andb].
    unfold Schema.bind at 1, derived. rewrite Hderived. cbn [as_schema ret].
    unfold Schema.bind at 1.
    rewrite (find_column_misses σ1 d _ Hvalid Hnew).
    assert (node_type_in (node_type node) [FUNCTION; AGGREGATOR] = true) as ->
      by (by apply bool_decide_eq_true).
    unfold Schema.bind at 1. cbn [value set_parameters set_centre set_right
                                    set_left].
    rewrite Hname. cbn [registry_get lift]. rewrite Hregistry.
    unfold Schema.bind at 1, snapshot.
    unfold Schema.bind at 1. cbn [new_column column_objects relation_objects
                                    drawn].
    unfold Schema.bind at 1, derived. rewrite ?Hderived. cbn [as_schema ret].
    unfold Schema.bind at 1, append_column.
    unfold Schema.bind at 1, get_relation. cbn [relation_objects].
    rewrite Hd. unfold put_relation. cbn [relation_objects]. rewrite Hd.
    cbn [ret column_objects relation_objects drawn].
    unfold bound_to, function_column_of, expression_column_of, alias_or.
    by rewrite alias_set_schema_column.
  - intros Hother.
    rewrite inner_binder_calculated
      by (done || (rewrite !elem_of_cons, elem_of_nil in *; intuition)).
    rewrite (find_in_schemas_none σ _ _ Hwf Hnone), Hoperands.
    destruct (traversed_node _ _ _ _ _ _ _ Hoperands)
      as (l & r & c & ps & ->).
    unfold Binder.bind_this_node.
    rewrite !bool_decide_eq_false_2 by done.
    cbn [do_not_create_column set_parameters set_centre set_right set_left].
    rewrite Hcreate. cbn [negb andb].
    unfold Schema.bind at 1, derived. rewrite Hderived. cbn [as_schema ret].
    unfold Schema.bind at 1.
    rewrite (find_column_misses σ1 d _ Hvalid Hnew).
    assert (node_type_in (node_type node) [FUNCTION; AGGREGATOR] = false) as ->
      by (by apply bool_decide_eq_false).
    unfold Schema.bind at 1, snapshot.
    unfold Schema.bind at 1. cbn [new_column column_objects relation_objects
                                    drawn].
    unfold Schema.bind at 1, derived. rewrite ?Hderived. cbn [as_schema ret].
    unfold Schema.bind at 1, append_column.
    unfold Schema.bind at 1, get_relation. cbn [relation_objects].
    rewrite Hd. unfold put_relation. cbn [relation_objects]. rewrite Hd.
    cbn [ret column_objects relation_objects drawn].
    unfold bound_to, function_column_of, expression_column_of, alias_or.
    by rewrite alias_set_schema_column.
Qed.

(** *** What comes back bound *)

Lemma located_identifier_is_bound
    (node node' : Node loc) (context context' : BindingContext) (σ σ' : Store) :
  Binder.locate_identifier suggest_alternative as_column node context σ
  = Ok ((node', context'), σ') ->
  schema_column node' ≠ None.
Proof.
  unfold Binder.locate_identifier.
  destruct (candidates (source node) (schemas context)) as [|kv d]; [done|].
  intros H. apply bind_ok in H as ([column found] & σ1 & _ & H).
  destruct column as [column|].
  - apply bind_ok in H as (variable & σ2 & _ & H).
    apply bind_ok in H as (x & σ3 & _ & H). destruct variable.
    + by injection H as <- _ _.
    + apply bind_ok in H as (n2 & σ4 & _ & H).
      apply bind_ok in H as (u & σ5 & _ & H).
      destruct (origin x) as [|o [|o' os]]; by injection H as <- _ _.
  - apply bind_ok in H as (variable & σ2 & _ & H). destruct variable.
    + apply bind_ok in H as (n2 & σ3 & _ & H).
      apply bind_ok in H as (d' & σ4 & _ & H).
      apply bind_ok in H as (c & σ5 & Hc & H).
      apply bind_ok in H as (u & σ6 & _ & H). injection H as <- _ _.
      unfold lift in Hc. by destruct (schema_column n2).
    + by apply bind_ok in H as (names & σ3 & _ & H).
Qed.

Lemma bind_this_node_unbound
    (kind : NodeType) (column_name : string) (schemas : dict Entry)
    (node node' : Node loc) (context context' : BindingContext) (σ σ' : Store) :
  bind_this_node kind column_name schemas node context σ
  = Ok ((node', context'), σ') ->
  schema_column node' = None ->
  kind ≠ LITERAL /\ (kind = SUBQUERY \/ do_not_create_column node = true).
Proof.
  unfold Binder.bind_this_node. intros H Hunbound.
  case_bool_decide as Hliteral.
  { apply bind_ok in H as (identity & σ1 & _ & H).
    apply bind_ok in H as (c & σ2 & _ & H).
    apply bind_ok in H as (d & σ3 & _ & H).
    apply bind_ok in H as (u & σ4 & _ & H). injection H as <- _ _. done. }
  split; [done|].
  destruct (negb (bool_decide (kind = SUBQUERY))
            && negb (do_not_create_column node)) eqn:Hguard.
  - apply bind_ok in H as (d & σ1 & _ & H).
    apply bind_ok in H as (found & σ2 & _ & H).
    destruct found as [old|].
    + apply bind_ok in H as (x & σ3 & _ & H).
      apply bind_ok in H as (c & σ4 & _ & H).
      apply bind_ok in H as (s & σ5 & _ & H).
      apply bind_ok in H as (kept & σ6 & _ & H).
      apply bind_ok in H as (u & σ7 & _ & H).
      apply bind_ok in H as (u' & σ8 & _ & H). injection H as <- _ _. done.
    + destruct (node_type_in kind [FUNCTION; AGGREGATOR]).
      * apply bind_ok in H as (func & σ3 & _ & H).
        destruct func as [f|]; [|done].
        apply bind_ok in H as (σs & σ4 & _ & H).
        apply bind_ok in H as (c & σ5 & _ & H).
        apply bind_ok in H as (d' & σ6 & _ & H).
        apply bind_ok in H as (u & σ7 & _ & H). injection H as <- _ _. done.
      * apply bind_ok in H as (σs & σ4 & _ & H).
        apply bind_ok in H as (c & σ5 & _ & H).
        apply bind_ok in H as (d' & σ6 & _ & H).
        apply bind_ok in H as (u & σ7 & _ & H). injection H as <- _ _. done.
  - apply andb_false_iff in Hguard as [Hsub|Hmarked].
    + left. apply negb_false_iff in Hsub. by apply bool_decide_eq_true in Hsub.
    + right. by apply negb_false_iff in Hmarked.
Qed.

(** Whatever [inner_binder] returns is bound, two kinds of node apart: a node
    that comes back without a column is a SUBQUERY or has
    [do_not_create_column] set, and it is not a literal or an identifier. *)
Theorem unbound_result_is_a_subquery_or_marked
    (fuel : nat) (node node' : Node loc) (context context' : BindingContext)
    (σ σ' : Store) :
  inner_binder fuel node context σ = Ok ((node', context'), σ') ->
  schema_column node' = None ->
  (node_type node ∉ [LITERAL; IDENTIFIER; EVALUATED])
  /\ (node_type node = SUBQUERY \/ do_not_create_column node = true).
Proof.
  intros H Hunbound. destruct fuel as [|fuel]; [done|].
  cbn [Binder.inner_binder] in H.
  destruct (schema_column node) as [c|] eqn:Hcolumn; cbn [truthy_object] in H.
  { injection H as <- _ _. congruence. }
  destruct (node_type_in (node_type node) [IDENTIFIER; EVALUATED]) eqn:Hid.
  { by apply located_identifier_is_bound in H. }
  apply bind_ok in H as ([n0 c0] & σ0 & Hlist & H).
  assert (do_not_create_column n0 = do_not_create_column node) as Hmarked.
  { case_bool_decide.
    - unfold bind_expression_list in Hlist.
      destruct (value node) as [| [|] | | | [|] | | [|]]; try done;
        apply bind_ok in Hlist as ([ms cx] & σx & _ & Hlist);
        apply bind_ok in Hlist as (merged & σy & _ & Hlist);
        by injection Hlist as <- _ _.
    - by injection Hlist as <- _ _. }
  apply bind_ok in H as (found & σ1 & _ & H). destruct found as [c|].
  { injection H as <- _ _. done. }
  apply bind_ok in H as ([n1 c1] & σ2 & Hoperands & H).
  destruct (traversed_node _ _ _ _ _ _ _ Hoperands) as (l & r & c & ps & ->).
  destruct (bind_this_node_unbound _ _ _ _ _ _ _ _ _ H Hunbound)
    as [Hliteral Hwhy].
  cbn [do_not_create_column set_parameters set_centre set_right set_left]
    in Hwhy.
  rewrite Hmarked in Hwhy. split; [|done].
  apply bool_decide_eq_false in Hid.
  rewrite !elem_of_cons, elem_of_nil in *. intuition.
Qed.

End Binding.

(** *** The shop again *)

(** No column of the schema [r] is known as [text], by looking. *)
Definition no_column_known_as (σ : Store) (text : string) (r : loc) : bool :=
  match relation_objects σ !! r with
  | Some s =>
      forallb (λ c, match column_objects σ !! c with
                    | Some x => negb (known_as (Some text) x)
                    | None => true
                    end) (columns s)
  | None => true
  end.

Lemma no_column_known_as_sound σ text r :
  no_column_known_as σ text r = true -> ¬ has_column_named σ text r.
Proof.
  unfold no_column_known_as. intros Hnone (s & c & x & Hs & Hc & Hx & Hnamed).
  rewrite Hs in Hnone. rewrite forallb_forall in Hnone.
  specialize (Hnone c). rewrite Hx in Hnone.
  apply known_as_named in Hnamed. rewrite Hnamed in Hnone.
  cbn in Hnone. discriminate Hnone. by apply list_elem_of_In.
Qed.

Lemma not_in_the_shop (text : string) :
  no_column_known_as shop_store text 0 = true ->
  no_column_known_as shop_store text 1 = true ->
  no_column_known_as shop_store text 2 = true ->
  ∀ r, SchemaRef r ∈ values (schemas shop) ->
       ¬ has_column_named shop_store text r.
Proof.
  intros H0 H1 H2 r Hin. cbn in Hin.
  rewrite !elem_of_cons, elem_of_nil in Hin.
  destruct Hin as [[= ->]|[[= ->]|[[= ->]|[]]]];
    by apply no_column_known_as_sound.
Qed.

Definition qualified (source text : string) : Node loc :=
  set_source (Some source) (reference text None).

(** The session holds one variable, [@w]. *)
Definition w_variable : Column :=
  mkColumn ConstantColumn "@w" (Some []) (Orso VARCHAR) (PStr "on") "c5" []
           false None.

Definition one_variable : nat -> Payload (Node loc) -> result Column :=
  λ _ v, match v with
         | PStr name =>
             if String.eqb name "@w" then Ok w_variable
             else Raise (KeyError "variable")
         | _ => Raise (KeyError "variable")
         end.

Definition call (name : string) : Node loc :=
  set_value (PStr name) (new_node FUNCTION).

Definition seven : Node loc :=
  set_value (PInt 7) (set_type (Orso INTEGER) (new_node LITERAL)).

Lemma unknown_relation_is_reported_witness :
  Binder.locate_identifier no_suggestion no_variables
    (qualified "payments" "id") shop shop_store
  = Raise (UnexpectedDatasetReferenceError (Some "payments")).
Proof.
  apply (proj1 (unknown_relation_is_reported no_suggestion no_variables
                  (qualified "payments" "id") shop shop_store)).
  - reflexivity.
  - discriminate.
  - intros key Hkey. cbn in Hkey. rewrite !elem_of_cons, elem_of_nil in Hkey.
    destruct Hkey as [->|[->|[->|[]]]]; split; (discriminate || reflexivity).
Defined.

Lemma unknown_column_is_reported_witness :
  Binder.locate_identifier no_suggestion no_variables (reference "price" None)
    shop shop_store
  = Raise (ColumnNotFoundError (Some "price") None).
Proof.
  apply (unknown_column_is_reported no_suggestion no_variables
           (reference "price" None) shop shop_store "price" "orders").
  - reflexivity.
  - exact shop_well_formed.
  - cbn. right. left.
  - left. reflexivity.
  - intros k r Hin _. apply not_in_the_shop; try reflexivity.
    apply list_elem_of_In, in_map_iff. exists (k, SchemaRef r).
    split; [reflexivity|]. by apply list_elem_of_In.
  - reflexivity.
Defined.

Lemma unknown_variable_becomes_a_literal_witness :
  Binder.locate_identifier no_suggestion one_variable (reference "@w" None)
    shop shop_store
  = Ok ((set_value (PStr "on")
           (set_type (Orso VARCHAR)
              (set_schema_column (Some 5) (new_node LITERAL))), shop),
        mkStore (column_objects shop_store ++ [w_variable])
                [mkRelationSchema "$derived" [3; 4; 5];
                 mkRelationSchema "orders" [0; 2];
                 mkRelationSchema "customers" [1]]
                0).
Proof.
  refine (unknown_variable_becomes_a_literal no_suggestion one_variable
            (reference "@w" None) shop shop_store "@w" "orders"
            eq_refl shop_well_formed _ _ _ w_variable 0
            (mkRelationSchema "$derived" [3; 4]) _ _ _ _).
  - cbn. right. left.
  - left. reflexivity.
  - intros k r Hin _. apply not_in_the_shop; try reflexivity.
    apply list_elem_of_In, in_map_iff. exists (k, SchemaRef r).
    split; [reflexivity|]. by apply list_elem_of_In.
  - reflexivity.
  - reflexivity.
  - reflexivity.
  - reflexivity.
Defined.

Lemma operand_hash_ignores_sides_and_cancels_witness :
  Binder.inner length_hash no_str shop_store
    (set_right (Some (reference "id" None))
       (set_left (Some (reference "id" None)) (new_node BINARY_OPERATOR)))
  = 0%Z.
Proof.
  apply (proj2 (operand_hash_ignores_sides_and_cancels length_hash no_str
                  shop_store
                  (set_right (Some (reference "id" None))
                     (set_left (Some (reference "id" None))
                        (new_node BINARY_OPERATOR))))
           (reference "id" None) (reference "id" None)); reflexivity.
Defined.

Lemma merging_an_environment_with_itself_copies_it_witness :
  ∃ merged σ',
    merge_schemas [ADict (schemas shop); ADict (schemas shop);
                   ADict (schemas shop)] shop_store
    = Ok (merged, σ')
    /\ extends shop_store σ'
    /\ dict_rel (new_entry_holds shop_store σ') merged shop_values.
Proof.
  apply (merging_an_environment_with_itself_copies_it shop_store
           (schemas shop) shop_values 2 shop_is_shop_values).
  apply (bool_decide_unpack _). vm_compute. exact I.
Defined.

Lemma known_name_is_bound_to_its_column_witness :
  Binder.inner_binder length_hash by_name no_str no_functions
    no_function_suggestion no_suggestion no_variables numbered 1
    (set_query_column (Some "doubled") (call "DOUBLE")) shop shop_store
  = Ok ((set_schema_column (Some 4)
           (set_query_column (Some "doubled") (call "DOUBLE")), shop),
        shop_store).
Proof.
  apply (known_name_is_bound_to_its_column length_hash by_name no_str
           no_functions no_function_suggestion no_suggestion no_variables
           numbered 0 (set_query_column (Some "doubled") (call "DOUBLE"))
           shop shop_store [] [SchemaRef 1; SchemaRef 2] 0 4
           (mkRelationSchema "$derived" [3; 4])).
  - reflexivity.
  - apply (bool_decide_unpack _). vm_compute. exact I.
  - reflexivity.
  - exact shop_well_formed.
  - intros r' Hin. by apply elem_of_nil in Hin.
  - reflexivity.
  - reflexivity.
Defined.

Lemma literal_is_bound_to_a_new_constant_witness :
  Binder.inner_binder length_hash by_name no_str no_functions
    no_function_suggestion no_suggestion no_variables numbered 1 seven shop
    shop_store
  = Ok ((set_query_column (Some "None") (set_schema_column (Some 5) seven),
         shop),
        mkStore
          (column_objects shop_store
           ++ [mkColumn ConstantColumn "None" (Some []) (Orso INTEGER) (PInt 7)
                        "a" [] false None])
          [mkRelationSchema "$derived" [3; 4; 5];
           mkRelationSchema "orders" [0; 2]; mkRelationSchema "customers" [1]]
          1).
Proof.
  apply (literal_is_bound_to_a_new_constant length_hash by_name no_str
           no_functions no_function_suggestion no_suggestion no_variables
           numbered 0 seven shop shop_store 0
           (mkRelationSchema "$derived" [3; 4])); try reflexivity.
  - exact shop_well_formed.
  - apply not_in_the_shop; reflexivity.
Defined.

Lemma unknown_function_is_reported_witness :
  Binder.inner_binder length_hash by_name no_str no_functions
    no_function_suggestion no_suggestion no_variables numbered 1
    (call "FOO") shop shop_store
  = Raise (FunctionNotFoundError (Some "FOO") None).
Proof.
  refine (proj1 (unknown_function_is_reported length_hash by_name no_str
                   no_functions no_function_suggestion no_suggestion
                   no_variables numbered 0 (call "FOO") (call "FOO") shop shop
                   shop_store shop_store "FOO" _ _ _ _ _ _ _)
            _ 0 _ _ _); try reflexivity.
  - left.
  - exact shop_well_formed.
  - apply not_in_the_shop; reflexivity.
  - eexists. split; [reflexivity|].
    repeat apply Forall_cons_2; try apply Forall_nil_2; by eexists.
  - by apply no_column_known_as_sound.
Defined.

Lemma unbound_result_is_a_subquery_or_marked_witness :
  (node_type (new_node (C := loc) SUBQUERY) ∉ [LITERAL; IDENTIFIER; EVALUATED])
  /\ (node_type (new_node (C := loc) SUBQUERY) = SUBQUERY
      \/ do_not_create_column (new_node (C := loc) SUBQUERY) = true).
Proof.
  apply (unbound_result_is_a_subquery_or_marked length_hash by_name no_str
           no_functions no_function_suggestion no_suggestion no_variables
           numbered 1 (new_node SUBQUERY) (new_node SUBQUERY) shop shop
           shop_store shop_store); reflexivity.
Defined.

(** One function is registered, [UPPER]. *)
Definition only_upper : string -> option nat :=
  λ name, if String.eqb name "UPPER" then Some 0 else None.

Lemma calculated_node_is_bound_to_a_new_column_witness :
  Binder.inner_binder length_hash by_name no_str only_upper
    no_function_suggestion no_suggestion no_variables numbered 1
    (call "UPPER") shop shop_store
  = Ok ((set_query_column (Some "None")
           (set_schema_column (Some 5)
              (set_derived_from (Some [])
                 (set_function (Some 0) (call "UPPER")))), shop),
        mkStore
          (column_objects shop_store
           ++ [mkColumn FunctionColumn "None" (Some []) Zero PNone "4" [] true
                        (Some 0)])
          [mkRelationSchema "$derived" [3; 4; 5];
           mkRelationSchema "orders" [0; 2]; mkRelationSchema "customers" [1]]
          0).
Proof.
  refine (proj1 (calculated_node_is_bound_to_a_new_column length_hash by_name
                   no_str only_upper no_function_suggestion no_suggestion
                   no_variables numbered 0 (call "UPPER") (call "UPPER") shop
                   shop shop_store shop_store 0
                   (mkRelationSchema "$derived" [3; 4]) _ _ _ _ _ _ _ _ _ _)
            "UPPER" 0 _ _ _); try reflexivity.
  - apply (bool_decide_unpack _). vm_compute. exact I.
  - exact shop_well_formed.
  - apply not_in_the_shop; reflexivity.
  - repeat apply Forall_cons_2; try apply Forall_nil_2; by eexists.
  - by apply no_column_known_as_sound.
  - left.
Defined.

End BinderFacts.


(** ** Properties of the asynchronous scan *)

Module AsyncReaderSpec.
Import AsyncReader.

Section Facts.
Context {Table Field Reference Bytes Decoder : Type}.
Variable num_rows : Table -> nat.
Variable nbytes : Table -> nat.
Variable schema_of : Table -> list Field.
Variable cast : Table -> list Field -> attempt Table.
Variable struct_to_jsonb : Table -> attempt Table.
Variable normalize_morsel : list OrsoColumn -> Table -> attempt Table.
Variable get_decoder : string -> attempt Decoder.
Variable read_and_release : Reference -> attempt Bytes.
Variable decode : Decoder -> Bytes -> attempt (nat * Table).
Variable empty_dataframe : list OrsoColumn -> Table.
Variable empty_table : list OrsoColumn -> Table.
Variable data_error_is_exception : bool.

Abbreviation poll :=
  (AsyncReader.poll num_rows nbytes schema_of cast struct_to_jsonb
     normalize_morsel get_decoder read_and_release decode empty_table
     data_error_is_exception).
Abbreviation execute :=
  (AsyncReader.execute num_rows nbytes schema_of cast struct_to_jsonb
     normalize_morsel get_decoder read_and_release decode empty_dataframe
     empty_table data_error_is_exception).
Abbreviation process :=
  (AsyncReader.process num_rows nbytes schema_of cast struct_to_jsonb
     normalize_morsel read_and_release decode data_error_is_exception).
Abbreviation try_blob :=
  (AsyncReader.try_blob num_rows nbytes schema_of cast struct_to_jsonb
     normalize_morsel read_and_release decode data_error_is_exception).
Abbreviation read_and_decode :=
  (AsyncReader.read_and_decode read_and_release decode
     data_error_is_exception).

(** The relation schema cut down to the projected columns. *)
Definition projection (schema : list OrsoColumn) (projected : list string) :
    list OrsoColumn :=
  filter (λ col, identity col ∈ projected) schema.

(** [n] polls that time out. *)
Fixpoint waited_n (n : nat) (st : State (Table := Table) (Field := Field)) :
    State :=
  match n with
  | 0 => st
  | S n => waited_n n (waited st)
  end.

Lemma waited_n_morsel n st : morsel (waited_n n st) = morsel st.
Proof. revert st. induction n as [|n IH]; intros st; [done|]. cbn. by rewrite IH. Qed.

Lemma waited_n_empty_datasets n st :
  empty_datasets (statistics (waited_n n st)) = empty_datasets (statistics st).
Proof. revert st. induction n as [|n IH]; intros st; [done|]. cbn. by rewrite IH. Qed.

Lemma waited_n_stalls n st :
  stalls_reading_from_read_buffer (statistics (waited_n n st))
  = n + stalls_reading_from_read_buffer (statistics st).
Proof.
  revert st. induction n as [|n IH]; intros st; [done|].
  cbn [waited_n]. rewrite IH. cbn. lia.
Qed.

(** When the queue delivers the end marker before any item, the loop ends
    after the timeouts met on the way. *)
Lemma poll_to_end_marker orso_schema events st out :
  List.filter (λ ev, negb (is_timeout ev)) events = [EndMarker] ->
  ∃ n, poll orso_schema events st out
       = finish empty_table orso_schema (waited_n n st) out.
Proof.
  revert st. induction events as [|ev events IH]; intros st Hserved; [done|].
  destruct ev as [|blob_name reference|]; cbn in Hserved.
  - destruct (IH (waited st) Hserved) as [n Hn]. by exists (S n).
  - by destruct (List.filter _ events).
  - by exists 0.
Qed.

(** C3, the code at the failing input.  When no blob is listed, [execute]
    yields the empty table built from the schema, goes on to start the reader
    and to poll the queue, and after the end marker it yields a second empty
    table, because the local variable [morsel] is still [None]: two morsels,
    not one. *)
Theorem empty_listing_yields_two_morsels
    (reference_of : string -> Reference) (schema : list OrsoColumn)
    (projected : list string) (events : list (QueueEvent Reference)) :
  served reference_of [] events ->
  let run := execute schema projected [] events in
  yielded run
  = [empty_dataframe (projection schema projected);
     empty_table (projection schema projected)]
  /\ outcome run = Finished
  /\ empty_datasets (statistics (final run)) = 1.
Proof.
  intros (arrival & Hperm & Hevents).
  apply Permutation_nil_r in Hperm as ->. cbn [map app] in Hevents.
  cbv zeta. unfold AsyncReader.execute. fold (projection schema projected).
  match goal with
  | |- context [AsyncReader.poll _ _ _ _ _ _ _ _ _ _ _ _ _ ?st ?out] =>
      destruct (poll_to_end_marker (projection schema projected) events st out
                  Hevents) as [n ->]
  end.
  unfold finish. rewrite waited_n_morsel. cbn [morsel yielded outcome final].
  split; [done|]. split; [done|].
  cbn [with_statistics statistics empty_dataset empty_datasets].
  by rewrite waited_n_empty_datasets.
Qed.

(** *** Failures of a blob *)

(** What the pool and the decoder give for a blob, before the inner handler
    looks at the exception. *)
Definition raw_decode (reference : Reference) (decoder : Decoder) :
    attempt (nat * Table) :=
  match read_and_release reference with
  | Returned blob_bytes => decode decoder blob_bytes
  | Threw err => Threw err
  end.

(** The state after the outer handler ran for [blob_name] and [err]. *)
Definition logged (blob_name : string) (err : Thrown)
    (st : State (Table := Table) (Field := Field)) : State :=
  mkState (failed_read ("failed to read " +:+ blob_name) (statistics st))
          (records_out st) (bytes_out st) (io_waits st)
          (warnings st
           ++ ["failed to read " +:+ blob_name +:+ " - " +:+ message err])
          (morsel st) (arrow_schema st).

(** The loop is deterministic in what the queue delivers: while it is still
    polling, what it does next is what it would do from the state and the
    output it has reached. *)
Lemma poll_resumes orso_schema pre more st0 out0 st out :
  poll orso_schema pre st0 out0 = mkRun out st Polling ->
  poll orso_schema (pre ++ more) st0 out0 = poll orso_schema more st out.
Proof.
  revert st0 out0. induction pre as [|ev pre IH]; intros st0 out0 Hpre.
  - cbn in Hpre. by injection Hpre as -> ->.
  - destruct ev as [|blob_name reference|]; cbn [app AsyncReader.poll] in *.
    + by apply IH.
    + destruct (get_decoder blob_name) as [decoder|err]; [|done].
      destruct (AsyncReader.process _ _ _ _ _ _ _ _ _ _ _ _ _ _)
        as [st1 more1|st1 err]; [|done].
      by apply IH.
    + unfold finish in Hpre. by destruct (morsel st0).
Qed.

Section DataErrorIsAnException.
Hypothesis Hsubclass : data_error_is_exception = true.

Lemma every_error_is_an_exception (e : Thrown) :
  is_exception data_error_is_exception e = true.
Proof using Hsubclass. unfold is_exception. by destruct (error_class e). Qed.

Lemma process_never_escapes orso_schema blob_name reference decoder st :
  match try_blob orso_schema blob_name reference decoder st with
  | Yielded st1 m =>
      process orso_schema blob_name reference decoder st = Continue st1 [m]
  | Failed st1 err =>
      process orso_schema blob_name reference decoder st
      = Continue (logged blob_name err st1) []
  end.
Proof using Hsubclass.
  unfold AsyncReader.process.
  destruct (try_blob _ _ _ _ _) as [st1 m|st1 err]; [done|].
  by rewrite every_error_is_an_exception.
Qed.

Lemma try_blob_keeps_log orso_schema blob_name reference decoder st :
  match try_blob orso_schema blob_name reference decoder st with
  | Yielded st1 _ | Failed st1 _ =>
      failed_reads (statistics st1) = failed_reads (statistics st)
      /\ messages (statistics st1) = messages (statistics st)
      /\ warnings st1 = warnings st
  end.
Proof.
  unfold AsyncReader.try_blob.
  destruct (read_and_decode _ _ _) as [[n m]|err]; [|done].
  destruct (struct_to_jsonb m) as [m1|err]; [|done].
  destruct (normalize_morsel orso_schema m1) as [m2|err]; [|done].
  cbn [arrow_schema with_morsel with_statistics].
  destruct (arrow_schema st) as [[|f fs]|]; [done| |done].
  by destruct (cast m2 (f :: fs)).
Qed.

Lemma poll_never_raises orso_schema events st out e :
  (∀ blob_name reference,
      Item blob_name reference ∈ events ->
      ∃ decoder, get_decoder blob_name = Returned decoder) ->
  outcome (poll orso_schema events st out) ≠ Raised e.
Proof using Hsubclass.
  revert st out.
  induction events as [|ev events IH]; intros st out Hdecoders; [done|].
  assert (∀ blob_name reference,
             Item blob_name reference ∈ events ->
             ∃ decoder, get_decoder blob_name = Returned decoder) as Hrest.
  { intros b r Hin. apply (Hdecoders b r). by right. }
  destruct ev as [|blob_name reference|]; cbn [AsyncReader.poll].
  - by apply IH.
  - destruct (Hdecoders blob_name reference) as [decoder ->]; [left|].
    pose proof (process_never_escapes orso_schema blob_name reference decoder
                  st) as Hstep.
    destruct (try_blob _ _ _ _ _); rewrite Hstep; by apply IH.
  - unfold finish. by destruct (morsel st).
Qed.

(** C2, the code at the failing input.  [DataError] being an exception like
    the others, the [DataError] that the inner handler raises for the schema
    error ["No match for"] does not leave [execute]: it is raised inside the
    outer [try], whose handler catches it.  As for every other exception
    raised while the blob is taken from the pool, decoded, normalised or
    cast, nothing is yielded for the blob, the message
    ["failed to read <blob>"] joins the message log, [failed_reads] grows by
    one, a warning is issued (the text that explains the drift ends up
    there), and the loop goes on with what the queue delivers next, from the
    state it had reached.  While a decoder is found for the blobs that
    follow, no exception leaves [execute]: the statement does not fail. *)
Theorem blob_error_is_logged_and_the_scan_goes_on
    (schema : list OrsoColumn) (projected blob_names : list string)
    (pre rest : list (QueueEvent Reference)) (blob_name : string)
    (reference : Reference) (decoder : Decoder)
    (st : State (Table := Table) (Field := Field)) (out : list Table) :
  execute schema projected blob_names pre = mkRun out st Polling ->
  get_decoder blob_name = Returned decoder ->
  let orso_schema := projection schema projected in
  let run :=
    execute schema projected blob_names
      (pre ++ Item blob_name reference :: rest) in
  (∀ err,
      raw_decode reference decoder = Threw err ->
      error_class err = ArrowInvalid ->
      str_contains "No match for" (message err) = true ->
      run
      = poll orso_schema rest (logged blob_name (schema_drift blob_name) st)
          out)
  /\ (∀ st1 err,
        try_blob orso_schema blob_name reference decoder st = Failed st1 err ->
        let st' := logged blob_name err st1 in
        run = poll orso_schema rest st' out
        /\ failed_reads (statistics st') = S (failed_reads (statistics st))
        /\ messages (statistics st')
           = messages (statistics st) ++ ["failed to read " +:+ blob_name])
  /\ (∀ e,
        (∀ blob_name' reference',
            Item blob_name' reference' ∈ rest ->
            ∃ decoder', get_decoder blob_name' = Returned decoder') ->
        outcome run ≠ Raised e).
Proof using Hsubclass.
  intros Hpre Hdecoder. cbv zeta. unfold AsyncReader.execute in *.
  fold (projection schema projected) in *.
  rewrite (poll_resumes _ _ _ _ _ _ _ Hpre). cbn [AsyncReader.poll].
  rewrite Hdecoder.
  pose proof (process_never_escapes (projection schema projected) blob_name
                reference decoder st) as Hstep.
  pose proof (try_blob_keeps_log (projection schema projected) blob_name
                reference decoder st) as Hlog.
  split; [|split].
  - intros err Hraw Hclass Hmatch.
    unfold AsyncReader.try_blob, AsyncReader.read_and_decode in Hstep.
    fold (raw_decode reference decoder) in Hstep.
    rewrite Hraw, every_error_is_an_exception, Hclass, Hmatch in Hstep.
    cbn [bool_decide andb] in Hstep.
    rewrite bool_decide_eq_true_2 in Hstep by done. cbn [andb] in Hstep.
    rewrite Hstep. by rewrite app_nil_r.
  - intros st1 err Hfailed. rewrite Hfailed in Hstep, Hlog.
    destruct Hlog as (Hf & Hm & _). rewrite Hstep, app_nil_r.
    split; [done|]. cbn. by rewrite Hf, Hm.
  - intros e Hdecoders.
    destruct (try_blob _ _ _ _ _); rewrite Hstep; by apply poll_never_raises.
Qed.

End DataErrorIsAnException.

End Facts.

(** *** A concrete scan *)

(** Tables are their number of rows; bytes and pool references are strings,
    and a blob decodes to as many rows as it has bytes, except for a blob
    whose schema drifted and a corrupt one. *)
Definition no_match : Thrown :=
  mkThrown ArrowInvalid
    "No match for FieldRef.Name(following) in user_name: string".

Definition corrupt : Thrown := mkThrown (OtherError "OSError") "Invalid parquet".

Definition decode_text (_ : unit) (blob_bytes : string) : attempt (nat * nat) :=
  if String.eqb blob_bytes "drifted" then Threw no_match
  else if String.eqb blob_bytes "corrupt" then Threw corrupt
  else Returned (String.length blob_bytes, String.length blob_bytes).

Definition scan (data_error_is_exception : bool) (blob_names : list string)
    (events : list (QueueEvent string)) : Run (Table := nat) (Field := string) :=
  AsyncReader.execute (λ t, t) (λ t, 8 * t) (λ _, ["c0"]) (λ t _, Returned t)
    Returned (λ _ t, Returned t) (λ _, Returned tt) Returned decode_text
    (λ _, 0) (λ _, 0) data_error_is_exception
    [mkOrsoColumn "user_name" "c0"] ["c0"] blob_names events.

Lemma empty_listing_yields_two_morsels_witness :
  yielded (scan true [] [Timeout; Timeout; EndMarker]) = [0; 0]
  /\ outcome (scan true [] [Timeout; Timeout; EndMarker]) = Finished
  /\ empty_datasets (statistics (final (scan true [] [Timeout; Timeout; EndMarker])))
     = 1.
Proof.
  apply (empty_listing_yields_two_morsels (λ t, t) (λ t, 8 * t) (λ _, ["c0"])
           (λ t _, Returned t) Returned (λ _ t, Returned t) (λ _, Returned tt)
           Returned decode_text (λ _, 0) (λ _, 0) true (λ b, b)
           [mkOrsoColumn "user_name" "c0"] ["c0"] [Timeout; Timeout; EndMarker]).
  exists []. split; [reflexivity|reflexivity].
Defined.

(** A scan of one blob whose schema drifted.  With [DataError] an exception,
    the blob is logged like any other that fails: [execute] returns, having
    counted one failed read and yielded the empty fallback.  Were [DataError]
    not an exception, it would be the other errors that leave [execute], as
    the [DataError] the inner handler wraps them in. *)
Lemma schema_drift_is_logged_not_raised :
  (let run := scan true ["a.parquet"] [Item "a.parquet" "drifted"; EndMarker] in
   outcome run = Finished
   /\ failed_reads (statistics (final run)) = 1
   /\ messages (statistics (final run)) = ["failed to read a.parquet"]
   /\ yielded run = [0])
  /\ (let run := scan false ["a.parquet"] [Item "a.parquet" "corrupt"; EndMarker] in
      outcome run = Raised (unreadable "a.parquet" corrupt)).
Proof. split; vm_compute; repeat split; reflexivity. Qed.

(** Two blobs: the schema of the first has drifted, the second is read. *)
Lemma blob_error_is_logged_and_the_scan_goes_on_witness :
  let run :=
    scan true ["a.parquet"; "b.parquet"]
      [Timeout; Item "a.parquet" "drifted"; Item "b.parquet" "abcd";
       EndMarker] in
  outcome run = Finished
  /\ yielded run = [4]
  /\ failed_reads (statistics (final run)) = 1
  /\ blobs_read (statistics (final run)) = 1
  /\ messages (statistics (final run)) = ["failed to read a.parquet"].
Proof.
  pose proof (proj1 (blob_error_is_logged_and_the_scan_goes_on
                       (Field := string) (λ t, t) (λ t, 8 * t) (λ _, ["c0"])
                       (λ t _, Returned t) Returned (λ _ t, Returned t)
                       (λ _, Returned tt) Returned decode_text (λ _, 0)
                       (λ _, 0) true eq_refl [mkOrsoColumn "user_name" "c0"]
                       ["c0"] ["a.parquet"; "b.parquet"] [Timeout]
                       [Item "b.parquet" "abcd"; EndMarker] "a.parquet"
                       "drifted" tt
                       (waited
                          (mkState (mkStatistics 1 0 0 0 0 0 0 []) 0 0 0 []
                             None None))
                       [] eq_refl eq_refl)
                no_match eq_refl eq_refl eq_refl) as Hrun.
  cbn [app] in Hrun. cbv zeta. unfold scan. rewrite Hrun.
  vm_compute. repeat split; reflexivity.
Defined.

End AsyncReaderSpec.


(** ** The books of the asynchronous scan *)

Module AsyncReaderAccounts.
Import AsyncReader AsyncReaderSpec.

(** What the loop reads from the queue: the events before the end marker. *)
Fixpoint before_end {Reference : Type} (events : list (QueueEvent Reference)) :
    list (QueueEvent Reference) :=
  match events with
  | [] => []
  | EndMarker :: _ => []
  | ev :: rest => ev :: before_end rest
  end.

Definition blob_names_of {Reference : Type}
    (events : list (QueueEvent Reference)) : list string :=
  flat_map (λ ev, match ev with Item blob_name _ => [blob_name] | _ => [] end)
    events.

Definition timeouts {Reference : Type} (events : list (QueueEvent Reference)) :
    nat :=
  length (List.filter is_timeout events).

Section Accounts.
Context {Table Field Reference Bytes Decoder : Type}.
Variable num_rows : Table -> nat.
Variable nbytes : Table -> nat.
Variable schema_of : Table -> list Field.
Variable cast : Table -> list Field -> attempt Table.
Variable struct_to_jsonb : Table -> attempt Table.
Variable normalize_morsel : list OrsoColumn -> Table -> attempt Table.
Variable get_decoder : string -> attempt Decoder.
Variable read_and_release : Reference -> attempt Bytes.
Variable decode : Decoder -> Bytes -> attempt (nat * Table).
Variable empty_dataframe : list OrsoColumn -> Table.
Variable empty_table : list OrsoColumn -> Table.
Variable data_error_is_exception : bool.

Abbreviation poll :=
  (AsyncReader.poll num_rows nbytes schema_of cast struct_to_jsonb
     normalize_morsel get_decoder read_and_release decode empty_table
     data_error_is_exception).
Abbreviation execute :=
  (AsyncReader.execute num_rows nbytes schema_of cast struct_to_jsonb
     normalize_morsel get_decoder read_and_release decode empty_dataframe
     empty_table data_error_is_exception).
Abbreviation process :=
  (AsyncReader.process num_rows nbytes schema_of cast struct_to_jsonb
     normalize_morsel read_and_release decode data_error_is_exception).
Abbreviation read_and_decode :=
  (AsyncReader.read_and_decode read_and_release decode
     data_error_is_exception).
Abbreviation State := (AsyncReader.State (Table := Table) (Field := Field)).
Abbreviation Run := (AsyncReader.Run (Table := Table) (Field := Field)).

(** The morsel yielded first by [execute], and the one yielded last. *)
Definition opening (orso_schema : list OrsoColumn) (blob_names : list string) :
    list Table :=
  match blob_names with
  | [] => [empty_dataframe orso_schema]
  | _ => []
  end.

Definition fallback (orso_schema : list OrsoColumn) (run : Run) : list Table :=
  match outcome run, morsel (final run) with
  | Finished, None => [empty_table orso_schema]
  | _, _ => []
  end.

(** [m] is what a cast to the schema [fields] returned. *)
Definition cast_to (fields : list Field) (m : Table) : Prop :=
  ∃ m0, cast m0 fields = Returned m.

(** *** One blob *)

(** The counters that a blob can change. *)
Record Ledger : Type := mkLedger {
  read : nat;
  failed : nat;
  rows : nat;
  rows_out : nat;
  size_out : nat;
  stalls : nat;
  waits : nat;
  fallbacks : nat;
  log : list string;
  warned : nat
}.

Definition ledger (st : State) : Ledger :=
  mkLedger (blobs_read (statistics st)) (failed_reads (statistics st))
           (rows_read (statistics st)) (records_out st) (bytes_out st)
           (stalls_reading_from_read_buffer (statistics st)) (io_waits st)
           (empty_datasets (statistics st)) (messages (statistics st))
           (length (warnings st)).

(** The ledger after a blob was read and yielded as [m], and after the read
    of [blob_name] failed. *)
Definition credited (m : Table) (l : Ledger) : Ledger :=
  mkLedger (S (read l)) (failed l) (rows l + num_rows m)
           (rows_out l + num_rows m) (size_out l + nbytes m) (stalls l)
           (waits l) (fallbacks l) (log l) (warned l).

Definition debited (blob_name : string) (l : Ledger) : Ledger :=
  mkLedger (read l) (S (failed l)) (rows l) (rows_out l) (size_out l)
           (stalls l) (waits l) (fallbacks l)
           (log l ++ ["failed to read " +:+ blob_name]) (S (warned l)).

(** The schema that later morsels are cast to: set by the first morsel that
    has a field. *)
Definition fixed_schema (st : State) : option (list Field) :=
  match arrow_schema st with
  | Some (f :: fs) => Some (f :: fs)
  | _ => None
  end.

(** What one blob does: it is yielded and credited, or its failure is logged
    and debited, or an exception leaves with the ledger as it was. *)
Lemma process_cases orso_schema blob_name reference decoder (st : State) :
  match process orso_schema blob_name reference decoder st with
  | Continue st' [] =>
      ledger st' = debited blob_name (ledger st)
      /\ fixed_schema st' = fixed_schema st
  | Continue st' [m] =>
      ledger st' = credited m (ledger st)
      /\ morsel st' = Some m
      /\ match fixed_schema st with
         | Some fields => fixed_schema st' = Some fields /\ cast_to fields m
         | None => arrow_schema st' = Some (schema_of m)
         end
  | Continue _ _ => False
  | Escaped st' _ =>
      ledger st' = ledger st /\ fixed_schema st' = fixed_schema st
  end.
Proof.
  unfold AsyncReader.process, AsyncReader.try_blob, fixed_schema.
  destruct (read_and_decode _ _ _) as [[n m]|err].
  2:{ destruct (is_exception _ err); [|done].
      unfold ledger, debited. cbn. by rewrite length_app, Nat.add_1_r. }
  destruct (struct_to_jsonb m) as [m1|err].
  2:{ destruct (is_exception _ err); [|done].
      unfold ledger, debited. cbn. by rewrite length_app, Nat.add_1_r. }
  destruct (normalize_morsel orso_schema m1) as [m2|err].
  2:{ destruct (is_exception _ err); [|done].
      unfold ledger, debited. cbn. by rewrite length_app, Nat.add_1_r. }
  cbn [arrow_schema with_morsel with_statistics].
  destruct (arrow_schema st) as [[|f fs]|] eqn:Hschema.
  - unfold ledger, credited. by cbn.
  - destruct (cast m2 (f :: fs)) as [m3|err] eqn:Hcast.
    + unfold ledger, credited. cbn. rewrite ?Hschema.
      repeat split. by exists m2.
    + destruct (is_exception _ err); unfold ledger, debited; cbn;
        by rewrite ?Hschema, ?length_app, ?Nat.add_1_r.
  - unfold ledger, credited. by cbn.
Qed.

(** A blob leaves [morsel] unset when it was unset and the blob could not be
    read or decoded; once the blob is decoded, [morsel] is set, whatever
    happens to the blob next. *)
Lemma process_morsel orso_schema blob_name reference decoder (st : State) :
  match process orso_schema blob_name reference decoder st with
  | Continue st' _ | Escaped st' _ =>
      match read_and_decode blob_name reference decoder with
      | Returned _ => morsel st' ≠ None
      | Threw _ => morsel st' = morsel st
      end
  end.
Proof.
  unfold AsyncReader.process, AsyncReader.try_blob.
  destruct (read_and_decode _ _ _) as [[n m]|err].
  2:{ by destruct (is_exception _ err). }
  destruct (struct_to_jsonb m) as [m1|err].
  2:{ by destruct (is_exception _ err). }
  destruct (normalize_morsel orso_schema m1) as [m2|err].
  2:{ by destruct (is_exception _ err). }
  cbn [arrow_schema with_morsel with_statistics].
  destruct (arrow_schema st) as [[|f fs]|]; [done| |done].
  destruct (cast m2 (f :: fs)) as [m3|err]; [done|].
  by destruct (is_exception _ err).
Qed.

(** *** The loop *)

(** The morsels share a schema: the first one that has a field fixes it, and
    every later one is what a cast to that schema returned. *)
Fixpoint aligned (ms : list Table) : Prop :=
  match ms with
  | [] => True
  | m :: rest =>
      match schema_of m with
      | [] => aligned rest
      | f :: fs => Forall (cast_to (f :: fs)) rest
      end
  end.

Lemma fallback_polling orso_schema (st : State) out :
  fallback orso_schema (mkRun out st Polling) = [].
Proof. done. Qed.

Lemma poll_yields orso_schema events (st : State) out :
  let run := poll orso_schema events st out in
  ∃ ms,
    yielded run = out ++ ms ++ fallback orso_schema run
    /\ read (ledger (final run)) = read (ledger st) + length ms
    /\ rows (ledger (final run))
       = rows (ledger st) + sum_list (map num_rows ms)
    /\ rows_out (ledger (final run))
       = rows_out (ledger st) + sum_list (map num_rows ms)
    /\ size_out (ledger (final run))
       = size_out (ledger st) + sum_list (map nbytes ms)
    /\ match fixed_schema st with
       | Some fields => Forall (cast_to fields) ms
       | None => aligned ms
       end.
Proof.
  cbv zeta. revert st out.
  induction events as [|ev events IH]; intros st out.
  - exists []. cbn. rewrite app_nil_r. repeat split; try lia.
    by destruct (fixed_schema st).
  - destruct ev as [|blob_name reference|]; cbn [AsyncReader.poll].
    + destruct (IH (waited st) out) as (ms & Hy & H1 & H2 & H3 & H4 & H5).
      exists ms. by repeat split.
    + destruct (get_decoder blob_name) as [decoder|err].
      2:{ exists []. cbn. rewrite app_nil_r. repeat split; try lia.
          by destruct (fixed_schema st). }
      pose proof (process_cases orso_schema blob_name reference decoder st)
        as Hstep.
      destruct (process orso_schema blob_name reference decoder st)
        as [st' more|st' err].
      2:{ destruct Hstep as [Hledger _]. exists []. cbn [yielded final].
          rewrite Hledger. cbn. rewrite app_nil_r. repeat split; try lia.
          by destruct (fixed_schema st). }
      destruct (IH st' (out ++ more)) as (ms & Hy & H1 & H2 & H3 & H4 & H5).
      destruct more as [|m [|m' more]]; [| |done].
      * destruct Hstep as [Hledger Hfixed]. exists ms.
        rewrite Hy, H1, H2, H3, H4, Hledger, app_nil_r.
        rewrite Hfixed in H5. by repeat split.
      * destruct Hstep as (Hledger & _ & Hfixed). exists (m :: ms).
        rewrite Hy, H1, H2, H3, H4, Hledger, <- app_assoc.
        cbn. repeat split; try lia.
        destruct (fixed_schema st) as [fields|].
        -- destruct Hfixed as [Hfixed Hcast]. rewrite Hfixed in H5.
           by constructor.
        -- unfold fixed_schema in H5. rewrite Hfixed in H5.
           by destruct (schema_of m).
    + unfold finish. destruct (morsel st) eqn:Hmorsel.
      * exists []. unfold fallback. cbn. rewrite Hmorsel, app_nil_r.
        repeat split; try lia. by destruct (fixed_schema st).
      * exists []. unfold fallback. cbn. rewrite Hmorsel.
        repeat split; try lia. by destruct (fixed_schema st).
Qed.

(** A run that no exception leaves has read every event before the end
    marker. *)
Lemma poll_counts orso_schema events (st : State) out :
  let run := poll orso_schema events st out in
  (∀ e, outcome run ≠ Raised e) ->
  ∃ failed_blobs,
    failed_blobs `sublist_of` blob_names_of (before_end events)
    /\ log (ledger (final run))
       = log (ledger st)
         ++ map (λ blob_name, "failed to read " +:+ blob_name) failed_blobs
    /\ failed (ledger (final run)) = failed (ledger st) + length failed_blobs
    /\ warned (ledger (final run)) = warned (ledger st) + length failed_blobs
    /\ read (ledger (final run)) + failed (ledger (final run))
       = read (ledger st) + failed (ledger st)
         + length (blob_names_of (before_end events))
    /\ stalls (ledger (final run))
       = stalls (ledger st) + timeouts (before_end events)
    /\ waits (ledger (final run))
       = waits (ledger st) + timeouts (before_end events).
Proof.
  cbv zeta. revert st out.
  induction events as [|ev events IH]; intros st out Hreturns.
  - exists []. cbn. rewrite app_nil_r. repeat split; (done || lia).
  - destruct ev as [|blob_name reference|]; cbn [AsyncReader.poll] in *.
    + destruct (IH (waited st) out Hreturns)
        as (fb & Hsub & H1 & H2 & H3 & H4 & H5 & H6).
      exists fb. cbn in *. unfold timeouts in *. cbn.
      repeat split; (done || lia).
    + destruct (get_decoder blob_name) as [decoder|err].
      2:{ by destruct (Hreturns err). }
      pose proof (process_cases orso_schema blob_name reference decoder st)
        as Hstep.
      destruct (process orso_schema blob_name reference decoder st)
        as [st' more|st' err].
      2:{ by destruct (Hreturns err). }
      destruct (IH st' (out ++ more) Hreturns)
        as (fb & Hsub & H1 & H2 & H3 & H4 & H5 & H6).
      destruct more as [|m [|m' more]]; [| |done].
      * destruct Hstep as [Hledger _]. exists (blob_name :: fb).
        unfold ledger, debited in Hledger. cbn in Hledger.
        injection Hledger as E1 E2 E3 E4 E5 E6 E7 E8 E9 E10.
        unfold timeouts, blob_names_of in *. cbn in *.
        split; [by apply sublist_skip|].
        split; [by rewrite H1, E9, <- app_assoc|]. repeat split; lia.
      * destruct Hstep as (Hledger & _). exists fb.
        unfold ledger, credited in Hledger. cbn in Hledger.
        injection Hledger as E1 E2 E3 E4 E5 E6 E7 E8 E9 E10.
        unfold timeouts, blob_names_of in *. cbn in *.
        split; [by apply sublist_cons|].
        split; [by rewrite H1, E9|]. repeat split; lia.
    + exists []. unfold finish. destruct (morsel st); cbn;
        rewrite app_nil_r; repeat split; (done || lia).
Qed.

(** Whether the blob behind an event could be read and decoded. *)
Definition decoded (blob_name : string) (reference : Reference) : bool :=
  match get_decoder blob_name with
  | Returned decoder =>
      match read_and_decode blob_name reference decoder with
      | Returned _ => true
      | Threw _ => false
      end
  | Threw _ => false
  end.

Definition nothing_decoded (events : list (QueueEvent Reference)) : bool :=
  forallb (λ ev, match ev with
                 | Item blob_name reference => negb (decoded blob_name reference)
                 | _ => true
                 end) events.

Lemma poll_morsel orso_schema events (st : State) out :
  let run := poll orso_schema events st out in
  outcome run = Finished ->
  (morsel (final run) = None
   <-> morsel st = None /\ nothing_decoded (before_end events) = true)
  /\ fallbacks (ledger (final run))
     = fallbacks (ledger st)
       + match morsel (final run) with Some _ => 0 | None => 1 end.
Proof.
  cbv zeta. revert st out.
  induction events as [|ev events IH]; intros st out Hfinished; [done|].
  destruct ev as [|blob_name reference|]; cbn [AsyncReader.poll] in *.
  - destruct (IH (waited st) out Hfinished) as [Hiff Hfallbacks].
    split; [exact Hiff|]. by rewrite Hfallbacks.
  - unfold nothing_decoded, decoded. cbn [before_end forallb].
    destruct (get_decoder blob_name) as [decoder|err]; [|done].
    pose proof (process_cases orso_schema blob_name reference decoder st)
      as Hstep.
    pose proof (process_morsel orso_schema blob_name reference decoder st)
      as Hmorsel.
    destruct (process orso_schema blob_name reference decoder st)
      as [st' more|st' err]; [|done].
    destruct (IH st' (out ++ more) Hfinished) as [Hiff Hfallbacks].
    assert (fallbacks (ledger st') = fallbacks (ledger st)) as Hsame.
    { destruct more as [|m [|m' more]]; [| |done].
      - destruct Hstep as [-> _]. done.
      - destruct Hstep as (-> & _). done. }
    split; [|by rewrite Hfallbacks, Hsame].
    rewrite Hiff. fold (nothing_decoded (before_end events)).
    destruct (read_and_decode blob_name reference decoder) as [d|err].
    + cbn. split; [by intros [? _]|by intros [_ ?]].
    + cbn. by rewrite Hmorsel.
  - unfold finish. destruct (morsel st) eqn:Hmorsel; cbn; rewrite Hmorsel.
    + split; [|lia]. split; [done|by intros [? _]].
    + split; [done|lia].
Qed.

(** The loop over [pre ++ more], when the events [pre] are used up without
    the end marker and without an exception, goes on over [more] from where
    it stands. *)
Lemma poll_app orso_schema pre more (st : State) out :
  outcome (poll orso_schema pre st out) = Polling ->
  poll orso_schema (pre ++ more) st out
  = poll orso_schema more (final (poll orso_schema pre st out))
      (yielded (poll orso_schema pre st out)).
Proof.
  revert st out. induction pre as [|ev pre IH]; intros st out Hpolling; [done|].
  destruct ev as [|blob_name reference|]; cbn [app AsyncReader.poll] in *.
  - by apply IH.
  - destruct (get_decoder blob_name) as [decoder|err]; [|done].
    destruct (process orso_schema blob_name reference decoder st)
      as [st' yielded_here|st' err]; [|done].
    by apply IH.
  - unfold finish in Hpolling. by destruct (morsel st).
Qed.

(** *** The books of [execute] *)

(** The state in which the loop is entered. *)
Definition opened (orso_schema : list OrsoColumn) : State :=
  mkState (mkStatistics (length orso_schema) 0 0 0 0 0 0 []) 0 0 0 [] None None.

Lemma execute_poll schema projected blob_names events :
  execute schema projected blob_names events
  = poll (projection schema projected) events
      (opened (projection schema projected))
      (opening (projection schema projected) blob_names).
Proof. done. Qed.

(** What [execute] yields is on its books, whatever the queue delivers and
    however the run ends: the morsels yielded are the empty table of a
    listing without blobs, then the morsels of the blobs read, then the
    fallback table (yielded by a run that returns with [morsel] unset);
    [blobs_read] is the number of blob morsels, [rows_read] and [records_out]
    are their rows, and [bytes_out] is their size. *)
Theorem yielded_morsels_are_on_the_books
    (schema : list OrsoColumn) (projected blob_names : list string)
    (events : list (QueueEvent Reference)) :
  let orso_schema := projection schema projected in
  let run := execute schema projected blob_names events in
  ∃ ms,
    yielded run
    = opening orso_schema blob_names ++ ms ++ fallback orso_schema run
    /\ blobs_read (statistics (final run)) = length ms
    /\ rows_read (statistics (final run)) = sum_list (map num_rows ms)
    /\ records_out (final run) = sum_list (map num_rows ms)
    /\ bytes_out (final run) = sum_list (map nbytes ms).
Proof.
  cbv zeta. rewrite execute_poll.
  destruct (poll_yields (projection schema projected) events
              (opened (projection schema projected))
              (opening (projection schema projected) blob_names))
    as (ms & Hy & H1 & H2 & H3 & H4 & _).
  exists ms. by repeat split.
Qed.

(** The blob morsels that [execute] yields share a schema: the first of them
    that has a field fixes the schema, and every later one is what the cast
    to that schema returned. *)
Theorem yielded_morsels_are_cast_to_the_first_schema
    (schema : list OrsoColumn) (projected blob_names : list string)
    (events : list (QueueEvent Reference)) :
  let orso_schema := projection schema projected in
  let run := execute schema projected blob_names events in
  ∃ ms,
    yielded run
    = opening orso_schema blob_names ++ ms ++ fallback orso_schema run
    /\ aligned ms.
Proof.
  cbv zeta. rewrite execute_poll.
  destruct (poll_yields (projection schema projected) events
              (opened (projection schema projected))
              (opening (projection schema projected) blob_names))
    as (ms & Hy & _ & _ & _ & _ & Haligned).
  exists ms. by split.
Qed.

(** In a run that no exception leaves, every blob taken from the queue
    before the end marker is counted once, as read or as failed; the message
    log lists ["failed to read <blob>"] for the failed ones, in the order in
    which they came; one warning is issued for each; and every poll that
    timed out is counted as one stall and one wait. *)
Theorem every_blob_is_counted_once
    (schema : list OrsoColumn) (projected blob_names : list string)
    (events : list (QueueEvent Reference)) :
  let run := execute schema projected blob_names events in
  let seen := blob_names_of (before_end events) in
  (∀ e, outcome run ≠ Raised e) ->
  blobs_read (statistics (final run)) + failed_reads (statistics (final run))
  = length seen
  /\ (∃ failed_blobs,
        failed_blobs `sublist_of` seen
        /\ messages (statistics (final run))
           = map (λ blob_name, "failed to read " +:+ blob_name) failed_blobs
        /\ failed_reads (statistics (final run)) = length failed_blobs
        /\ length (warnings (final run)) = length failed_blobs)
  /\ stalls_reading_from_read_buffer (statistics (final run))
     = timeouts (before_end events)
  /\ io_waits (final run) = timeouts (before_end events).
Proof.
  cbv zeta. rewrite execute_poll. intros Hreturns.
  destruct (poll_counts (projection schema projected) events
              (opened (projection schema projected))
              (opening (projection schema projected) blob_names) Hreturns)
    as (fb & Hsub & H1 & H2 & H3 & H4 & H5 & H6).
  cbn in *. split; [done|]. split; [|by split].
  exists fb. by repeat split.
Qed.

(** A run that returns yields the fallback table, and counts one empty
    dataset, exactly when no blob taken from the queue could be read and
    decoded.  A blob that was decoded and then failed (in its normalisation
    or its cast) counts like a blob that was read: when no blob was read to
    the end, such a run yields nothing for its blobs, and no fallback
    either. *)
Theorem fallback_is_yielded_when_nothing_was_decoded
    (schema : list OrsoColumn) (projected blob_names : list string)
    (events : list (QueueEvent Reference)) :
  let orso_schema := projection schema projected in
  let run := execute schema projected blob_names events in
  outcome run = Finished ->
  (nothing_decoded (before_end events) = true ->
   empty_datasets (statistics (final run)) = 1
   /\ ∃ ms, yielded run = ms ++ [empty_table orso_schema])
  /\ (nothing_decoded (before_end events) = false ->
      empty_datasets (statistics (final run)) = 0
      /\ (blobs_read (statistics (final run)) = 0 ->
          yielded run = opening orso_schema blob_names)).
Proof.
  cbv zeta. rewrite execute_poll. intros Hfinished.
  destruct (poll_morsel (projection schema projected) events
              (opened (projection schema projected))
              (opening (projection schema projected) blob_names) Hfinished)
    as [Hiff Hfallbacks].
  destruct (poll_yields (projection schema projected) events
              (opened (projection schema projected))
              (opening (projection schema projected) blob_names))
    as (ms & Hy & Hread & _).
  unfold fallback in Hy. rewrite Hfinished in Hy. cbn in Hfallbacks, Hread.
  split; intros Hnothing.
  - assert (morsel
              (final
                 (poll (projection schema projected) events
                    (opened (projection schema projected))
                    (opening (projection schema projected) blob_names)))
            = None) as Hnone by (by apply Hiff).
    rewrite Hnone in Hy, Hfallbacks. split; [done|].
    eexists. by rewrite Hy, !app_assoc.
  - destruct (morsel
                (final
                   (poll (projection schema projected) events
                      (opened (projection schema projected))
                      (opening (projection schema projected) blob_names))))
      as [m|] eqn:Hmorsel.
    + split; [done|]. intros Hzero. rewrite Hzero in Hread.
      destruct ms; [|done]. by rewrite Hy, !app_nil_r.
    + destruct Hiff as [Hiff _]. destruct (Hiff eq_refl) as [_ Hall].
      congruence.
Qed.

(** A blob for which no decoder is found ends the scan: the exception of
    [get_decoder] leaves [execute] as it is.  Nothing is yielded, counted or
    logged for that blob, and what the queue holds behind it is not read. *)
Theorem missing_decoder_ends_the_scan
    (schema : list OrsoColumn) (projected blob_names : list string)
    (pre rest : list (QueueEvent Reference)) (blob_name : string)
    (reference : Reference) (err : Thrown) :
  let before := execute schema projected blob_names pre in
  outcome before = Polling ->
  get_decoder blob_name = Threw err ->
  execute schema projected blob_names (pre ++ Item blob_name reference :: rest)
  = mkRun (yielded before) (final before) (Raised err).
Proof.
  cbv zeta. rewrite !execute_poll. intros Hpolling Hdecoder.
  rewrite poll_app by done. cbn [AsyncReader.poll]. by rewrite Hdecoder.
Qed.

End Accounts.

(** *** Concrete scans *)

(** The scan of the examples, with a decoder lookup and a normalisation of
    its own. *)
Definition scan_with (get_decoder : string -> attempt unit)
    (normalize_morsel : list OrsoColumn -> nat -> attempt nat)
    (blob_names : list string) (events : list (QueueEvent string)) :
    Run (Table := nat) (Field := string) :=
  AsyncReader.execute (λ t, t) (λ t, 8 * t) (λ _, ["c0"]) (λ t _, Returned t)
    Returned normalize_morsel get_decoder Returned decode_text (λ _, 0)
    (λ _, 0) true [mkOrsoColumn "user_name" "c0"] ["c0"] blob_names events.

(** No decoder is known for text files. *)
Definition no_text_decoder (blob_name : string) : attempt unit :=
  if String.eqb blob_name "notes.txt"
  then Threw (mkThrown (OtherError "UnsupportedFileTypeError") "notes.txt")
  else Returned tt.

(** Tables of three rows cannot be normalised. *)
Definition no_three_rows (_ : list OrsoColumn) (t : nat) : attempt nat :=
  if Nat.eqb t 3
  then Threw (mkThrown (OtherError "ValueError") "cannot normalise")
  else Returned t.

Lemma every_blob_is_counted_once_witness :
  let run :=
    scan true ["a.parquet"; "b.parquet"]
      [Timeout; Item "b.parquet" "corrupt"; Item "a.parquet" "abcd";
       EndMarker] in
  blobs_read (statistics (final run)) + failed_reads (statistics (final run))
  = 2
  /\ messages (statistics (final run)) = ["failed to read b.parquet"]
  /\ stalls_reading_from_read_buffer (statistics (final run)) = 1.
Proof.
  cbv zeta.
  destruct (every_blob_is_counted_once (λ t, t) (λ t, 8 * t) (λ _, ["c0"])
              (λ t _, Returned t) Returned (λ _ t, Returned t)
              (λ _, Returned tt) Returned decode_text (λ _, 0) (λ _, 0) true
              [mkOrsoColumn "user_name" "c0"] ["c0"]
              ["a.parquet"; "b.parquet"]
              [Timeout; Item "b.parquet" "corrupt"; Item "a.parquet" "abcd";
               EndMarker])
    as (Hcounted & _ & Hstalls & _).
  - intros e. vm_compute. discriminate.
  - split; [exact Hcounted|]. split; [reflexivity|exact Hstalls].
Defined.

Lemma fallback_is_yielded_when_nothing_was_decoded_witness :
  let run :=
    scan_with (λ _, Returned tt) no_three_rows ["a.parquet"]
      [Item "a.parquet" "abc"; EndMarker] in
  empty_datasets (statistics (final run)) = 0 /\ yielded run = [].
Proof.
  cbv zeta.
  destruct (fallback_is_yielded_when_nothing_was_decoded (λ t, t)
              (λ t, 8 * t) (λ _, ["c0"]) (λ t _, Returned t) Returned
              no_three_rows (λ _, Returned tt) Returned decode_text (λ _, 0)
              (λ _, 0) true [mkOrsoColumn "user_name" "c0"] ["c0"]
              ["a.parquet"] [Item "a.parquet" "abc"; EndMarker])
    as [_ Hdecoded].
  - reflexivity.
  - destruct Hdecoded as [Hnone Hnothing]; [reflexivity|].
    split; [exact Hnone|]. apply Hnothing. reflexivity.
Defined.

Lemma missing_decoder_ends_the_scan_witness :
  scan_with no_text_decoder (λ _ t, Returned t) ["a.parquet"; "notes.txt"]
    [Item "a.parquet" "abc"; Item "notes.txt" "hello"; EndMarker]
  = mkRun [3]
      (final (scan_with no_text_decoder (λ _ t, Returned t)
                ["a.parquet"; "notes.txt"] [Item "a.parquet" "abc"]))
      (Raised (mkThrown (OtherError "UnsupportedFileTypeError") "notes.txt")).
Proof.
  apply (missing_decoder_ends_the_scan (λ t, t) (λ t, 8 * t) (λ _, ["c0"])
           (λ t _, Returned t) Returned (λ _ t, Returned t) no_text_decoder
           Returned decode_text (λ _, 0) (λ _, 0) true
           [mkOrsoColumn "user_name" "c0"] ["c0"] ["a.parquet"; "notes.txt"]
           [Item "a.parquet" "abc"] [EndMarker] "notes.txt" "hello");
    reflexivity.
Defined.

End AsyncReaderAccounts.


(** ** Properties of the single-key hash inner join *)

Module InnerJoinSingleSpec.
Import InnerJoinSingle.

(** *** The null mask *)

(** The key column is laid out as the Arrow format says: the validity bitmap
    has a bit for every row, and there is a value slot for every row. *)
Definition well_formed (array : ArrowArray) : Prop :=
  match null_bitmap array with
  | Some bitmap => num_rows array <= 8 * length bitmap
  | None => True
  end
  /\ match data array with
     | IntegerData values => num_rows array <= length values
     | VariableData values => num_rows array <= length values
     | _ => True
     end.

Lemma land_one (x : Z) : Z.land x 1 = Z.b2z (Z.testbit x 0).
Proof.
  change 1%Z with (Z.ones 1). rewrite Z.land_ones by lia.
  by rewrite Z.bit0_mod.
Qed.

Lemma truthy_bit (byte : Z) (bit : nat) :
  truthy (Z.land (Z.shiftr byte (Z.of_nat bit)) 1)
  = Z.testbit byte (Z.of_nat bit).
Proof.
  rewrite land_one, Z.shiftr_spec by lia. rewrite Z.add_0_l.
  unfold truthy. by destruct (Z.testbit byte (Z.of_nat bit)).
Qed.

Lemma bits_lookup (bitmap : list Z) (i : nat) :
  i < 8 * length bitmap ->
  ∃ z, bits bitmap !! i = Some z
       /\ truthy z = Z.testbit (nth (i / 8) bitmap 0%Z) (Z.of_nat (i mod 8)).
Proof.
  revert i. induction bitmap as [|byte bitmap IH]; intros i Hi; [cbn in Hi; lia|].
  unfold bits. cbn [flat_map]. fold (bits bitmap).
  destruct (decide (i < 8)) as [Hlt|Hge].
  - rewrite lookup_app_l by (rewrite length_map, length_seq; lia).
    rewrite (Nat.div_small i 8), (Nat.mod_small i 8) by lia. cbn [nth].
    eexists. split; [|apply truthy_bit].
    rewrite list_lookup_fmap, lookup_seq_lt by lia. reflexivity.
  - rewrite lookup_app_r by (rewrite length_map, length_seq; lia).
    rewrite length_map, length_seq.
    destruct (IH (i - 8)) as (z & Hz & Hbit); [cbn [length] in Hi; lia|].
    exists z. split; [done|]. rewrite Hbit.
    replace i with (i - 8 + 1 * 8) at 3 4 by lia.
    rewrite Nat.div_add, Nat.Div0.mod_add by lia.
    replace ((i - 8) / 8 + 1) with (S ((i - 8) / 8)) by lia. done.
Qed.

Lemma null_array_length (array : ArrowArray) :
  well_formed array -> length (null_array array) = num_rows array.
Proof.
  intros [Hbitmap _]. unfold null_array.
  destruct (null_bitmap array) as [bitmap|].
  - rewrite length_take. unfold bits.
    assert (length (bits bitmap) = 8 * length bitmap) as Hlen.
    { clear. induction bitmap as [|b bitmap IH]; [done|].
      unfold bits in *. cbn [flat_map]. rewrite length_app, IH. cbn. lia. }
    unfold bits in Hlen. lia.
  - apply length_replicate.
Qed.

Lemma null_array_lookup (array : ArrowArray) (i : nat) :
  well_formed array -> i < num_rows array ->
  ∃ z, null_array array !! i = Some z /\ truthy z = is_valid array i.
Proof.
  intros [Hbitmap _] Hi. unfold null_array, is_valid.
  destruct (null_bitmap array) as [bitmap|].
  - rewrite lookup_take_lt by done. apply bits_lookup. lia.
  - exists 1%Z. split; [|done]. by apply lookup_replicate_2.
Qed.

(** The rows whose key is not null, in row order. *)
Definition valid_rows (array : ArrowArray) : list nat :=
  List.filter (is_valid array) (seq 0 (num_rows array)).

Lemma valid_rows_spec (array : ArrowArray) (i : nat) :
  i ∈ valid_rows array <-> i < num_rows array /\ is_valid array i = true.
Proof.
  unfold valid_rows. rewrite list_elem_of_In, filter_In, in_seq. intuition lia.
Qed.

Lemma live_valid (array : ArrowArray) (i : nat) :
  well_formed array -> i < num_rows array ->
  live (null_array array) i = Ok (is_valid array i).
Proof.
  intros Hwf Hi. unfold live.
  destruct (null_array_lookup array i Hwf Hi) as (z & -> & <-). done.
Qed.

Lemma where_from_filter (valid : nat -> bool) (i0 : nat) (entries : list Z) :
  (∀ k z, entries !! k = Some z -> truthy z = valid (i0 + k)) ->
  where_from i0 entries = List.filter valid (seq i0 (length entries)).
Proof.
  revert i0. induction entries as [|z entries IH]; intros i0 Hentries; [done|].
  cbn [where_from length seq List.filter].
  rewrite (Hentries 0 z eq_refl), Nat.add_0_r.
  rewrite (IH (S i0)).
  - by destruct (valid i0).
  - intros k z' Hk. rewrite (Hentries (S k) z' Hk). f_equal. lia.
Qed.

Lemma where_true_valid_rows (array : ArrowArray) :
  well_formed array -> where_true (null_array array) = valid_rows array.
Proof.
  intros Hwf. unfold where_true, valid_rows.
  rewrite (where_from_filter (is_valid array)).
  - by rewrite null_array_length.
  - intros k z Hk. cbn [Nat.add].
    assert (k < num_rows array) as Hlt.
    { rewrite <- (null_array_length array Hwf). by eapply lookup_lt_Some. }
    destruct (null_array_lookup array k Hwf Hlt) as (z' & Hz' & <-).
    congruence.
Qed.

Lemma filter_valid_from_map {A} (array : ArrowArray) (d : A) (i0 : nat)
    (values : list A) :
  filter_valid_from array i0 values
  = map (λ i, nth (i - i0) values d)
        (List.filter (is_valid array) (seq i0 (length values))).
Proof.
  revert i0. induction values as [|v values IH]; intros i0; [done|].
  cbn [filter_valid_from length seq List.filter]. rewrite IH.
  assert (map (λ i, nth (i - S i0) values d)
              (List.filter (is_valid array) (seq (S i0) (length values)))
          = map (λ i, nth (i - i0) (v :: values) d)
                (List.filter (is_valid array) (seq (S i0) (length values))))
    as ->.
  { apply map_ext_in. intros i [Hi _]%filter_In. apply in_seq in Hi.
    replace (i - i0) with (S (i - S i0)) by lia. done. }
  destruct (is_valid array i0); [|done].
  cbn [map]. by rewrite Nat.sub_diag.
Qed.

(** *** Building and probing, row by row *)

Section Loops.
Variable hash : list Z -> Z.

(** The hash table after the rows [rows] were inserted under their keys. *)
Definition build (key : nat -> Z) (rows : list nat) (ht : HashTable) :
    HashTable :=
  fold_left (λ ht i, insert (key i) i ht) rows ht.

(** The index lists after the rows [rows] were looked up. *)
Definition probe (key : nat -> Z) (hash_table : HashTable) (rows : list nat)
    (indexes : list nat * list nat) : list nat * list nat :=
  fold_left (λ indexes j, extend (get (key j) hash_table) j indexes) rows
    indexes.

Lemma build_ext key key' rows ht :
  (∀ i, i ∈ rows -> key i = key' i) -> build key rows ht = build key' rows ht.
Proof.
  revert ht. induction rows as [|i rows IH]; intros ht Hkeys; [done|].
  cbn [build fold_left]. rewrite (Hkeys i) by left.
  apply IH. intros i' Hi'. apply Hkeys. by right.
Qed.

Lemma probe_ext key key' hash_table rows indexes :
  (∀ i, i ∈ rows -> key i = key' i) ->
  probe key hash_table rows indexes = probe key' hash_table rows indexes.
Proof.
  revert indexes. induction rows as [|i rows IH]; intros indexes Hkeys; [done|].
  cbn [probe fold_left]. rewrite (Hkeys i) by left.
  apply IH. intros i' Hi'. apply Hkeys. by right.
Qed.

Lemma extend_if_any_extend rows j indexes :
  extend_if_any rows j indexes = extend rows j indexes.
Proof.
  destruct rows; [|done]. destruct indexes. unfold extend. cbn.
  by rewrite !app_nil_r.
Qed.

Lemma insert_integers_build (key : nat -> Z) (before rows : list nat) ht :
  insert_integers (length before) (map key rows) (before ++ rows) ht
  = Ok (build key rows ht).
Proof.
  revert before ht. induction rows as [|i rows IH]; intros before ht; [done|].
  cbn [map insert_integers].
  rewrite lookup_app_r, Nat.sub_diag by done. cbn [lookup list_lookup].
  replace (before ++ i :: rows) with ((before ++ [i]) ++ rows)
    by (by rewrite <- app_assoc).
  replace (S (length before)) with (length (before ++ [i]))
    by (rewrite length_app; cbn; lia).
  apply IH.
Qed.

Lemma probe_integers_probe (key : nat -> Z) (before rows : list nat)
    hash_table indexes :
  probe_integers (length before) (map key rows) (before ++ rows) hash_table
    indexes
  = Ok (probe key hash_table rows indexes).
Proof.
  revert before indexes.
  induction rows as [|j rows IH]; intros before indexes; [done|].
  cbn [map probe_integers probe fold_left].
  replace (before ++ j :: rows) with ((before ++ [j]) ++ rows)
    by (by rewrite <- app_assoc).
  replace (S (length before)) with (length (before ++ [j]))
    by (rewrite length_app; cbn; lia).
  destruct (get (key j) hash_table) as [|i rows'] eqn:Hrows.
  - rewrite IH. f_equal. unfold probe. f_equal.
    destruct indexes. unfold extend. cbn. by rewrite !app_nil_r.
  - rewrite <- app_assoc. cbn [app].
    rewrite lookup_app_r, Nat.sub_diag by done. cbn [lookup list_lookup].
    replace (before ++ j :: rows) with ((before ++ [j]) ++ rows)
      by (by rewrite <- app_assoc).
    apply IH.
Qed.

Lemma insert_fixed_build array item_size data_buffer rows ht :
  well_formed array -> (∀ i, i ∈ rows -> i < num_rows array) ->
  insert_fixed hash rows (null_array array) item_size data_buffer ht
  = Ok (build
          (λ i, hash (slice data_buffer (i * item_size)
                        (i * item_size + item_size)))
          (List.filter (is_valid array) rows) ht).
Proof.
  intros Hwf. revert ht. induction rows as [|i rows IH]; intros ht Hrows; [done|].
  cbn [insert_fixed List.filter]. rewrite live_valid by (done || apply Hrows; left).
  cbn [Py.bind]. destruct (is_valid array i); rewrite IH; try done;
    intros i' Hi'; apply Hrows; by right.
Qed.

Lemma probe_fixed_probe array item_size data_buffer rows hash_table indexes :
  well_formed array -> (∀ i, i ∈ rows -> i < num_rows array) ->
  probe_fixed hash rows (null_array array) item_size data_buffer hash_table
    indexes
  = Ok (probe
          (λ i, hash (slice data_buffer (i * item_size)
                        (i * item_size + item_size)))
          hash_table (List.filter (is_valid array) rows) indexes).
Proof.
  intros Hwf. revert indexes.
  induction rows as [|i rows IH]; intros indexes Hrows; [done|].
  cbn [probe_fixed List.filter].
  rewrite live_valid by (done || apply Hrows; left).
  cbn [Py.bind]. destruct (is_valid array i); cbv zeta;
    rewrite ?extend_if_any_extend, IH; try done;
    intros i' Hi'; apply Hrows; by right.
Qed.

Lemma insert_variable_build array i0 values ht :
  well_formed array -> i0 + length values <= num_rows array ->
  insert_variable hash i0 values (null_array array) ht
  = Ok (build (λ i, hash (nth (i - i0) values []))
          (List.filter (is_valid array) (seq i0 (length values))) ht).
Proof.
  intros Hwf. revert i0 ht.
  induction values as [|val values IH]; intros i0 ht Hrows; [done|].
  cbn [length] in Hrows.
  cbn [insert_variable length seq List.filter].
  rewrite live_valid by (done || lia). cbn [Py.bind].
  assert (∀ ht',
             build (λ i, hash (nth (i - S i0) values []))
               (List.filter (is_valid array) (seq (S i0) (length values))) ht'
             = build (λ i, hash (nth (i - i0) (val :: values) []))
                 (List.filter (is_valid array) (seq (S i0) (length values)))
                 ht') as Hshift.
  { intros ht'. apply build_ext. intros i Hi.
    apply list_elem_of_In, filter_In in Hi as [Hi _]. apply in_seq in Hi.
    replace (i - i0) with (S (i - S i0)) by lia. done. }
  destruct (is_valid array i0); rewrite IH by lia; rewrite Hshift; [|done].
  cbn [build fold_left]. by rewrite Nat.sub_diag.
Qed.

Lemma probe_variable_probe array i0 values hash_table indexes :
  well_formed array -> i0 + length values <= num_rows array ->
  probe_variable hash i0 values (null_array array) hash_table indexes
  = Ok (probe (λ i, hash (nth (i - i0) values [])) hash_table
          (List.filter (is_valid array) (seq i0 (length values))) indexes).
Proof.
  intros Hwf. revert i0 indexes.
  induction values as [|val values IH]; intros i0 indexes Hrows; [done|].
  cbn [length] in Hrows.
  cbn [probe_variable length seq List.filter].
  rewrite live_valid by (done || lia). cbn [Py.bind].
  assert (∀ indexes',
             probe (λ i, hash (nth (i - S i0) values [])) hash_table
               (List.filter (is_valid array) (seq (S i0) (length values)))
               indexes'
             = probe (λ i, hash (nth (i - i0) (val :: values) [])) hash_table
                 (List.filter (is_valid array) (seq (S i0) (length values)))
                 indexes') as Hshift.
  { intros indexes'. apply probe_ext. intros i Hi.
    apply list_elem_of_In, filter_In in Hi as [Hi _]. apply in_seq in Hi.
    replace (i - i0) with (S (i - S i0)) by lia. done. }
  destruct (is_valid array i0); cbv zeta;
    rewrite ?extend_if_any_extend, IH by lia; rewrite Hshift; [|done].
  cbn [probe fold_left]. by rewrite Nat.sub_diag.
Qed.

(** The key under which a row is inserted and looked up: the value of an
    integer, the hash of the bytes of anything else. *)
Definition lookup_key (array : ArrowArray) (i : nat) : Z :=
  match data array with
  | IntegerData values => nth i values 0%Z
  | FixedWidthData _ bit_width data_buffer =>
      hash (slice data_buffer (i * (bit_width / 8))
              (i * (bit_width / 8) + bit_width / 8))
  | VariableData values => hash (nth i values [])
  | UnsupportedData => 0%Z
  end.

Definition supported (array : ArrowArray) : Prop := data array ≠ UnsupportedData.

(** The rows that the probe looks up: none for a column type it skips. *)
Definition probed_rows (array : ArrowArray) : list nat :=
  match data array with
  | UnsupportedData => []
  | _ => valid_rows array
  end.

Lemma nth_take_lt {A} (d : A) (n i : nat) (l : list A) :
  i < n -> nth i (take n l) d = nth i l d.
Proof.
  revert n i. induction l as [|x l IH]; intros n i Hi.
  - by destruct n, i.
  - destruct n as [|n]; [lia|]. destruct i as [|i]; [done|].
    cbn. apply IH. lia.
Qed.

Lemma preprocess_left_build (array : ArrowArray) :
  well_formed array -> supported array ->
  preprocess_left hash array
  = Ok (build (lookup_key array) (valid_rows array) ∅).
Proof.
  intros Hwf Hsupported. pose proof Hwf as [_ Hslots].
  unfold preprocess_left, lookup_key, supported in *.
  rewrite where_true_valid_rows by done.
  destruct (data array) as [values|floating bit_width data_buffer|values|];
    [| | |done].
  - unfold filter_valid. rewrite (filter_valid_from_map array 0%Z).
    rewrite length_take, Nat.min_l by done. fold (valid_rows array).
    rewrite (insert_integers_build _ [] (valid_rows array)).
    f_equal. apply build_ext. intros i [Hi _]%valid_rows_spec.
    rewrite Nat.sub_0_r. by apply nth_take_lt.
  - rewrite insert_fixed_build; [done|done|].
    intros i Hi. apply list_elem_of_In, in_seq in Hi. lia.
  - rewrite insert_variable_build by (done || rewrite length_take; lia).
    rewrite length_take, Nat.min_l by done. fold (valid_rows array).
    f_equal. apply build_ext. intros i [Hi _]%valid_rows_spec.
    rewrite Nat.sub_0_r. f_equal. by apply nth_take_lt.
Qed.

Lemma probe_right_side (array : ArrowArray) (hash_table : HashTable) :
  well_formed array ->
  inner_join_with_preprocessed_left_side hash array hash_table
  = Ok (probe (lookup_key array) hash_table (probed_rows array) ([], [])).
Proof.
  intros Hwf. pose proof Hwf as [_ Hslots].
  unfold inner_join_with_preprocessed_left_side, lookup_key, probed_rows in *.
  rewrite where_true_valid_rows by done.
  destruct (data array) as [values|floating bit_width data_buffer|values|];
    [| | |done].
  - unfold filter_valid. rewrite (filter_valid_from_map array 0%Z).
    rewrite length_take, Nat.min_l by done. fold (valid_rows array).
    rewrite (probe_integers_probe _ [] (valid_rows array)).
    f_equal. apply probe_ext. intros i [Hi _]%valid_rows_spec.
    rewrite Nat.sub_0_r. by apply nth_take_lt.
  - rewrite probe_fixed_probe; [done|done|].
    intros i Hi. apply list_elem_of_In, in_seq in Hi. lia.
  - rewrite probe_variable_probe by (done || rewrite length_take; lia).
    rewrite length_take, Nat.min_l by done. fold (valid_rows array).
    f_equal. apply probe_ext. intros i [Hi _]%valid_rows_spec.
    rewrite Nat.sub_0_r. f_equal. by apply nth_take_lt.
Qed.

(** *** What the table holds and what the probe emits *)

Lemma get_insert (k k' : Z) (i : nat) (ht : HashTable) :
  get k (insert k' i ht) = if Z.eqb k' k then get k ht ++ [i] else get k ht.
Proof.
  unfold get, insert, HashTable in *. destruct (Z.eqb_spec k' k) as [->|Hne].
  - by rewrite (lookup_insert_eq (M:=gmap Z)).
  - by rewrite (lookup_insert_ne (M:=gmap Z)).
Qed.

Lemma get_build (key : nat -> Z) (rows : list nat) (ht : HashTable) (k : Z) :
  get k (build key rows ht)
  = get k ht ++ List.filter (λ i, Z.eqb (key i) k) rows.
Proof.
  revert ht. induction rows as [|i rows IH]; intros ht.
  - by rewrite app_nil_r.
  - cbn [build fold_left List.filter]. fold (build key rows (insert (key i) i ht)).
    rewrite IH, get_insert. destruct (Z.eqb (key i) k); [|done].
    by rewrite <- app_assoc.
Qed.

Lemma zip_replicate (rows : list nat) (j : nat) :
  zip rows (replicate (length rows) j) = map (λ i, (i, j)) rows.
Proof. induction rows as [|i rows IH]; [done|]. cbn. by rewrite IH. Qed.

Lemma probe_pairs (key : nat -> Z) (hash_table : HashTable) (rows : list nat)
    (indexes : list nat * list nat) :
  length (fst indexes) = length (snd indexes) ->
  zip (fst (probe key hash_table rows indexes))
      (snd (probe key hash_table rows indexes))
  = zip (fst indexes) (snd indexes)
    ++ flat_map (λ j, map (λ i, (i, j)) (get (key j) hash_table)) rows.
Proof.
  revert indexes. induction rows as [|j rows IH]; intros indexes Hlength.
  - by rewrite app_nil_r.
  - cbn [probe fold_left flat_map].
    fold (probe key hash_table rows
            (extend (get (key j) hash_table) j indexes)).
    rewrite IH.
    + unfold extend. cbn [fst snd].
      rewrite zip_with_app by done. by rewrite zip_replicate, <- app_assoc.
    + unfold extend. cbn [fst snd].
      by rewrite !length_app, length_replicate, Hlength.
Qed.

(** The pairs of rows with a valid key on both sides and the same lookup key,
    by right row and then by left row. *)
Definition matches (left_array right_array : ArrowArray) : list (nat * nat) :=
  flat_map
    (λ j, map (λ i, (i, j))
            (List.filter
               (λ i, Z.eqb (lookup_key left_array i) (lookup_key right_array j))
               (valid_rows left_array)))
    (probed_rows right_array).

Lemma hash_join_matches (left_array right_array : ArrowArray) :
  well_formed left_array -> well_formed right_array -> supported left_array ->
  hash_join hash left_array right_array = Ok (matches left_array right_array).
Proof.
  intros Hleft Hright Hsupported. unfold hash_join.
  rewrite preprocess_left_build by done. cbn [Py.bind].
  rewrite probe_right_side by done. cbn [Py.bind]. f_equal.
  rewrite probe_pairs by done. cbn [fst snd zip_with app]. unfold matches.
  apply flat_map_ext. intros j. by rewrite get_build.
Qed.

Lemma elem_of_matches (left_array right_array : ArrowArray) (i j : nat) :
  (i, j) ∈ matches left_array right_array
  <-> i ∈ valid_rows left_array /\ j ∈ probed_rows right_array
      /\ lookup_key left_array i = lookup_key right_array j.
Proof.
  unfold matches. rewrite !list_elem_of_In, in_flat_map. split.
  - intros (j' & Hj' & Hin). apply in_map_iff in Hin as (i' & Heq & Hi').
    injection Heq as -> ->. apply filter_In in Hi' as [Hi' Hkey].
    by apply Z.eqb_eq in Hkey.
  - intros (Hi & Hj & Hkey). exists j. split; [done|].
    apply in_map_iff. exists i. split; [done|]. apply filter_In.
    split; [done|]. by apply Z.eqb_eq.
Qed.

(** *** The join on the key values *)

(** A key as the column stores it: an integer; the bytes of a floating value,
    with the bit width of its type; the bytes of a fixed-size binary, binary
    or string value. *)
Inductive Key : Type :=
| IntegerKey (value : Z)
| FloatKey (bit_width : nat) (value_bytes : list Z)
| BytesKey (value_bytes : list Z).

#[export] Instance Key_eq_dec : EqDecision Key.
Proof. solve_decision. Defined.

Definition key_value (array : ArrowArray) (i : nat) : option Key :=
  match data array with
  | IntegerData values => Some (IntegerKey (nth i values 0%Z))
  | FixedWidthData floating bit_width data_buffer =>
      let value_bytes :=
        slice data_buffer (i * (bit_width / 8))
          (i * (bit_width / 8) + bit_width / 8) in
      Some (if floating then FloatKey bit_width value_bytes
            else BytesKey value_bytes)
  | VariableData values => Some (BytesKey (nth i values []))
  | UnsupportedData => None
  end.

(** Floating values are IEEE 754 numbers (binary16, binary32, binary64), stored
    with the least significant byte first: a sign bit, the exponent, and a
    mantissa of 10, 23 or 52 bits.  Without its sign bit, a NaN is above the
    pattern of infinity (the exponent all ones, the mantissa 0), and a zero
    is 0. *)
Definition little_endian (value_bytes : list Z) : Z :=
  foldr (λ byte rest, (byte + 256 * rest)%Z) 0%Z value_bytes.

Definition mantissa_bits (bit_width : nat) : Z :=
  match bit_width with
  | 16 => 10
  | 32 => 23
  | _ => 52
  end.

Definition magnitude (bit_width : nat) (value_bytes : list Z) : Z :=
  (little_endian value_bytes mod 2 ^ (Z.of_nat bit_width - 1))%Z.

Definition is_nan (bit_width : nat) (value_bytes : list Z) : bool :=
  (2 ^ (Z.of_nat bit_width - 1) - 2 ^ mantissa_bits bit_width
   <? magnitude bit_width value_bytes)%Z.

Definition is_zero (bit_width : nat) (value_bytes : list Z) : bool :=
  (magnitude bit_width value_bytes =? 0)%Z.

(** Equality of two floating values of one width: a NaN is equal to nothing,
    the two zeros are equal, and any other two values are equal when their
    bits are. *)
Definition float_eq (bit_width : nat) (a b : list Z) : bool :=
  negb (is_nan bit_width a) && negb (is_nan bit_width b)
  && (bool_decide (a = b) || is_zero bit_width a && is_zero bit_width b).

(** Equality of two key values.  Keys of different types are not compared. *)
Definition same_value (a b : Key) : bool :=
  match a, b with
  | IntegerKey x, IntegerKey y => Z.eqb x y
  | FloatKey w x, FloatKey w' y => bool_decide (w = w') && float_eq w x y
  | BytesKey x, BytesKey y => bool_decide (x = y)
  | _, _ => false
  end.

Definition same_key (left_array right_array : ArrowArray) (i j : nat) : bool :=
  match key_value left_array i, key_value right_array j with
  | Some a, Some b => same_value a b
  | _, _ => false
  end.

(** The inner join on the key, which is what a sort-merge join puts out: the
    pairs of a left row and a right row whose keys are not null and are equal
    values.  They are listed by right row and then by left row. *)
Definition equi_join (left_array right_array : ArrowArray) : list (nat * nat) :=
  flat_map
    (λ j, map (λ i, (i, j))
            (List.filter (λ i, same_key left_array right_array i j)
               (valid_rows left_array)))
    (valid_rows right_array).


(** A key that is equal to the keys of the same bytes and to no other: any
    key that is not a floating value, and a floating value that is not a NaN
    and not the negative zero. *)
Definition plain (key : Key) : Prop :=
  match key with
  | FloatKey w value_bytes =>
      is_nan w value_bytes = false
      /\ (is_zero w value_bytes = true -> value_bytes = replicate (w / 8) 0%Z)
  | _ => True
  end.

(** No key of the column that is not null is a NaN or the negative zero. *)
Definition ordinary (array : ArrowArray) : Prop :=
  ∀ i key, i ∈ valid_rows array -> key_value array i = Some key -> plain key.






Lemma probed_rows_supported (array : ArrowArray) :
  supported array -> probed_rows array = valid_rows array.
Proof. unfold supported, probed_rows. by destruct (data array). Qed.







End Loops.

(** *** Floating keys *)






(** *** Hashes collide *)

(** A function from the naturals into a range of integers is not injective. *)
Lemma no_injection_into_range (f : nat -> Z) (lo n : Z) :
  (∀ a b, f a = f b -> a = b) -> (∀ k, (lo <= f k < lo + n)%Z) -> False.
Proof.
  intros Hinj Hrange. remember (Z.to_nat n) as N eqn:HN.
  assert (NoDup (f <$> seq 0 (S N))) as Hnodup.
  { apply NoDup_fmap_2; [intros a b; apply Hinj | apply NoDup_seq]. }
  assert (f <$> seq 0 (S N) ⊆+ seqZ lo n) as Hsub.
  { apply NoDup_submseteq; [done|]. intros x Hx.
    apply list_elem_of_fmap in Hx as (k & -> & _). apply elem_of_seqZ.
    apply Hrange. }
  apply submseteq_length in Hsub.
  rewrite length_fmap, length_seq, length_seqZ in Hsub. lia.
Qed.

(** A column of one string, not null. *)
Definition one_string (value_bytes : list Z) : ArrowArray :=
  mkArrowArray 1 None (VariableData [value_bytes]).

Lemma one_string_matches (hash : list Z -> Z) (s t : list Z) :
  hash s = hash t ->
  matches hash (one_string s) (one_string t) = [(0, 0)].
Proof.
  intros Heq. unfold matches, probed_rows, valid_rows, lookup_key, is_valid.
  cbn. by rewrite Heq, Z.eqb_refl.
Qed.

Lemma one_string_equi_join (s t : list Z) :
  equi_join (one_string s) (one_string t)
  = if bool_decide (s = t) then [(0, 0)] else [].
Proof.
  unfold equi_join, valid_rows, same_key, key_value, is_valid. cbn.
  repeat case_bool_decide; cbn; congruence.
Qed.

(** Python's [hash] of a value is a machine integer, so two different strings
    have the same hash; a left column holding one of them and a right column
    holding the other are joined on row 0 although the keys differ.  Hence
    no [hash] makes the join the inner join on the key for all columns of the
    supported types, floating keys apart. *)
Lemma hashed_keys_collide :
  ~ ∃ hash : list Z -> Z,
      (∀ value_bytes, (- 2 ^ 63 <= hash value_bytes < 2 ^ 63)%Z)
      /\ ∀ left_array right_array,
           well_formed left_array -> well_formed right_array ->
           supported left_array -> supported right_array ->
           ordinary left_array -> ordinary right_array ->
           hash_join hash left_array right_array
           = Ok (equi_join left_array right_array).
Proof.
  intros (hash & Hrange & Hclaim).
  assert (∀ s, ordinary (one_string s)) as Hordinary.
  { intros s i key _. unfold key_value. cbn. by intros [= <-]. }
  assert (∀ s t, hash s = hash t -> s = t) as Hinj.
  { intros s t Heq.
    assert (well_formed (one_string s)) as Hs by (split; cbn; [done|lia]).
    assert (well_formed (one_string t)) as Ht by (split; cbn; [done|lia]).
    specialize (Hclaim (one_string s) (one_string t) Hs Ht).
    rewrite hash_join_matches in Hclaim by done.
    rewrite one_string_matches, one_string_equi_join in Hclaim by done.
    case_bool_decide; [done|].
    by specialize (Hclaim ltac:(done) ltac:(done) (Hordinary s) (Hordinary t)). }
  apply (no_injection_into_range (λ n, hash (replicate n 0%Z))
           (- 2 ^ 63)%Z (2 ^ 63 + 2 ^ 63)%Z).
  - intros a b Heq. apply Hinj in Heq.
    apply (f_equal length) in Heq. by rewrite !length_replicate in Heq.
  - intros k. specialize (Hrange (replicate k 0%Z)). lia.
Qed.

(** *** Orders and customers *)

(** Three orders, the second without a customer, joined with two customers. *)
Definition orders : ArrowArray := mkArrowArray 3 (Some [5%Z]) (IntegerData [7; 0; 7]%Z).
Definition customers : ArrowArray := mkArrowArray 2 (Some [3%Z]) (IntegerData [7; 8]%Z).








End InnerJoinSingleSpec.


(** ** More on the single-key hash join: the table, and the shape of the output *)

Module InnerJoinSingleFacts.
Import InnerJoinSingle InnerJoinSingleSpec.

(** *** Lists in order *)

(** Every element of [l] stands in the relation [R] to every later one. *)
Fixpoint ordered {A} (R : A -> A -> Prop) (l : list A) : Prop :=
  match l with
  | [] => True
  | x :: rest => Forall (R x) rest /\ ordered R rest
  end.

Lemma ordered_seq (start len : nat) : ordered lt (seq start len).
Proof.
  revert start. induction len as [|len IH]; intros start; [done|].
  cbn [seq ordered]. split; [|apply IH].
  apply Forall_forall. intros i Hi%list_elem_of_In%in_seq. lia.
Qed.

Lemma ordered_filter {A} (R : A -> A -> Prop) (f : A -> bool) (l : list A) :
  ordered R l -> ordered R (List.filter f l).
Proof.
  induction l as [|x l IH]; [done|]. cbn [ordered List.filter].
  intros [Hx Hl]. destruct (f x); [|by apply IH].
  cbn [ordered]. split; [|by apply IH].
  apply Forall_forall. intros y Hy%list_elem_of_In%filter_In.
  rewrite Forall_forall in Hx. apply Hx, list_elem_of_In, Hy.
Qed.

Lemma ordered_app {A} (R : A -> A -> Prop) (l1 l2 : list A) :
  ordered R l1 -> ordered R l2 ->
  (∀ x y, x ∈ l1 -> y ∈ l2 -> R x y) ->
  ordered R (l1 ++ l2).
Proof.
  induction l1 as [|x l1 IH]; [done|]. cbn [ordered app].
  intros [Hx Hl1] Hl2 Hcross. split.
  - apply Forall_app. split; [done|].
    apply Forall_forall. intros y Hy. apply Hcross; [left|done].
  - apply IH; [done..|]. intros a b Ha Hb. apply Hcross; [by right|done].
Qed.

Lemma ordered_map {A B} (R : A -> A -> Prop) (R' : B -> B -> Prop)
    (f : A -> B) (l : list A) :
  (∀ x y, R x y -> R' (f x) (f y)) -> ordered R l -> ordered R' (map f l).
Proof.
  intros Hf. induction l as [|x l IH]; [done|]. cbn [ordered map].
  intros [Hx Hl]. split; [|by apply IH].
  apply Forall_forall. intros y (a & <- & Ha)%list_elem_of_In%in_map_iff.
  rewrite Forall_forall in Hx. apply Hf, Hx, list_elem_of_In, Ha.
Qed.

Lemma ordered_NoDup {A} (R : A -> A -> Prop) (l : list A) :
  (∀ x, ¬ R x x) -> ordered R l -> NoDup l.
Proof.
  intros Hirreflexive. induction l as [|x l IH]; [constructor|].
  cbn [ordered]. intros [Hx Hl]. constructor; [|by apply IH].
  intros Hin. rewrite Forall_forall in Hx. by apply (Hirreflexive x), Hx.
Qed.

(** The order of the output: by right row, and for one right row by left
    row. *)
Definition before (p q : nat * nat) : Prop :=
  snd p < snd q \/ (snd p = snd q /\ fst p < fst q).

Lemma flat_map_ordered (rows : nat -> list nat) (js : list nat) :
  ordered lt js -> (∀ j, ordered lt (rows j)) ->
  ordered before (flat_map (λ j, map (λ i, (i, j)) (rows j)) js).
Proof.
  intros Hjs Hrows. induction js as [|j js IH]; [done|].
  cbn [flat_map]. destruct Hjs as [Hj Hjs]. apply ordered_app.
  - apply (ordered_map lt); [|done]. intros i i' Hlt. right. by split.
  - by apply IH.
  - intros p q (i & <- & _)%list_elem_of_In%in_map_iff
      (j' & Hj' & (i' & <- & _)%in_map_iff)%list_elem_of_In%in_flat_map.
    left. cbn. rewrite Forall_forall in Hj. by apply Hj, list_elem_of_In.
Qed.

Lemma valid_rows_ordered (array : ArrowArray) : ordered lt (valid_rows array).
Proof. apply ordered_filter, ordered_seq. Qed.

Lemma probed_rows_ordered (array : ArrowArray) :
  ordered lt (probed_rows array).
Proof.
  unfold probed_rows. destruct (data array); (done || apply valid_rows_ordered).
Qed.

Lemma probed_rows_valid (array : ArrowArray) (j : nat) :
  j ∈ probed_rows array -> j ∈ valid_rows array.
Proof.
  unfold probed_rows. destruct (data array); try done.
  by intros ?%elem_of_nil.
Qed.

Section Output.
Variable hash : list Z -> Z.

(** *** The table *)

(** Under each key, the table that [preprocess_left] builds lists the rows
    whose key is not null and has that lookup key, in ascending order; a row
    with a null key is under no key, and a key that no row has lists no
    row. *)
Theorem hash_table_lists_the_valid_rows_of_a_key (array : ArrowArray) :
  well_formed array -> supported array ->
  ∃ ht,
    preprocess_left hash array = Ok ht
    /\ (∀ k, get k ht
             = List.filter (λ i, Z.eqb (lookup_key hash array i) k)
                 (valid_rows array))
    /\ (∀ k i, i ∈ get k ht
               <-> i < num_rows array /\ is_valid array i = true
                   /\ lookup_key hash array i = k)
    /\ (∀ k, ordered lt (get k ht)).
Proof.
  intros Hwf Hsupported. eexists. split; [by apply preprocess_left_build|].
  assert (∀ k, get k (build (lookup_key hash array) (valid_rows array) ∅)
               = List.filter (λ i, Z.eqb (lookup_key hash array i) k)
                   (valid_rows array)) as Htable.
  { intros k. rewrite get_build. unfold get at 1, HashTable.
    by rewrite (lookup_empty (M := gmap Z)). }
  split; [exact Htable|]. split.
  - intros k i. rewrite Htable, list_elem_of_In, filter_In, <- list_elem_of_In.
    rewrite valid_rows_spec, Z.eqb_eq. tauto.
  - intros k. rewrite Htable. apply ordered_filter, valid_rows_ordered.
Qed.

(** *** Key types that are not supported *)

(** A key column of a type other than the five supported ones is refused on
    the left side only: [preprocess_left] raises [TypeError], while the probe
    of such a column looks up nothing and returns no row, whatever the
    table. *)
Theorem unsupported_key_type_is_refused_on_the_left_only
    (array other : ArrowArray) :
  data array = UnsupportedData ->
  preprocess_left hash array = Raise TypeError
  /\ hash_join hash array other = Raise TypeError
  /\ (∀ ht, inner_join_with_preprocessed_left_side hash array ht
            = Ok ([], []))
  /\ (well_formed other -> supported other ->
      hash_join hash other array = Ok []).
Proof.
  intros Hdata.
  assert (preprocess_left hash array = Raise TypeError) as Hleft.
  { unfold preprocess_left. by rewrite Hdata. }
  assert (∀ ht, inner_join_with_preprocessed_left_side hash array ht
                = Ok ([], [])) as Hright.
  { intros ht. unfold inner_join_with_preprocessed_left_side.
    by rewrite Hdata. }
  split; [done|]. split; [|split; [done|]].
  - unfold hash_join. by rewrite Hleft.
  - intros Hwf Hsupported. unfold hash_join.
    rewrite preprocess_left_build by done. cbn [Py.bind].
    by rewrite Hright.
Qed.

(** *** The shape of the output *)

(** The output of the join is in order: by right row, and for one right row
    by left row, both ascending.  So no pair of rows is put out twice. *)
Theorem hash_join_output_is_in_order (left_array right_array : ArrowArray) :
  well_formed left_array -> well_formed right_array ->
  supported left_array ->
  ∃ pairs,
    hash_join hash left_array right_array = Ok pairs
    /\ ordered before pairs /\ NoDup pairs.
Proof.
  intros Hleft Hright Hsupported. exists (matches hash left_array right_array).
  split; [by apply hash_join_matches|].
  assert (ordered before (matches hash left_array right_array)) as Hordered.
  { unfold matches.
    apply (flat_map_ordered
             (λ j, List.filter
                     (λ i, Z.eqb (lookup_key hash left_array i)
                             (lookup_key hash right_array j))
                     (valid_rows left_array))).
    - apply probed_rows_ordered.
    - intros j. apply ordered_filter, valid_rows_ordered. }
  split; [done|]. apply (ordered_NoDup before); [|done].
  intros [i j] [Hlt|[_ Hlt]]; cbn in Hlt; lia.
Qed.

(** Every pair of the output names a row of the left column and a row of
    the right column: the indices handed on to gather the rows are within
    the two relations. *)
Theorem hash_join_rows_are_in_bounds (left_array right_array : ArrowArray) :
  well_formed left_array -> well_formed right_array ->
  supported left_array ->
  ∃ pairs,
    hash_join hash left_array right_array = Ok pairs
    /\ ∀ i j, (i, j) ∈ pairs ->
              i < num_rows left_array /\ j < num_rows right_array.
Proof.
  intros Hleft Hright Hsupported. exists (matches hash left_array right_array).
  split; [by apply hash_join_matches|].
  intros i j (Hi & Hj%probed_rows_valid & _)%elem_of_matches.
  apply valid_rows_spec in Hi, Hj. tauto.
Qed.

(** The join does not depend on which side is hashed: with the two columns
    exchanged, the output holds the same pairs of rows, each turned
    around. *)
Theorem exchanging_the_sides_turns_the_pairs_around
    (left_array right_array : ArrowArray) :
  well_formed left_array -> well_formed right_array ->
  supported left_array -> supported right_array ->
  ∃ pairs turned,
    hash_join hash left_array right_array = Ok pairs
    /\ hash_join hash right_array left_array = Ok turned
    /\ ∀ i j, (i, j) ∈ pairs <-> (j, i) ∈ turned.
Proof.
  intros Hleft Hright Hsl Hsr.
  exists (matches hash left_array right_array),
         (matches hash right_array left_array).
  split; [by apply hash_join_matches|]. split; [by apply hash_join_matches|].
  intros i j. rewrite !elem_of_matches, !probed_rows_supported by done.
  intuition congruence.
Qed.

End Output.

(** *** The operator *)

Section Operator.
Import InnerJoinSingleNode.
Variable hash : list Z -> Z.
Context {Table : Type}.
Variable column : Table -> string -> result ArrowArray.
Variable column_names : Table -> list string.
Variable concat_tables : list Table -> result Table.
Variable align_tables : Table -> Table -> list nat -> list nat -> result Table.

Abbreviation execute :=
  (InnerJoinSingleNode.execute hash column column_names concat_tables
     align_tables).
Abbreviation feed :=
  (InnerJoinSingleNode.feed hash column column_names concat_tables
     align_tables).

Lemma probe_lengths (key : nat -> Z) (hash_table : HashTable)
    (rows : list nat) (indexes : list nat * list nat) :
  length (fst indexes) = length (snd indexes) ->
  length (fst (probe key hash_table rows indexes))
  = length (snd (probe key hash_table rows indexes)).
Proof.
  revert indexes. induction rows as [|j rows IH]; intros indexes Hlength.
  - done.
  - cbn [probe fold_left].
    fold (probe key hash_table rows
            (extend (get (key j) hash_table) j indexes)).
    apply IH. unfold extend. cbn [fst snd].
    by rewrite !length_app, length_replicate, Hlength.
Qed.

(** The index lists of the probe, for the table of the left key column: the
    left rows and the right rows of the pairs that match. *)
Lemma probe_of_the_built_table (left_array right_array : ArrowArray) :
  well_formed left_array -> well_formed right_array ->
  supported left_array ->
  ∃ ht,
    preprocess_left hash left_array = Ok ht
    /\ inner_join_with_preprocessed_left_side hash right_array ht
       = Ok (map fst (matches hash left_array right_array),
             map snd (matches hash left_array right_array)).
Proof.
  intros Hleft Hright Hsupported.
  pose proof (hash_join_matches hash left_array right_array Hleft Hright
                Hsupported) as Hjoin.
  unfold hash_join in Hjoin.
  rewrite preprocess_left_build in Hjoin |- * by done.
  cbn [Py.bind] in Hjoin. rewrite probe_right_side in Hjoin by done.
  cbn [Py.bind] in Hjoin. injection Hjoin as Hzip.
  eexists. split; [done|]. rewrite probe_right_side by done. f_equal.
  pose proof (probe_lengths (lookup_key hash right_array)
                (build (lookup_key hash left_array) (valid_rows left_array) ∅)
                (probed_rows right_array) ([], []) eq_refl) as Hlengths.
  rewrite <- Hzip.
  change (map fst) with (fmap (M := list) (@fst nat nat)).
  change (map snd) with (fmap (M := list) (@snd nat nat)).
  rewrite fst_zip, snd_zip by lia. by destruct (probe _ _ _ _).
Qed.

Lemma feed_app (self : NodeState Table) (inputs more : list (Input Table)) :
  feed self (inputs ++ more)
  = match feed self inputs with
    | Ok (self', yielded) =>
        match feed self' more with
        | Ok (self'', yielded') => Ok (self'', yielded ++ yielded')
        | Raise e => Raise e
        end
    | Raise e => Raise e
    end.
Proof.
  revert self. induction inputs as [|morsel inputs IH]; intros self.
  - cbn. by destruct (feed self more) as [[self' yielded]|].
  - cbn [app InnerJoinSingleNode.feed].
    destruct (execute self morsel) as [[self1 yielded1]|]; [|done].
    cbn [Py.bind fst snd]. rewrite IH.
    destruct (feed self1 inputs) as [[self2 yielded2]|]; [|done].
    cbn [Py.bind fst snd].
    destruct (feed self2 more) as [[self3 yielded3]|]; [|done].
    cbn. by rewrite app_assoc.
Qed.

Lemma feed_left (left_buffer morsels : list Table)
    (_left_columns _right_columns : list string) :
  feed (LeftStream left_buffer _left_columns _right_columns)
    (map Morsel morsels)
  = Ok (LeftStream (left_buffer ++ morsels) _left_columns _right_columns,
        replicate (length morsels) None).
Proof.
  revert left_buffer. induction morsels as [|m morsels IH]; intros left_buffer.
  - cbn. by rewrite app_nil_r.
  - cbn [map InnerJoinSingleNode.feed InnerJoinSingleNode.execute Py.bind
         fst snd].
    rewrite IH. cbn. by rewrite <- app_assoc.
Qed.

(** The whole life of the operator.  Fed the morsels of the left side, the
    end of the left side, the morsels of the right side and the end of the
    right side, it answers every input once: nothing for each left morsel
    and for the two ends, and for each right morsel the rows that
    [align_tables] gathers from that morsel and from the concatenated left
    side at the pairs of rows whose keys are not null and have the same
    lookup key.  The left side is hashed once, when it ends; the column lists
    are those given when the first left column is a column of the left
    side. *)
Theorem operator_joins_every_right_morsel_with_the_whole_left_side
    (lefts rights outs : list Table) (left_relation : Table)
    (left_name right_name : string) (left_rest right_rest : list string)
    (left_array : ArrowArray) :
  concat_tables lefts = Ok left_relation ->
  left_name ∈ column_names left_relation ->
  column left_relation left_name = Ok left_array ->
  well_formed left_array -> supported left_array ->
  Forall2
    (λ morsel out,
       ∃ right_array,
         column morsel right_name = Ok right_array
         /\ well_formed right_array
         /\ align_tables morsel left_relation
              (map snd (matches hash left_array right_array))
              (map fst (matches hash left_array right_array))
            = Ok out)
    rights outs ->
  ∃ left_hash,
    preprocess_left hash left_array = Ok left_hash
    /\ feed
         (LeftStream [] (left_name :: left_rest) (right_name :: right_rest))
         (map Morsel lefts ++ EOS :: map Morsel rights ++ [EOS])
       = Ok (RightStream left_relation left_hash (left_name :: left_rest)
               (right_name :: right_rest),
             replicate (S (length lefts)) None ++ map Some outs ++ [None]).
Proof.
  intros Hconcat Hname Hcolumn Hwf Hsupported Hrights.
  destruct (preprocess_left hash left_array) as [left_hash|] eqn:Hbuild.
  2:{ by rewrite preprocess_left_build in Hbuild. }
  exists left_hash. split; [done|].
  rewrite feed_app, feed_left. cbn [app].
  cbn [InnerJoinSingleNode.feed InnerJoinSingleNode.execute].
  rewrite Hconcat. cbn [Py.bind first_column].
  rewrite bool_decide_eq_true_2 by done. cbn [fst snd].
  unfold preprocess_left_relation. cbn [first_column Py.bind].
  rewrite Hcolumn. cbn [Py.bind]. rewrite Hbuild. cbn [Py.bind fst snd].
  assert (feed
            (RightStream left_relation left_hash (left_name :: left_rest)
               (right_name :: right_rest)) (map Morsel rights ++ [EOS])
          = Ok (RightStream left_relation left_hash (left_name :: left_rest)
                  (right_name :: right_rest), map Some outs ++ [None]))
    as ->.
  { induction Hrights as [|m out rights outs (ra & Hra & Hwfr & Hout) _ IH].
    - done.
    - cbn [map app InnerJoinSingleNode.feed InnerJoinSingleNode.execute].
      unfold join_with_preprocessed_left_side. cbn [first_column Py.bind].
      rewrite Hra. cbn [Py.bind].
      destruct (probe_of_the_built_table left_array ra Hwf Hwfr Hsupported)
        as (ht & Hht & Hprobe).
      assert (ht = left_hash) as -> by congruence.
      rewrite Hprobe. cbn [Py.bind fst snd]. rewrite Hout.
      cbn [Py.bind fst snd]. rewrite IH. done. }
  cbn [Py.bind fst snd]. f_equal. f_equal.
  rewrite replicate_S_end. by rewrite <- app_assoc.
Qed.

(** When the first of the left columns is not a column of the left side, the
    operator exchanges its two column lists before it hashes the left side:
    the left side is hashed on the first right column, and the right morsels
    are read on the first left column. *)
Theorem operator_exchanges_the_columns_it_cannot_find
    (left_buffer : list Table) (left_relation : Table)
    (left_name : string) (left_rest _right_columns : list string)
    (left_hash : HashTable) :
  concat_tables left_buffer = Ok left_relation ->
  left_name ∉ column_names left_relation ->
  preprocess_left_relation hash column left_relation _right_columns
  = Ok left_hash ->
  execute (LeftStream left_buffer (left_name :: left_rest) _right_columns) EOS
  = Ok (RightStream left_relation left_hash _right_columns
          (left_name :: left_rest), [None]).
Proof.
  intros Hconcat Hname Hbuild. cbn [InnerJoinSingleNode.execute].
  rewrite Hconcat. cbn [Py.bind first_column].
  rewrite bool_decide_eq_false_2 by done. cbn [fst snd].
  by rewrite Hbuild.
Qed.

End Operator.

(** *** Orders and customers again *)

Definition length_of_bytes (value_bytes : list Z) : Z :=
  Z.of_nat (length value_bytes).

(** A column of a type that the join does not take (dates, say). *)
Definition dates : ArrowArray := mkArrowArray 2 None UnsupportedData.

Lemma orders_well_formed : well_formed orders.
Proof. split; cbn; lia. Qed.

Lemma customers_well_formed : well_formed customers.
Proof. split; cbn; lia. Qed.

Lemma hash_table_lists_the_valid_rows_of_a_key_witness :
  ∃ ht,
    preprocess_left length_of_bytes orders = Ok ht
    /\ get 7 ht = [0; 2] /\ get 0 ht = [].
Proof.
  destruct (hash_table_lists_the_valid_rows_of_a_key length_of_bytes orders)
    as (ht & Hrun & Htable & _).
  - exact orders_well_formed.
  - discriminate.
  - exists ht. split; [exact Hrun|]. rewrite !Htable. split; reflexivity.
Defined.

Lemma unsupported_key_type_is_refused_on_the_left_only_witness :
  hash_join length_of_bytes dates customers = Raise TypeError
  /\ hash_join length_of_bytes customers dates = Ok [].
Proof.
  destruct (unsupported_key_type_is_refused_on_the_left_only length_of_bytes
              dates customers eq_refl) as (_ & Hleft & _ & Hright).
  split; [exact Hleft|]. apply Hright; [exact customers_well_formed|].
  discriminate.
Defined.

Lemma hash_join_output_is_in_order_witness :
  ∃ pairs,
    hash_join length_of_bytes orders customers = Ok pairs /\ NoDup pairs.
Proof.
  destruct (hash_join_output_is_in_order length_of_bytes orders customers)
    as (pairs & Hrun & _ & Hnodup).
  - exact orders_well_formed.
  - exact customers_well_formed.
  - discriminate.
  - exists pairs. split; [exact Hrun|exact Hnodup].
Defined.

Lemma hash_join_rows_are_in_bounds_witness :
  ∃ pairs,
    hash_join length_of_bytes orders customers = Ok pairs
    /\ ∀ i j, (i, j) ∈ pairs -> i < 3 /\ j < 2.
Proof.
  apply (hash_join_rows_are_in_bounds length_of_bytes orders customers).
  - exact orders_well_formed.
  - exact customers_well_formed.
  - discriminate.
Defined.

Lemma exchanging_the_sides_turns_the_pairs_around_witness :
  ∃ pairs turned,
    hash_join length_of_bytes orders customers = Ok pairs
    /\ hash_join length_of_bytes customers orders = Ok turned
    /\ ∀ i j, (i, j) ∈ pairs <-> (j, i) ∈ turned.
Proof.
  apply (exchanging_the_sides_turns_the_pairs_around length_of_bytes orders
           customers).
  - exact orders_well_formed.
  - exact customers_well_formed.
  - discriminate.
  - discriminate.
Defined.

(** Tables as lists of named columns.  Reading a column that is not there is
    a [KeyError]; the rows gathered by [align_tables] are kept as the two
    lists of row numbers. *)
Definition named_columns : Type := list (string * ArrowArray).

Definition column_of (relation : named_columns) (name : string) :
    result ArrowArray :=
  match List.find (λ entry, String.eqb (fst entry) name) relation with
  | Some entry => Ok (snd entry)
  | None => Raise (KeyError name)
  end.

Definition names_of (relation : named_columns) : list string :=
  map fst relation.

Definition one_table (tables : list named_columns) : result named_columns :=
  match tables with
  | [relation] => Ok relation
  | _ => Raise ValueError
  end.

Definition row_numbers (rows : list nat) : ArrowArray :=
  mkArrowArray (length rows) None (IntegerData (map Z.of_nat rows)).

Definition gathered (right_relation left_relation : named_columns)
    (right_indexes left_indexes : list nat) : result named_columns :=
  Ok [("right_rows", row_numbers right_indexes);
      ("left_rows", row_numbers left_indexes)].

Lemma operator_joins_every_right_morsel_with_the_whole_left_side_witness :
  ∃ left_hash,
    preprocess_left length_of_bytes orders = Ok left_hash
    /\ InnerJoinSingleNode.feed length_of_bytes column_of names_of one_table
         gathered
         (InnerJoinSingleNode.LeftStream [] ["customer_id"] ["id"])
         [InnerJoinSingleNode.Morsel [("customer_id", orders)];
          InnerJoinSingleNode.EOS;
          InnerJoinSingleNode.Morsel [("id", customers)];
          InnerJoinSingleNode.EOS]
       = Ok (InnerJoinSingleNode.RightStream [("customer_id", orders)]
               left_hash ["customer_id"] ["id"],
             [None; None;
              Some [("right_rows", row_numbers [0; 0]);
                    ("left_rows", row_numbers [0; 2])];
              None]).
Proof.
  apply (operator_joins_every_right_morsel_with_the_whole_left_side
           length_of_bytes column_of names_of one_table gathered
           [[("customer_id", orders)]] [[("id", customers)]]
           [[("right_rows", row_numbers [0; 0]);
             ("left_rows", row_numbers [0; 2])]]
           [("customer_id", orders)] "customer_id" "id" [] [] orders).
  - reflexivity.
  - left.
  - reflexivity.
  - exact orders_well_formed.
  - discriminate.
  - constructor; [|constructor]. exists customers.
    split; [reflexivity|]. split; [exact customers_well_formed|reflexivity].
Defined.

Lemma operator_exchanges_the_columns_it_cannot_find_witness :
  ∃ left_hash,
    preprocess_left length_of_bytes orders = Ok left_hash
    /\ InnerJoinSingleNode.execute length_of_bytes column_of names_of one_table
         gathered
         (InnerJoinSingleNode.LeftStream [[("customer_id", orders)]] ["id"]
            ["customer_id"])
         InnerJoinSingleNode.EOS
       = Ok (InnerJoinSingleNode.RightStream [("customer_id", orders)]
               left_hash ["customer_id"] ["id"], [None]).
Proof.
  destruct (preprocess_left length_of_bytes orders) as [left_hash|] eqn:Hbuild.
  - exists left_hash. split; [reflexivity|].
    apply (operator_exchanges_the_columns_it_cannot_find length_of_bytes
             column_of names_of one_table gathered [[("customer_id", orders)]]
             [("customer_id", orders)] "id" [] ["customer_id"] left_hash).
    + reflexivity.
    + intros Hin. apply list_elem_of_In in Hin. cbn in Hin.
      destruct Hin as [Hin|[]]. discriminate Hin.
    + exact Hbuild.
  - rewrite preprocess_left_build in Hbuild;
      [discriminate Hbuild|exact orders_well_formed|discriminate].
Defined.

End InnerJoinSingleFacts.
